(** * Funtury order book: the matching engine of [predict_market_backend]

    A shallow embedding of [models.py] and [main.py] and the properties of
    the order / transaction life cycle proved about it.

    Conventions of the embedding:
    - a Python [int] is a [Z]; a Python [float] (the [price] columns) is an
      IEEE-754 binary64 value, [spec_float] with [prec = 53], [emax = 1024];
    - a table is the list of its rows in insertion order; an ORM object is
      identified by its primary key, as in the session's identity map;
    - the SQLAlchemy session is a pair of table sets: what is committed and
      what the current transaction sees; the handlers run in a state and
      exception monad over it;
    - the chain and the market contract are an environment [Env] giving the
      answer of every remote call made during one request; every
      [transferShares] attempt is appended to a log;
    - the engine that [database.py], absent from the sources, creates is
      taken to be SQLite: an [Integer] column holds a signed 64-bit value
      and a [Float] column keeps a NaN as NULL. *)

From Stdlib Require Import ZArith List Bool String Ascii Lia.
From Stdlib Require Import DecimalString.
From Stdlib Require Import Sorting.Sorted Sorting.Permutation.
From Stdlib Require Import Floats.SpecFloat.
Import ListNotations.

Open Scope string_scope.
Open Scope Z_scope.

(** ** Python values *)

Definition float := spec_float.

Definition prec : Z := 53.
Definition emax : Z := 1024.

(** [a <= b] on floats: false as soon as one side is NaN. *)
Definition float_le (a b : float) : bool := SFleb a b.

(** [a * b] on floats, rounded to nearest even. *)
Definition float_mul (a b : float) : float := SFmul prec emax a b.

(** The conversion of an [int] operand of a float operation. *)
Definition float_of_int (z : Z) : float := binary_normalize prec emax z 0 false.

Inductive Exception :=
| HTTPException (status_code : Z) (detail : string)
| ContractLogicError (msg : string)
| ValueError (msg : string)
| OverflowError (msg : string)
| AttributeError (msg : string)
| IntegrityError (msg : string)
| ConnectionError (msg : string)
| ValidationError (msg : string).

(** [str(n)] of an [int]: its decimal digits. *)
Definition str_int (n : Z) : string := NilZero.string_of_int (Z.to_int n).

(** [str(e)]; for an [HTTPException] it is the status code, a colon and
    the detail. *)
Definition str (e : Exception) : string :=
  match e with
  | HTTPException status_code detail => str_int status_code ++ ": " ++ detail
  | ContractLogicError msg | ValueError msg | OverflowError msg
  | AttributeError msg | IntegrityError msg | ConnectionError msg
  | ValidationError msg => msg
  end.

(** The status of the HTTP response FastAPI builds from an exception that
    leaves a handler: an [HTTPException] carries its own, anything else is
    an internal server error. *)
Definition response_status (e : Exception) : Z :=
  match e with
  | HTTPException status_code _ => status_code
  | _ => 500
  end.

Definition client_error (e : Exception) : bool :=
  (400 <=? response_status e) && (response_status e <? 500).

Inductive Result (A : Type) :=
| Ok (a : A)
| Raise (e : Exception).
Arguments Ok {A} a.
Arguments Raise {A} e.

(** [int(x)] of a float: truncation toward zero. *)
Definition int_of_float (x : float) : Result Z :=
  match x with
  | S754_zero _ => Ok 0
  | S754_finite s m e => Ok (cond_Zopp s (Z.shiftl (Zpos m) e))
  | S754_infinity _ => Raise (OverflowError "cannot convert float infinity to integer")
  | S754_nan => Raise (ValueError "cannot convert float NaN to integer")
  end.

(** [s.lower()], on ASCII letters. *)
Definition lower_ascii (c : ascii) : ascii :=
  let n := nat_of_ascii c in
  if ((65 <=? n) && (n <=? 90))%nat then ascii_of_nat (n + 32) else c.

Fixpoint lower (s : string) : string :=
  match s with
  | EmptyString => EmptyString
  | String c s' => String (lower_ascii c) (lower s')
  end.

(** ** models.py *)

Inductive OrderStatus := OPEN | PARTIALLY_DEALT | DEALT | CANCELLED.

Definition OrderStatus_eqb (a b : OrderStatus) : bool :=
  match a, b with
  | OPEN, OPEN | PARTIALLY_DEALT, PARTIALLY_DEALT
  | DEALT, DEALT | CANCELLED, CANCELLED => true
  | _, _ => false
  end.

Module Order.
Record t := mk {
  id : Z;
  order_serial : string;
  user_address : string;
  market_address : string;
  outcome : string;
  price : float;
  amount : Z;
  side : string;
  market_state : string;
  created_at : Z
}.

Definition set_id (o : t) (i : Z) : t :=
  mk i (order_serial o) (user_address o) (market_address o) (outcome o)
     (price o) (amount o) (side o) (market_state o) (created_at o).

Definition set_amount (o : t) (a : Z) : t :=
  mk (id o) (order_serial o) (user_address o) (market_address o) (outcome o)
     (price o) a (side o) (market_state o) (created_at o).
End Order.

Module Transaction.
Record t := mk {
  id : Z;
  order_serial : string;
  user_address : string;
  market_address : string;
  outcome : string;
  side : string;
  deal_amount : Z;
  remaining_amount : Z;
  price : float;
  status : OrderStatus;
  created_at : Z;
  dealt_at : option Z
}.

Definition set_id (x : t) (i : Z) : t :=
  mk i (order_serial x) (user_address x) (market_address x) (outcome x)
     (side x) (deal_amount x) (remaining_amount x) (price x) (status x)
     (created_at x) (dealt_at x).

Definition set_status (x : t) (s : OrderStatus) : t :=
  mk (id x) (order_serial x) (user_address x) (market_address x) (outcome x)
     (side x) (deal_amount x) (remaining_amount x) (price x) s
     (created_at x) (dealt_at x).
End Transaction.

(** ** The store and the session *)

Record Tables := mkTables {
  orders : list Order.t;
  transactions : list Transaction.t
}.

(** One [transferShares] call as the contract receives it. *)
Record TransferCall := mkTransferCall {
  seller : string;
  buyer : string;
  is_yes : bool;
  price_fixed : Z;
  quantity : Z
}.

(** What a settlement attempt comes back with: a mined receipt with its
    status (0 is a revert), or an exception. *)
Inductive TxOutcome :=
| Receipt (status : Z)
| Raises (e : Exception).

Record World := mkWorld {
  committed : Tables;
  working : Tables;
  chain : list (TransferCall * TxOutcome);
  clock : Z
}.

(** The remote answers during one request. [transferShares n c] is the
    outcome of the call [c] when [n] attempts were already logged. *)
Record Env := mkEnv {
  to_checksum_address : string -> Result string;
  getMarketState : string -> Result string;
  transferShares : nat -> TransferCall -> TxOutcome;
  uuid4 : string
}.

(** *** The state and exception monad of a handler *)

Definition M (A : Type) : Type := World -> Result A * World.

Definition ret {A} (a : A) : M A := fun w => (Ok a, w).

Definition raise {A} (e : Exception) : M A := fun w => (Raise e, w).

Definition bind {A B} (c : M A) (k : A -> M B) : M B :=
  fun w =>
    match c w with
    | (Ok a, w') => k a w'
    | (Raise e, w') => (Raise e, w')
    end.

Notation "x <- c ;; k" := (bind c (fun x => k))
  (at level 61, c at next level, right associativity).
Notation "c ;;; k" := (bind c (fun _ => k))
  (at level 61, right associativity).

Definition lift {A} (r : Result A) : M A := fun w => (r, w).

(** [try: body except Exception as e: handler e]. *)
Definition try_except {A} (body : M A) (handler : Exception -> M A) : M A :=
  fun w =>
    match body w with
    | (Ok a, w') => (Ok a, w')
    | (Raise e, w') => handler e w'
    end.

Definition get_working : M Tables := fun w => (Ok (working w), w).

Definition set_working (t : Tables) : M unit :=
  fun w => (Ok tt, mkWorld (committed w) t (chain w) (clock w)).

(** [datetime.utcnow()]: successive readings differ. *)
Definition utcnow : M Z :=
  fun w => (Ok (clock w), mkWorld (committed w) (working w) (chain w) (clock w + 1)).

(** The primary key the database gives a new row. *)
Definition fresh_id (ids : list Z) : Z := 1 + fold_right Z.max 0 ids.

(** [db.add(order)]; the returned row carries its primary key. *)
Definition db_add_order (o : Order.t) : M Order.t :=
  t <- get_working ;;
  let o' := Order.set_id o (fresh_id (map Order.id (orders t))) in
  set_working (mkTables (orders t ++ [o'])%list (transactions t)) ;;;
  ret o'.

(** [db.add(transaction)]; the column default gives [status] its value. *)
Definition db_add_transaction (x : Transaction.t) : M Transaction.t :=
  t <- get_working ;;
  let x' := Transaction.set_id x (fresh_id (map Transaction.id (transactions t))) in
  set_working (mkTables (orders t) (transactions t ++ [x'])%list) ;;;
  ret x'.

(** An attribute assignment on a loaded [Order]: the row with its key. *)
Definition update_order (i : Z) (f : Order.t -> Order.t) : M unit :=
  t <- get_working ;;
  set_working
    (mkTables (map (fun o => if Order.id o =? i then f o else o) (orders t))
              (transactions t)).

(** Attribute assignments on a loaded [Transaction]. *)
Definition update_transaction (i : Z) (f : Transaction.t -> Transaction.t) : M unit :=
  t <- get_working ;;
  set_working
    (mkTables (orders t)
              (map (fun x => if Transaction.id x =? i then f x else x)
                   (transactions t))).

(** [db.delete(order)]. *)
Definition db_delete (i : Z) : M unit :=
  t <- get_working ;;
  set_working
    (mkTables (filter (fun o => negb (Order.id o =? i)) (orders t))
              (transactions t)).

(** [db.commit()]. *)
Definition db_commit : M unit :=
  fun w => (Ok tt, mkWorld (working w) (working w) (chain w) (clock w)).

Fixpoint distinct (l : list string) : bool :=
  match l with
  | [] => true
  | s :: l' => negb (existsb (String.eqb s) l') && distinct l'
  end.

(** An [Integer] column holds a signed 64-bit value. *)
Definition fits_integer (n : Z) : bool := (- 2 ^ 63 <=? n) && (n <? 2 ^ 63).
Arguments fits_integer : simpl never.

(** The flush of the pending rows, [pending] being the values they have
    for [Integer] columns: a value that does not fit is refused when the
    row is written, and [orders.order_serial] is [unique]. *)
Definition flush (pending : list Z) : M unit :=
  t <- get_working ;;
  if negb (forallb fits_integer pending) then
    raise (OverflowError "Python int too large to convert to SQLite INTEGER")
  else if distinct (map Order.order_serial (orders t)) then ret tt
  else raise (IntegrityError "UNIQUE constraint failed: orders.order_serial").

(** [with db.begin_nested(): body]: a flush, a savepoint, and on an
    exception the return to the savepoint before it goes on up. *)
Definition begin_nested {A} (pending : list Z) (body : M A) : M A :=
  flush pending ;;;
  fun w =>
    match body w with
    | (Ok a, w') => (Ok a, w')
    | (Raise e, w') =>
        (Raise e, mkWorld (committed w') (working w) (chain w') (clock w'))
    end.

(** Modelled from the spec: [get_db] of database.py, absent from the
    sources, the "scoped atomic unit of work that either commits all
    mutations made within it or rolls all of them back": the session of a
    request starts from the committed tables and what it has not committed
    when the request ends is dropped. *)
Definition get_db {A} (handler : M A) : M A :=
  fun w =>
    let '(r, w') :=
      handler (mkWorld (committed w) (committed w) (chain w) (clock w)) in
    (r, mkWorld (committed w') (committed w') (chain w') (clock w')).

(** [db.query(Transaction).filter(Transaction.order_serial == s).first()]. *)
Definition first_transaction (s : string) : M (option Transaction.t) :=
  t <- get_working ;;
  ret (find (fun x => String.eqb (Transaction.order_serial x) s) (transactions t)).

(** [db.query(Order).filter(Order.id == i).first()]. *)
Definition first_order (i : Z) : M (option Order.t) :=
  t <- get_working ;;
  ret (find (fun o => Order.id o =? i) (orders t)).

(** ** main.py *)

Module OrderCreate.
Record t := mk {
  user_address : string;
  market_address : string;
  outcome : string;
  price : float;
  amount : Z;
  side : string
}.
End OrderCreate.

Module OrderResponse.
Record t := mk {
  id : Z;
  order_serial : string;
  user_address : string;
  market_address : string;
  outcome : string;
  price : float;
  amount : Z;
  side : string;
  market_state : string;
  created_at : Z
}.
End OrderResponse.

(** The response built from an order object, with the given [amount]. *)
Definition OrderResponse_of (o : Order.t) (amount : Z) : OrderResponse.t :=
  OrderResponse.mk (Order.id o) (Order.order_serial o) (Order.user_address o)
    (Order.market_address o) (Order.outcome o) (Order.price o) amount
    (Order.side o) (Order.market_state o) (Order.created_at o).

(** [db.refresh(db_order)] followed by [OrderResponse(...)] on the
    refreshed attributes, for the order [o] the session wrote: the database
    keeps a NaN as NULL, the refreshed [price] is then [None], and the
    [float] field of [OrderResponse] refuses it. *)
Definition OrderResponse_refreshed (o : Order.t) (amount : Z) : Result OrderResponse.t :=
  match Order.price o with
  | S754_nan =>
      Raise (ValidationError "1 validation error for OrderResponse: price")
  | _ => Ok (OrderResponse_of o amount)
  end.

(** *** match_order *)

(** [ORDER BY] a key: a stable insertion sort of the rows selected. *)
Fixpoint insert_by (le : Order.t -> Order.t -> bool) (x : Order.t)
    (l : list Order.t) : list Order.t :=
  match l with
  | [] => [x]
  | y :: l' => if le x y then x :: l else y :: insert_by le x l'
  end.

Definition order_by (le : Order.t -> Order.t -> bool) (l : list Order.t) : list Order.t :=
  fold_right (insert_by le) [] l.

(** [Order.price.asc()] and [Order.price.desc()]. *)
Definition price_asc (a b : Order.t) : bool := float_le (Order.price a) (Order.price b).
Definition price_desc (a b : Order.t) : bool := float_le (Order.price b) (Order.price a).

(** The five conditions of the first [filter] of [match_order]. *)
Definition eligible (new_order : Order.t) (opposite_side : string) (o : Order.t) : bool :=
  String.eqb (Order.market_address o) (Order.market_address new_order)
  && String.eqb (Order.outcome o) (Order.outcome new_order)
  && String.eqb (Order.side o) opposite_side
  && (0 <? Order.amount o)
  && String.eqb (Order.market_state o) "Active".

Definition match_order (db : Tables) (new_order : Order.t) : list Order.t :=
  if Order.amount new_order <=? 0 then []
  else
    let opposite_side :=
      if String.eqb (Order.side new_order) "buy" then "sell" else "buy" in
    let query := filter (eligible new_order opposite_side) (orders db) in
    if String.eqb (Order.side new_order) "buy" then
      order_by price_asc
        (filter (fun o => float_le (Order.price o) (Order.price new_order)) query)
    else
      order_by price_desc
        (filter (fun o => float_le (Order.price new_order) (Order.price o)) query).

(** *** create_order *)

(** [int(transaction_price * 10**18)]. *)
Definition price_fixed_point (transaction_price : float) : Result Z :=
  int_of_float (float_mul transaction_price (float_of_int (10 ^ 18))).

(** The attempt itself, from [build_transaction] to the receipt: logged,
    and its receipt status returned unless something was raised. *)
Definition send_transferShares (env : Env) (c : TransferCall) : M Z :=
  fun w =>
    let out := transferShares env (List.length (chain w)) c in
    let w' := mkWorld (committed w) (working w) (chain w ++ [(c, out)])%list (clock w) in
    match out with
    | Receipt status => (Ok status, w')
    | Raises e => (Raise e, w')
    end.

(** The update of one transaction record by a fill (both records get the
    same five assignments). *)
Definition fill (matched_amount : Z) (transaction_price : float) (now : Z)
    (x : Transaction.t) : Transaction.t :=
  let deal_amount := Transaction.deal_amount x + matched_amount in
  let remaining_amount := Transaction.remaining_amount x - matched_amount in
  let status := if 0 <? remaining_amount then PARTIALLY_DEALT else DEALT in
  let dealt_at :=
    if OrderStatus_eqb status DEALT then Some now else Transaction.dealt_at x in
  Transaction.mk (Transaction.id x) (Transaction.order_serial x)
    (Transaction.user_address x) (Transaction.market_address x)
    (Transaction.outcome x) (Transaction.side x)
    deal_amount remaining_amount transaction_price status
    (Transaction.created_at x) dealt_at.

(** Whether a fill of [matched_amount] leaves nothing of a record with
    key [i]. *)
Definition becomes_dealt (i : Z) (matched_amount : Z) (xs : list Transaction.t) : bool :=
  existsb (fun x => (Transaction.id x =? i)
                    && negb (0 <? Transaction.remaining_amount x - matched_amount))
    xs.

(** The five assignments of a fill on the record with key [i];
    [datetime.utcnow()] is evaluated, and the clock moves, only when the
    record becomes DEALT. *)
Definition fill_transaction (i : Z) (matched_amount : Z) (transaction_price : float)
  : M unit :=
  fun w =>
    let t := working w in
    (Ok tt,
     mkWorld (committed w)
       (mkTables (orders t)
          (map (fun x => if Transaction.id x =? i
                         then fill matched_amount transaction_price (clock w) x
                         else x)
             (transactions t)))
       (chain w)
       (if becomes_dealt i matched_amount (transactions t)
        then clock w + 1 else clock w)).

(** The [try] block of one iteration, for the candidate [matched_order]
    and its record [matched_transaction]; it returns the new value of the
    local [remaining_amount]. The candidates are distinct rows loaded by
    one query and none is the incoming order, so the attributes read on
    [matched_order] are the loaded ones. *)
Definition settle_pair (env : Env) (order : OrderCreate.t)
    (db_order : Order.t) (db_transaction : Transaction.t)
    (matched_order : Order.t) (matched_transaction : Transaction.t)
    (remaining_amount : Z) : M Z :=
  let is_yes := String.eqb (lower (OrderCreate.outcome order)) "yes" in
  let matched_amount := Z.min remaining_amount (Order.amount matched_order) in
  let transaction_price := Order.price matched_order in
  seller <- lift (to_checksum_address env
                    (if String.eqb (Order.side db_order) "sell"
                     then Order.user_address db_order
                     else Order.user_address matched_order)) ;;
  buyer <- lift (to_checksum_address env
                   (if String.eqb (Order.side db_order) "buy"
                    then Order.user_address db_order
                    else Order.user_address matched_order)) ;;
  p <- lift (price_fixed_point transaction_price) ;;
  status <- send_transferShares env
              (mkTransferCall seller buyer is_yes p matched_amount) ;;
  if status =? 0 then
    raise (HTTPException 400 "Transfer shares failed: Transaction reverted")
  else
    fill_transaction (Transaction.id db_transaction)
      matched_amount transaction_price ;;;
    fill_transaction (Transaction.id matched_transaction)
      matched_amount transaction_price ;;;
    let matched_order_amount := Order.amount matched_order - matched_amount in
    update_order (Order.id matched_order)
      (fun o => Order.set_amount o matched_order_amount) ;;;
    let remaining_amount := remaining_amount - matched_amount in
    update_order (Order.id db_order)
      (fun o => Order.set_amount o remaining_amount) ;;;
    (if matched_order_amount =? 0 then db_delete (Order.id matched_order) else ret tt) ;;;
    (if remaining_amount =? 0 then db_delete (Order.id db_order) else ret tt) ;;;
    ret remaining_amount.

(** The [for matched_order in matched_orders] loop; its value is the
    final [remaining_amount]. *)
Fixpoint matching_loop (env : Env) (order : OrderCreate.t)
    (db_order : Order.t) (db_transaction : Transaction.t)
    (matched_orders : list Order.t) (remaining_amount : Z) : M Z :=
  match matched_orders with
  | [] => ret remaining_amount
  | matched_order :: rest =>
      if remaining_amount =? 0 then ret remaining_amount
      else
        found <- first_transaction (Order.order_serial matched_order) ;;
        match found with
        | None => raise (HTTPException 400 "Matched transaction not found")
        | Some matched_transaction =>
            remaining_amount' <-
              try_except
                (settle_pair env order db_order db_transaction
                   matched_order matched_transaction remaining_amount)
                (fun e => raise (HTTPException 400
                                   ("Transfer shares failed: " ++ str e)%string)) ;;
            matching_loop env order db_order db_transaction rest remaining_amount'
        end
  end.

Definition create_order (env : Env) (order : OrderCreate.t) : M OrderResponse.t :=
  market_contract <- lift (to_checksum_address env (OrderCreate.market_address order)) ;;
  market_state <- lift (getMarketState env market_contract) ;;
  if negb (String.eqb market_state "Active") then
    raise (HTTPException 400 "Market not in active phase")
  else
    let order_serial := uuid4 env in
    user_address <- lift (to_checksum_address env (OrderCreate.user_address order)) ;;
    now <- utcnow ;;
    db_order <- db_add_order
      (Order.mk 0 order_serial user_address (OrderCreate.market_address order)
         (OrderCreate.outcome order) (OrderCreate.price order)
         (OrderCreate.amount order) (OrderCreate.side order) market_state now) ;;
    now' <- utcnow ;;
    db_transaction <- db_add_transaction
      (Transaction.mk 0 order_serial user_address (OrderCreate.market_address order)
         (OrderCreate.outcome order) (OrderCreate.side order)
         0 (OrderCreate.amount order) (OrderCreate.price order) OPEN now' None) ;;
    remaining_amount <-
      begin_nested
        [Order.amount db_order; Transaction.deal_amount db_transaction;
         Transaction.remaining_amount db_transaction]
        (db <- get_working ;;
         let matched_orders := match_order db db_order in
         matching_loop env order db_order db_transaction matched_orders
           (Order.amount db_order)) ;;
    if 0 <? remaining_amount then
      update_order (Order.id db_order)
        (fun o => Order.set_amount o remaining_amount) ;;;
      db_commit ;;;
      lift (OrderResponse_refreshed db_order remaining_amount)
    else
      db_delete (Order.id db_order) ;;;
      db_commit ;;;
      ret (OrderResponse_of db_order 0).

(** *** cancel_order *)

Definition cancellable (s : OrderStatus) : bool :=
  OrderStatus_eqb s OPEN || OrderStatus_eqb s PARTIALLY_DEALT.

Definition cancel_order (env : Env) (order_id : Z) : M OrderResponse.t :=
  db_order <- first_order order_id ;;
  db_transaction <-
    match db_order with
    | Some o => first_transaction (Order.order_serial o)
    | None => raise (AttributeError "'NoneType' object has no attribute 'order_serial'")
    end ;;
  match db_order, db_transaction with
  | Some db_order, Some db_transaction =>
      if negb (cancellable (Transaction.status db_transaction)) then
        raise (HTTPException 400 "Order cannot be cancelled")
      else
        market_contract <- lift (to_checksum_address env (Order.market_address db_order)) ;;
        market_state <- lift (getMarketState env market_contract) ;;
        if negb (String.eqb market_state "Active") then
          raise (HTTPException 400 "Market not in active phase")
        else
          update_transaction (Transaction.id db_transaction)
            (fun x => Transaction.set_status x CANCELLED) ;;;
          db_delete (Order.id db_order) ;;;
          db_commit ;;;
          ret (OrderResponse_of db_order (Order.amount db_order))
  | _, _ => raise (HTTPException 404 "Order not found")
  end.

(** ** The two endpoints, each in a session of its own *)

(** A request is its handler run in a session of its own: its result is
    what the handler returns or raises. What the framework then does with
    it is outside the model, except for the status it gives an exception
    ([response_status]). *)

Definition post_orders (env : Env) (order : OrderCreate.t) : M OrderResponse.t :=
  get_db (create_order env order).

Definition post_cancel (env : Env) (order_id : Z) : M OrderResponse.t :=
  get_db (cancel_order env order_id).

(** ** Derived descriptions used in the statements *)

(** A settlement attempt went through: a receipt whose status is not 0. *)
Definition settled (out : TxOutcome) : bool :=
  match out with
  | Receipt status => negb (status =? 0)
  | Raises _ => false
  end.

Definition set_row_order (i : Z) (f : Order.t -> Order.t) (l : list Order.t) :=
  map (fun o => if Order.id o =? i then f o else o) l.

Definition set_row_transaction (i : Z) (f : Transaction.t -> Transaction.t)
    (l : list Transaction.t) :=
  map (fun x => if Transaction.id x =? i then f x else x) l.

Definition delete_row (i : Z) (l : list Order.t) :=
  filter (fun o => negb (Order.id o =? i)) l.

(** The clock when the second record is filled: the first fill has read
    it if the record of the incoming order became DEALT. *)
Definition second_reading (j : Z) (matched_amount now : Z) (t : Tables) : Z :=
  if becomes_dealt j matched_amount (transactions t) then now + 1 else now.

(** The tables after the success path of [settle_pair], as one expression:
    [i] and [j] are the keys of the incoming order and of its record, [k]
    the key of the candidate's record, [now] the clock before the fill. *)
Definition filled_tables (i j : Z) (matched_order : Order.t) (k : Z)
    (remaining_amount now : Z) (t : Tables) : Tables :=
  let matched_amount := Z.min remaining_amount (Order.amount matched_order) in
  let p := Order.price matched_order in
  let os :=
    set_row_order i (fun o => Order.set_amount o (remaining_amount - matched_amount))
      (set_row_order (Order.id matched_order)
         (fun o => Order.set_amount o (Order.amount matched_order - matched_amount))
         (orders t)) in
  let os := if Order.amount matched_order - matched_amount =? 0
            then delete_row (Order.id matched_order) os else os in
  let os := if remaining_amount - matched_amount =? 0
            then delete_row i os else os in
  mkTables os
    (set_row_transaction k
       (fill matched_amount p (second_reading j matched_amount now t))
       (set_row_transaction j (fill matched_amount p now) (transactions t))).

(** The call [settle_pair] builds for a candidate. *)
Definition call_for (env : Env) (order : OrderCreate.t) (db_order matched_order : Order.t)
    (remaining_amount : Z) (c : TransferCall) : Prop :=
  to_checksum_address env
    (if String.eqb (Order.side db_order) "sell"
     then Order.user_address db_order else Order.user_address matched_order)
    = Ok (seller c)
  /\ to_checksum_address env
       (if String.eqb (Order.side db_order) "buy"
        then Order.user_address db_order else Order.user_address matched_order)
     = Ok (buyer c)
  /\ is_yes c = String.eqb (lower (OrderCreate.outcome order)) "yes"
  /\ price_fixed_point (Order.price matched_order) = Ok (price_fixed c)
  /\ quantity c = Z.min remaining_amount (Order.amount matched_order).

(** The two rows [create_order] adds, and the world when the loop starts. *)
Definition new_order (env : Env) (order : OrderCreate.t) (user_address : string)
    (w : World) : Order.t :=
  Order.mk (fresh_id (map Order.id (orders (working w)))) (uuid4 env) user_address
    (OrderCreate.market_address order) (OrderCreate.outcome order)
    (OrderCreate.price order) (OrderCreate.amount order) (OrderCreate.side order)
    "Active" (clock w).

Definition new_transaction (env : Env) (order : OrderCreate.t) (user_address : string)
    (w : World) : Transaction.t :=
  Transaction.mk (fresh_id (map Transaction.id (transactions (working w))))
    (uuid4 env) user_address
    (OrderCreate.market_address order) (OrderCreate.outcome order)
    (OrderCreate.side order) 0 (OrderCreate.amount order)
    (OrderCreate.price order) OPEN (clock w + 1) None.

Definition started (env : Env) (order : OrderCreate.t) (user_address : string)
    (w : World) : World :=
  mkWorld (committed w)
    (mkTables (orders (working w) ++ [new_order env order user_address w])
              (transactions (working w) ++ [new_transaction env order user_address w]))
    (chain w) (clock w + 1 + 1).

(** The tables committed after the loop left [remaining_amount]. *)
Definition finished (db_order : Order.t) (remaining_amount : Z) (t : Tables) : Tables :=
  if 0 <? remaining_amount then
    mkTables (set_row_order (Order.id db_order)
                (fun o => Order.set_amount o remaining_amount) (orders t))
             (transactions t)
  else mkTables (delete_row (Order.id db_order) (orders t)) (transactions t).

(** The world in which the handler of a request starts: a session on the
    committed tables. *)
Definition session (w : World) : World :=
  mkWorld (committed w) (committed w) (chain w) (clock w).

(** A price that is a number: neither an infinity nor NaN. *)
Definition finite (x : float) : bool :=
  match x with
  | S754_zero _ | S754_finite _ _ _ => true
  | S754_infinity _ | S754_nan => false
  end.

(** How often a fill on the records with keys [j] and [k] touches [x]. *)
Definition fills_of (j k : Z) (x : Transaction.t) : Z :=
  (if Transaction.id x =? j then 1 else 0) + (if Transaction.id x =? k then 1 else 0).

(** The request stopped before the session was touched. *)
Definition rejected_early (env : Env) (order : OrderCreate.t) (e : Exception) : Prop :=
  to_checksum_address env (OrderCreate.market_address order) = Raise e
  \/ (exists a, to_checksum_address env (OrderCreate.market_address order) = Ok a
                /\ getMarketState env a = Raise e)
  \/ (exists a s, to_checksum_address env (OrderCreate.market_address order) = Ok a
                  /\ getMarketState env a = Ok s /\ s <> "Active"
                  /\ e = HTTPException 400 "Market not in active phase")
  \/ (exists a, to_checksum_address env (OrderCreate.market_address order) = Ok a
                /\ getMarketState env a = Ok "Active"
                /\ to_checksum_address env (OrderCreate.user_address order) = Raise e).

(** The original amount of a record, from its two counters. *)
Definition total (x : Transaction.t) : Z :=
  Transaction.deal_amount x + Transaction.remaining_amount x.

(** Two states of one record with the same sum. *)
Definition same_total (x x' : Transaction.t) : Prop :=
  Transaction.id x' = Transaction.id x /\ total x' = total x.

(** A price compares with itself unless it is NaN. *)
Definition ordered (a : float) : bool := float_le a a.

(** The conditions of the query, read as propositions. *)
Definition resting_match (new_order : Order.t) (opposite_side : string)
    (o : Order.t) : Prop :=
  Order.market_address o = Order.market_address new_order
  /\ Order.outcome o = Order.outcome new_order
  /\ Order.side o = opposite_side
  /\ 0 < Order.amount o
  /\ Order.market_state o = "Active".

(** The mapping of the data-model section, in its own words: the status a
    record should have for its original amount and what remains of it. *)
Inductive status_spec (original remaining : Z) : OrderStatus -> Prop :=
| status_open : remaining = original -> status_spec original remaining OPEN
| status_partially_dealt :
    0 < remaining < original -> status_spec original remaining PARTIALLY_DEALT
| status_dealt : remaining = 0 -> status_spec original remaining DEALT.

(** A well-formed record: nothing negative was dealt, the status is
    CANCELLED or the one of the mapping, and [dealt_at] is set exactly when
    the status is DEALT. *)
Definition transaction_ok (x : Transaction.t) : Prop :=
  0 <= Transaction.deal_amount x
  /\ (Transaction.status x = CANCELLED
      \/ status_spec (total x) (Transaction.remaining_amount x) (Transaction.status x))
  /\ (Transaction.dealt_at x <> None <-> Transaction.status x = DEALT).

(** A well-formed store: keys and serials identify rows, every order in the
    book has a positive amount and a live record with the same serial that
    shows this amount as remaining, and every record is well-formed. *)
Definition book_ok (t : Tables) : Prop :=
  NoDup (map Order.id (orders t))
  /\ NoDup (map Transaction.id (transactions t))
  /\ NoDup (map Order.order_serial (orders t))
  /\ NoDup (map Transaction.order_serial (transactions t))
  /\ (forall o, In o (orders t) ->
        0 < Order.amount o
        /\ exists x, In x (transactions t)
                     /\ Transaction.order_serial x = Order.order_serial o
                     /\ Transaction.remaining_amount x = Order.amount o
                     /\ cancellable (Transaction.status x) = true)
  /\ (forall x, In x (transactions t) -> transaction_ok x).

(** What holds of the session's tables at the head of every iteration:
    [i], [j] and [s] are the key of the incoming order, the key of its
    record and their serial, [old] the records before the request. *)
Definition loop_ok (i j : Z) (s : string) (old : list Transaction.t)
    (l : list Order.t) (rem : Z) (t : Tables) : Prop :=
  book_ok t
  /\ 0 <= rem
  /\ (exists x, In x (transactions t) /\ Transaction.id x = j
                /\ Transaction.order_serial x = s)
  /\ (rem <> 0 -> exists o, In o (orders t) /\ Order.id o = i
                            /\ Order.order_serial o = s /\ Order.amount o = rem)
  /\ (rem = 0 -> forall o, In o (orders t) -> Order.id o <> i)
  /\ (forall m, In m l -> In m (orders t) /\ Order.id m <> i)
  /\ NoDup (map Order.id l)
  /\ (forall x, In x old -> cancellable (Transaction.status x) = false ->
                In x (transactions t)).

(** ** Sample data: a book with two resting sells *)

Module Sample.
(** The binary64 values of the literals 0.5, 0.55 and 0.6. *)
Definition p050 : float := S754_finite false 4503599627370496 (-53).
Definition p055 : float := S754_finite false 4953959590107546 (-53).
Definition p060 : float := S754_finite false 5404319552844595 (-53).

Definition env_ok : Env :=
  mkEnv (fun s => Ok s) (fun _ => Ok "Active") (fun _ _ => Receipt 1) "serial-3".

(** The second settlement attempt of the request is reverted. *)
Definition env_second_reverts : Env :=
  mkEnv (fun s => Ok s) (fun _ => Ok "Active")
    (fun n _ => if Nat.eqb n 1 then Receipt 0 else Receipt 1) "serial-3".

(** The node does not answer [getMarketState]. *)
Definition env_oracle_down : Env :=
  mkEnv (fun s => Ok s) (fun _ => Raise (ConnectionError "connection refused"))
    (fun _ _ => Receipt 1) "serial-3".

Definition env_resolved : Env :=
  mkEnv (fun s => Ok s) (fun _ => Ok "Resolved") (fun _ _ => Receipt 1) "serial-3".

Definition sell1 : Order.t :=
  Order.mk 1 "serial-1" "alice" "market" "yes" p050 5 "sell" "Active" 10.
Definition tsell1 : Transaction.t :=
  Transaction.mk 1 "serial-1" "alice" "market" "yes" "sell" 0 5 p050 OPEN 11 None.
Definition sell2 : Order.t :=
  Order.mk 2 "serial-2" "carol" "market" "yes" p055 5 "sell" "Active" 12.
Definition tsell2 : Transaction.t :=
  Transaction.mk 2 "serial-2" "carol" "market" "yes" "sell" 0 5 p055 OPEN 13 None.

Definition book : Tables := mkTables [sell1; sell2] [tsell1; tsell2].
Definition w0 : World := mkWorld book book [] 100.

Definition buy10 : OrderCreate.t := OrderCreate.mk "bob" "market" "yes" p060 10 "buy".
Definition buy7 : OrderCreate.t := OrderCreate.mk "bob" "market" "yes" p060 7 "buy".

(** A buy whose price is NaN. *)
Definition buy_nan : OrderCreate.t :=
  OrderCreate.mk "bob" "market" "yes" S754_nan 3 "buy".
End Sample.

(** ** main.py: the two queries *)


Module TransactionResponse.
Record t := mk {
  id : Z;
  order_serial : string;
  user_address : string;
  market_address : string;
  outcome : string;
  side : string;
  deal_amount : Z;
  remaining_amount : Z;
  price : float;
  status : string;
  created_at : Z;
  dealt_at : option Z
}.
End TransactionResponse.


(** The four conditions of the [filter] of [get_orderbook]. *)
Definition listed (market_address outcome : string) (o : Order.t) : bool :=
  String.eqb (Order.market_address o) market_address
  && String.eqb (Order.outcome o) outcome
  && (0 <? Order.amount o)
  && String.eqb (Order.market_state o) "Active".

Definition get_orderbook (market_address outcome : string) : M (list OrderResponse.t) :=
  t <- get_working ;;
  let orders := filter (listed market_address outcome) (orders t) in
  ret (map (fun o => OrderResponse_of o (Order.amount o)) orders).


Definition get_orders (market_address outcome : string) : M (list OrderResponse.t) :=
  get_db (get_orderbook market_address outcome).


(** ** The allocation of the loop, as a function *)

(** What a loop that meets no failure takes from each candidate, in
    order: the candidates reached and the quantity of each fill. *)
Fixpoint allocations (remaining_amount : Z) (matched_orders : list Order.t)
  : list (Order.t * Z) :=
  match matched_orders with
  | [] => []
  | matched_order :: rest =>
      if remaining_amount =? 0 then []
      else
        let matched_amount := Z.min remaining_amount (Order.amount matched_order) in
        (matched_order, matched_amount)
        :: allocations (remaining_amount - matched_amount) rest
  end.

Definition sum (l : list Z) : Z := fold_right Z.add 0 l.


(** The incoming order as [create_order] built it, read back from the
    request and from the response of a successful submission. *)
Definition incoming (order : OrderCreate.t) (resp : OrderResponse.t) : Order.t :=
  Order.mk (OrderResponse.id resp) (OrderResponse.order_serial resp)
    (OrderResponse.user_address resp) (OrderResponse.market_address resp)
    (OrderResponse.outcome resp) (OrderResponse.price resp)
    (OrderCreate.amount order) (OrderResponse.side resp)
    (OrderResponse.market_state resp) (OrderResponse.created_at resp).

(** ** Basic facts on the monad and the session *)

Lemma bind_inv {A B} (c : M A) (k : A -> M B) w r w' :
  bind c k w = (r, w') ->
  (exists a w1, c w = (Ok a, w1) /\ k a w1 = (r, w'))
  \/ (exists e, c w = (Raise e, w') /\ r = Raise e).
Proof.
  unfold bind. destruct (c w) as [[a | e] w1]; intros H.
  - left. eauto.
  - right. inversion H; subst. eauto.
Qed.

(** What one iteration does, case by case: nothing is committed; either no
    call is attempted and an exception leaves, or one call is logged, and
    then the tables move exactly when the call is settled. *)
Lemma settle_pair_inv env order db_order db_transaction matched_order
      matched_transaction remaining_amount w r w' :
  settle_pair env order db_order db_transaction matched_order
    matched_transaction remaining_amount w = (r, w') ->
  committed w' = committed w
  /\ ((chain w' = chain w /\ working w' = working w /\ clock w' = clock w
       /\ exists e, r = Raise e)
      \/ exists c,
          let out := transferShares env (List.length (chain w)) c in
          chain w' = (chain w ++ [(c, out)])%list
          /\ call_for env order db_order matched_order remaining_amount c
          /\ ((settled out = false /\ working w' = working w
               /\ clock w' = clock w /\ exists e, r = Raise e)
              \/ (settled out = true
                  /\ r = Ok (remaining_amount
                             - Z.min remaining_amount (Order.amount matched_order))
                  /\ clock w <= clock w' <= clock w + 2
                  /\ working w' =
                     filled_tables (Order.id db_order) (Transaction.id db_transaction)
                       matched_order (Transaction.id matched_transaction)
                       remaining_amount (clock w) (working w)))).
Proof.
  unfold settle_pair, call_for, bind, lift.
  destruct (to_checksum_address env _) as [s | e] eqn:Es.
  2:{ intros H; inversion H; subst. split; [reflexivity | left]. eauto 6. }
  destruct (to_checksum_address env (if String.eqb (Order.side db_order) "buy" then _ else _))
    as [b | e] eqn:Eb.
  2:{ intros H; inversion H; subst. split; [reflexivity | left]. eauto 6. }
  destruct (price_fixed_point (Order.price matched_order)) as [p | e] eqn:Ep.
  2:{ intros H; inversion H; subst. split; [reflexivity | left]. eauto 6. }
  unfold send_transferShares.
  set (c := mkTransferCall s b _ p _).
  destruct (transferShares env (List.length (chain w)) c) as [st | e] eqn:Eo.
  - destruct (st =? 0) eqn:Est.
    + unfold raise. intros H; inversion H; subst; simpl.
      split; [reflexivity | right]. exists c. simpl. rewrite Eo. simpl. rewrite Est.
      repeat split; auto. left. repeat split; eauto.
    + unfold fill_transaction, update_order, db_delete, get_working,
        set_working, ret, bind, filled_tables, second_reading, set_row_order,
        set_row_transaction, delete_row.
      simpl.
      destruct (becomes_dealt (Transaction.id db_transaction)
                  (Z.min remaining_amount (Order.amount matched_order))
                  (transactions (working w))) eqn:B1;
      destruct (becomes_dealt (Transaction.id matched_transaction) _ _) eqn:B2;
      destruct (Order.amount matched_order
                - Z.min remaining_amount (Order.amount matched_order) =? 0) eqn:E1;
      destruct (remaining_amount
                - Z.min remaining_amount (Order.amount matched_order) =? 0) eqn:E2;
      simpl; intros H; inversion H; subst; simpl;
      (split; [reflexivity | right]); exists c; simpl; rewrite Eo; simpl; rewrite Est;
      (repeat split; auto); right; repeat split; auto; lia.
  - intros H; inversion H; subst; simpl.
    split; [reflexivity | right]. exists c. simpl. rewrite Eo. simpl.
    repeat split; auto. left. repeat split; eauto.
Qed.

Lemma try_except_inv {A} (body : M A) handler w r w' :
  try_except body handler w = (r, w') ->
  (exists a, body w = (Ok a, w') /\ r = Ok a)
  \/ (exists e w1, body w = (Raise e, w1) /\ handler e w1 = (r, w')).
Proof.
  unfold try_except. destruct (body w) as [[a | e] w1]; intros H.
  - left. inversion H; subst. eauto.
  - right. eauto.
Qed.

Lemma first_transaction_eq s w :
  first_transaction s w
  = (Ok (find (fun x => String.eqb (Transaction.order_serial x) s)
              (transactions (working w))), w).
Proof. reflexivity. Qed.

(** A generic rule for the loop when it runs to its end: a property of
    the remaining candidates, the local [remaining_amount] and the world
    that every successful iteration carries over holds at the end, where
    the candidates are exhausted or nothing remains to fill. *)
Lemma matching_loop_rule env order db_order db_transaction
      (I : list Order.t -> Z -> World -> Prop) :
  (forall m rest rem mt w rem' w',
      I (m :: rest) rem w -> rem <> 0 ->
      find (fun x => String.eqb (Transaction.order_serial x) (Order.order_serial m))
           (transactions (working w)) = Some mt ->
      settle_pair env order db_order db_transaction m mt rem w = (Ok rem', w') ->
      I rest rem' w') ->
  forall l rem w r w',
    I l rem w ->
    matching_loop env order db_order db_transaction l rem w = (Ok r, w') ->
    exists l', I l' r w' /\ (l' = [] \/ r = 0).
Proof.
  intros Hstep l. induction l as [| m rest IH]; intros rem w r w' HI H; simpl in H.
  - inversion H; subst. exists []. auto.
  - destruct (rem =? 0) eqn:E0.
    + inversion H; subst. exists (m :: rest). split; [assumption | right; lia].
    + apply bind_inv in H. destruct H as [(found & w1 & H1 & H) | (e & _ & He)];
        [| discriminate].
      rewrite first_transaction_eq in H1. inversion H1; subst w1 found. clear H1.
      destruct (find _ _) as [mt |] eqn:Ef; [| discriminate].
      apply bind_inv in H. destruct H as [(rem' & w2 & H2 & H) | (e & _ & He)];
        [| discriminate].
      apply try_except_inv in H2.
      destruct H2 as [(a & H2 & Ha) | (e & w3 & _ & H2)]; [| discriminate].
      inversion Ha; subst a.
      eapply IH; [| exact H].
      eapply Hstep; eauto. lia.
Qed.

(** The trace of the loop, whatever its result: nothing is committed; the
    calls logged are built from candidates; when the loop ends normally all
    of them are settled; when an exception leaves it, it is an HTTP 400 and
    only the last call, if any, is unsettled. *)
Lemma matching_loop_trace env order db_order db_transaction l :
  forall rem w r w',
    matching_loop env order db_order db_transaction l rem w = (r, w') ->
    committed w' = committed w
    /\ exists calls,
        chain w' = (chain w ++ calls)%list
        /\ Forall (fun co => exists m rem0,
                       In m l /\ call_for env order db_order m rem0 (fst co)) calls
        /\ match r with
           | Ok _ => Forall (fun co => settled (snd co) = true) calls
           | Raise e =>
               (exists d, e = HTTPException 400 d)
               /\ exists good bad,
                   calls = (good ++ bad)%list
                   /\ Forall (fun co => settled (snd co) = true) good
                   /\ Forall (fun co => settled (snd co) = false) bad
                   /\ (List.length bad <= 1)%nat
           end.
Proof.
  induction l as [| m rest IH]; intros rem w r w' H; simpl in H.
  - inversion H; subst. split; [reflexivity |]. exists []. rewrite app_nil_r. auto.
  - destruct (rem =? 0) eqn:E0.
    { inversion H; subst. split; [reflexivity |]. exists []. rewrite app_nil_r. auto. }
    apply bind_inv in H. destruct H as [(found & w1 & H1 & H) | (e & H1 & He)].
    2:{ rewrite first_transaction_eq in H1. discriminate. }
    rewrite first_transaction_eq in H1. inversion H1; subst w1 found. clear H1.
    destruct (find _ _) as [mt |] eqn:Ef.
    2:{ inversion H; subst. split; [reflexivity |]. exists []. rewrite app_nil_r.
        repeat split; eauto. exists [], []. simpl. auto. }
    apply bind_inv in H. destruct H as [(rem' & w2 & H2 & H) | (e & H2 & He)].
    + apply try_except_inv in H2.
      destruct H2 as [(a & H2 & Ha) | (e & w3 & _ & H2)]; [| discriminate].
      inversion Ha; subst a. clear Ha.
      apply settle_pair_inv in H2. destruct H2 as (Hc & H2).
      destruct H2 as [(_ & _ & _ & e & He) | (c & Hch & Hcall & H2)]; [discriminate |].
      destruct H2 as [(_ & _ & _ & e & He) | (Hs & _ & _ & _)]; [discriminate |].
      apply IH in H. destruct H as (Hc' & calls & Hch' & Hfor & Hr).
      split; [congruence |].
      exists ((c, transferShares env (List.length (chain w)) c) :: calls).
      split; [rewrite Hch', Hch, <- app_assoc; reflexivity |].
      split.
      * constructor.
        -- exists m, rem. simpl. auto.
        -- eapply Forall_impl; [| exact Hfor]. simpl.
           intros co (m' & rem0 & Hin & Hcf). exists m', rem0. auto.
      * destruct r as [a | e].
        -- constructor; assumption.
        -- destruct Hr as (Hd & good & bad & Hcalls & Hg & Hb & Hlen).
           split; [assumption |].
           exists ((c, transferShares env (List.length (chain w)) c) :: good), bad.
           subst calls. simpl. auto.
    + subst r. apply try_except_inv in H2.
      destruct H2 as [(a & _ & Ha) | (e' & w3 & H2 & H3)]; [discriminate |].
      unfold raise in H3. inversion H3; subst. clear H3.
      apply settle_pair_inv in H2. destruct H2 as (Hc & H2).
      split; [assumption |].
      destruct H2 as [(Hch & _) | (c & Hch & Hcall & H2)].
      * exists []. rewrite app_nil_r. repeat split; eauto.
        exists [], []. simpl. auto.
      * destruct H2 as [(Hs & _) | (_ & Hr & _)]; [| discriminate].
        exists [(c, transferShares env (List.length (chain w)) c)].
        repeat split; eauto.
        -- constructor; [| constructor]. exists m, rem. simpl. auto.
        -- exists [], [(c, transferShares env (List.length (chain w)) c)].
           simpl. repeat split; auto.
Qed.

(** *** The shape of a run of [create_order] *)

Lemma create_order_inv env order w r w' :
  create_order env order w = (r, w') ->
  (w' = w /\ exists e, r = Raise e /\ rejected_early env order e)
  \/ exists a ua,
      to_checksum_address env (OrderCreate.market_address order) = Ok a
      /\ getMarketState env a = Ok "Active"
      /\ to_checksum_address env (OrderCreate.user_address order) = Ok ua
      /\ let db_order := new_order env order ua w in
         let db_transaction := new_transaction env order ua w in
         let w1 := started env order ua w in
         (((fits_integer (OrderCreate.amount order) = false
            /\ exists msg, r = Raise (OverflowError msg))
           \/ (fits_integer (OrderCreate.amount order) = true
               /\ distinct (map Order.order_serial (orders (working w1))) = false
               /\ exists msg, r = Raise (IntegrityError msg)))
          /\ w' = w1 /\ exists e, r = Raise e /\ response_status e = 500)
         \/ ((fits_integer (OrderCreate.amount order) = true
              /\ distinct (map Order.order_serial (orders (working w1))) = true)
             /\ exists r1 w2,
                 matching_loop env order db_order db_transaction
                   (match_order (working w1) db_order) (OrderCreate.amount order) w1
                 = (r1, w2)
                 /\ match r1 with
                    | Raise e =>
                        r = Raise e
                        /\ w' = mkWorld (committed w2) (working w1) (chain w2) (clock w2)
                    | Ok rem =>
                        (((0 < rem -> OrderCreate.price order <> S754_nan)
                          /\ r = Ok (OrderResponse_of db_order
                                      (if 0 <? rem then rem else 0)))
                         \/ (0 < rem /\ OrderCreate.price order = S754_nan
                             /\ exists msg, r = Raise (ValidationError msg)))
                        /\ w' = mkWorld (finished db_order rem (working w2))
                                  (finished db_order rem (working w2))
                                  (chain w2) (clock w2)
                    end).
Proof.
  unfold create_order, rejected_early, bind at 1, lift at 1.
  destruct (to_checksum_address env (OrderCreate.market_address order)) as [a | e] eqn:Ea.
  2:{ intros H; inversion H; subst. left. eauto 8. }
  unfold bind at 1, lift at 1.
  destruct (getMarketState env a) as [s | e] eqn:Es.
  2:{ intros H; inversion H; subst. left. split; [reflexivity |]. eauto 10. }
  destruct (String.eqb s "Active") eqn:Eact; simpl negb; cbv iota.
  2:{ unfold raise. intros H; inversion H; subst. left. split; [reflexivity |].
      eexists; split; [reflexivity |]. right; right; left. exists a, s.
      repeat split; auto. intros ->. discriminate. }
  apply String.eqb_eq in Eact. subst s.
  unfold bind at 1, lift at 1.
  destruct (to_checksum_address env (OrderCreate.user_address order)) as [ua | e] eqn:Eu.
  2:{ intros H; inversion H; subst. left. split; [reflexivity |].
      eexists; split; [reflexivity |]. right; right; right. eauto. }
  intros H. right. exists a, ua. repeat split; auto.
  unfold utcnow, db_add_order, db_add_transaction, get_working, set_working, ret in H.
  unfold bind at 1 2 3 4 5 6 7 8 in H. simpl in H.
  unfold bind at 1, begin_nested, flush, bind at 1 2, get_working in H. simpl in H.
  change (Order.set_id _ _) with (new_order env order ua w) in H.
  change (Transaction.set_id _ _) with (new_transaction env order ua w) in H.
  change (mkWorld (committed w) _ (chain w) (clock w + 1 + 1))
    with (started env order ua w) in H.
  change (orders (working w) ++ [new_order env order ua w])%list
    with (orders (working (started env order ua w))) in H.
  destruct (fits_integer (OrderCreate.amount order)) eqn:Efit; cbn [negb andb] in H.
  2:{ unfold raise in H. simpl in H. inversion H; subst. left.
      split; [left; eauto |]. split; [reflexivity |]. eauto. }
  destruct (distinct (map Order.order_serial
              (orders (working (started env order ua w))))) eqn:Ed.
  2:{ unfold raise in H. simpl in H. inversion H; subst. left.
      split; [right; eauto |]. split; [reflexivity |]. eauto. }
  right. split; [split; reflexivity |].
  unfold ret in H. simpl in H. unfold bind at 1 in H. simpl in H.
  change (mkTables _ _) with (working (started env order ua w)) in H.
  destruct (matching_loop env order (new_order env order ua w)
              (new_transaction env order ua w)
              (match_order (working (started env order ua w))
                 (new_order env order ua w))
              (OrderCreate.amount order) (started env order ua w))
    as [[rem | e] w2] eqn:El.
  - exists (Ok rem), w2. split; [reflexivity |].
    unfold finished.
    destruct (0 <? rem) eqn:Er;
      unfold update_order, db_delete, db_commit, get_working, set_working, ret, bind,
        lift, OrderResponse_refreshed in H;
      simpl in H.
    + apply Z.ltb_lt in Er.
      destruct (OrderCreate.price order) eqn:Ep; inversion H; subst;
        first [ split; [left; split; [intros _; discriminate | reflexivity]
                       | reflexivity]
              | split; [right; eauto | reflexivity] ].
    + apply Z.ltb_ge in Er. inversion H; subst.
      split; [left; split; [intros Hlt; lia | reflexivity] | reflexivity].
  - exists (Raise e), w2. split; [reflexivity |].
    inversion H; subst. auto.
Qed.

Lemma get_db_inv {A} (handler : M A) w r w' :
  get_db handler w = (r, w') ->
  exists w1,
    handler (mkWorld (committed w) (committed w) (chain w) (clock w)) = (r, w1)
    /\ w' = mkWorld (committed w1) (committed w1) (chain w1) (clock w1).
Proof.
  unfold get_db. destruct (handler _) as [r1 w1] eqn:E. intros H.
  inversion H; subst. eauto.
Qed.

(** Every run of [cancel_order], as one expression. *)
Lemma cancel_order_eq env order_id w :
  cancel_order env order_id w =
  match find (fun o => Order.id o =? order_id) (orders (working w)) with
  | None =>
      (Raise (AttributeError "'NoneType' object has no attribute 'order_serial'"), w)
  | Some o =>
      match find (fun x => String.eqb (Transaction.order_serial x) (Order.order_serial o))
                 (transactions (working w)) with
      | None => (Raise (HTTPException 404 "Order not found"), w)
      | Some x =>
          if negb (cancellable (Transaction.status x)) then
            (Raise (HTTPException 400 "Order cannot be cancelled"), w)
          else
            match to_checksum_address env (Order.market_address o) with
            | Raise e => (Raise e, w)
            | Ok a =>
                match getMarketState env a with
                | Raise e => (Raise e, w)
                | Ok s =>
                    if String.eqb s "Active" then
                      let t :=
                        mkTables
                          (delete_row (Order.id o) (orders (working w)))
                          (set_row_transaction (Transaction.id x)
                             (fun y => Transaction.set_status y CANCELLED)
                             (transactions (working w))) in
                      (Ok (OrderResponse_of o (Order.amount o)),
                       mkWorld t t (chain w) (clock w))
                    else (Raise (HTTPException 400 "Market not in active phase"), w)
                end
            end
      end
  end.
Proof.
  unfold cancel_order, first_order, first_transaction, get_working, ret, raise, lift.
  unfold bind at 1 2. simpl.
  destruct (find _ (orders (working w))) as [o |]; [| reflexivity].
  unfold bind at 1 2. simpl.
  destruct (find _ (transactions (working w))) as [x |]; [| reflexivity].
  destruct (cancellable (Transaction.status x)); simpl; [| reflexivity].
  unfold bind at 1.
  destruct (to_checksum_address env (Order.market_address o)) as [a | e]; [| reflexivity].
  unfold bind at 1.
  destruct (getMarketState env a) as [s | e]; [| reflexivity].
  destruct (String.eqb s "Active"); reflexivity.
Qed.

(** The three ways a cancellation is refused before the market is asked:
    each leaves the world as it was. A missing order never reaches the
    test that would answer 404. *)
Lemma cancel_order_refusals env order_id w :
  match find (fun o => Order.id o =? order_id) (orders (working w)) with
  | None =>
      exists msg, cancel_order env order_id w = (Raise (AttributeError msg), w)
  | Some o =>
      match find (fun x => String.eqb (Transaction.order_serial x) (Order.order_serial o))
                 (transactions (working w)) with
      | None =>
          cancel_order env order_id w = (Raise (HTTPException 404 "Order not found"), w)
      | Some x =>
          cancellable (Transaction.status x) = false ->
          cancel_order env order_id w
          = (Raise (HTTPException 400 "Order cannot be cancelled"), w)
      end
  end.
Proof.
  rewrite cancel_order_eq.
  destruct (find _ (orders (working w))) as [o |]; [| eauto].
  destruct (find _ (transactions (working w))) as [x |]; [| reflexivity].
  intros Hc. rewrite Hc. reflexivity.
Qed.

(** ** Rejections *)

(** C8, as stated, fails when the oracle call itself fails: the exception
    is not caught, and the response is an internal server error, not a
    client error. *)
Lemma create_order_oracle_failure_is_server_error :
  create_order Sample.env_oracle_down Sample.buy10 Sample.w0
  = (Raise (ConnectionError "connection refused"), Sample.w0)
  /\ client_error (ConnectionError "connection refused") = false
  /\ response_status (ConnectionError "connection refused") = 500.
Proof. repeat split; reflexivity. Qed.

(** C8, amended: when the market state read is not "Active" the
    submission is rejected with the HTTP 400 "Market not in active phase",
    and when the oracle call raises, its exception leaves the handler as it
    is; in both cases the world is untouched: no row is added or changed,
    nothing is committed, no settlement call is made. *)
Theorem create_order_market_gate env order a w r w' :
  to_checksum_address env (OrderCreate.market_address order) = Ok a ->
  getMarketState env a <> Ok "Active" ->
  create_order env order w = (r, w') ->
  w' = w
  /\ match getMarketState env a with
     | Ok _ => r = Raise (HTTPException 400 "Market not in active phase")
               /\ client_error (HTTPException 400 "Market not in active phase") = true
     | Raise e => r = Raise e
     end.
Proof.
  intros Ha Hs H. apply create_order_inv in H.
  destruct H as [(Hw & e & Hr & Hrej) | (a' & ua & Ha' & Hact & _)].
  - split; [assumption |]. subst r.
    destruct Hrej as [Hrej | [(a' & Ha' & Hrej) | [(a' & s & Ha' & Hs' & Hne & He)
                                                  | (a' & Ha' & Hact & _)]]].
    + congruence.
    + assert (a' = a) by congruence. subst a'. rewrite Hrej. reflexivity.
    + assert (a' = a) by congruence. subst a'. rewrite Hs'. subst e. auto.
    + assert (a' = a) by congruence. subst a'. contradiction.
  - assert (a' = a) by congruence. subst a'. contradiction.
Qed.

(** A submission to a market read as Resolved. *)
Lemma create_order_market_gate_witness :
  snd (create_order Sample.env_resolved Sample.buy10 Sample.w0) = Sample.w0.
Proof.
  refine (proj1 (create_order_market_gate Sample.env_resolved Sample.buy10 "market"
                   Sample.w0 _ _ _ _ _)).
  - reflexivity.
  - vm_compute. discriminate.
  - apply surjective_pairing.
Defined.

(** C7 is not met when the order is missing: [db_order.order_serial] is
    read before the test for a missing order, so the request ends with an
    [AttributeError] and an internal server error, not with the 404. *)
Lemma cancel_missing_order_is_server_error :
  post_cancel Sample.env_ok 7 Sample.w0
  = (Raise (AttributeError "'NoneType' object has no attribute 'order_serial'"),
     Sample.w0)
  /\ response_status
       (AttributeError "'NoneType' object has no attribute 'order_serial'") = 500.
Proof. split; reflexivity. Qed.

(** ** A failed settlement *)

(** C1, as stated, fails: the first pair is settled on the chain, the
    second is reverted, and the request ends with a 400 while the committed
    tables are the ones before the request; no record shows the first
    fill. *)
Lemma create_order_failure_keeps_no_earlier_fill :
  let '(r, w') := post_orders Sample.env_second_reverts Sample.buy10 Sample.w0 in
  map snd (chain w') = [Receipt 1; Receipt 0]
  /\ (exists d, r = Raise (HTTPException 400 d))
  /\ committed w' = committed Sample.w0
  /\ In Sample.sell1 (orders (committed w'))
  /\ Forall (fun x => Transaction.deal_amount x = 0) (transactions (committed w')).
Proof.
  vm_compute. split; [reflexivity |]. split; [eexists; reflexivity |].
  split; [reflexivity |]. split; [left; reflexivity | repeat constructor].
Qed.

(** C1, amended: when a settlement call of the request fails (a
    reverted receipt or an exception), the request ends with an HTTP 400
    and nothing of the submission is committed: the committed tables are
    the ones before the request, the fills of the pairs settled earlier in
    the same submission included. *)
Theorem create_order_failure_commits_nothing env order w r w' calls :
  post_orders env order w = (r, w') ->
  chain w' = (chain w ++ calls)%list ->
  Exists (fun co => settled (snd co) = false) calls ->
  (exists d, r = Raise (HTTPException 400 d)
             /\ client_error (HTTPException 400 d) = true)
  /\ committed w' = committed w.
Proof.
  intros H Hch Hex. apply get_db_inv in H. destruct H as (w1 & H & Hw'). subst w'.
  simpl in *. apply create_order_inv in H.
  destruct H as [(Hw & e & Hr & _) | (a & ua & _ & _ & _ & H)].
  { subst w1. simpl in Hch. apply (f_equal (@List.length _)) in Hch.
    rewrite length_app in Hch. destruct calls; [inversion Hex | simpl in Hch; lia]. }
  cbv zeta in H. destruct H as [(_ & Hw & _) | (_ & r1 & w2 & Hloop & H)].
  { subst w1. simpl in Hch. apply (f_equal (@List.length _)) in Hch.
    rewrite length_app in Hch. destruct calls; [inversion Hex | simpl in Hch; lia]. }
  apply matching_loop_trace in Hloop.
  destruct Hloop as (Hc & calls' & Hch' & _ & Hr1). simpl in Hc, Hch'.
  assert (calls' = calls).
  { destruct r1; destruct H as (_ & Hw); subst w1; simpl in Hch;
      rewrite Hch' in Hch; apply app_inv_head in Hch; assumption. }
  subst calls'.
  destruct r1 as [rem | e].
  - exfalso. apply Exists_exists in Hex. destruct Hex as (co & Hin & Hco).
    rewrite Forall_forall in Hr1. rewrite (Hr1 co Hin) in Hco. discriminate.
  - destruct H as (Hr & Hw). subst w1 r. simpl.
    destruct Hr1 as ((d & Hd) & _). subst e. split; [eauto | assumption].
Qed.

(** The buy of 10 whose second settlement is reverted. *)
Lemma create_order_failure_commits_nothing_witness :
  committed (snd (post_orders Sample.env_second_reverts Sample.buy10 Sample.w0))
  = Sample.book.
Proof.
  refine (proj2 (create_order_failure_commits_nothing Sample.env_second_reverts
                   Sample.buy10 Sample.w0 _ _
                   (chain (snd (post_orders Sample.env_second_reverts Sample.buy10
                                  Sample.w0))) _ _ _)).
  - apply surjective_pairing.
  - vm_compute. reflexivity.
  - vm_compute. apply Exists_cons_tl. apply Exists_cons_hd. reflexivity.
Defined.

(** ** Rows and keys *)

Section Keyed.
Context {A : Type} (key : A -> Z).

Lemma find_split (p : A -> bool) l a :
  find p l = Some a -> exists l1 l2, l = (l1 ++ a :: l2)%list /\ p a = true.
Proof.
  induction l as [| b l IH]; simpl; [discriminate |].
  destruct (p b) eqn:E.
  - intros H; inversion H; subst. exists [], l. auto.
  - intros H. destruct (IH H) as (l1 & l2 & -> & Hp). exists (b :: l1), l2. auto.
Qed.

Lemma key_not_in_split l1 a l2 :
  NoDup (map key (l1 ++ a :: l2)) ->
  forall b, In b (l1 ++ l2) -> key b <> key a.
Proof.
  rewrite map_app. simpl. intros H b Hb Heq.
  apply NoDup_remove_2 in H. apply H. rewrite <- map_app, <- Heq.
  apply in_map. assumption.
Qed.

Lemma set_row_split (f : A -> A) l1 a l2 :
  NoDup (map key (l1 ++ a :: l2)) ->
  map (fun b => if key b =? key a then f b else b) (l1 ++ a :: l2)
  = (l1 ++ f a :: l2)%list.
Proof.
  intros H. pose proof (key_not_in_split _ _ _ H) as Hne.
  rewrite map_app. simpl. rewrite Z.eqb_refl. f_equal; [| f_equal].
  - rewrite <- (map_id l1) at 2. apply map_ext_in. intros b Hb.
    destruct (key b =? key a) eqn:E; [| reflexivity].
    apply Z.eqb_eq in E. exfalso. apply (Hne b); [apply in_or_app |]; auto.
  - rewrite <- (map_id l2) at 2. apply map_ext_in. intros b Hb.
    destruct (key b =? key a) eqn:E; [| reflexivity].
    apply Z.eqb_eq in E. exfalso. apply (Hne b); [apply in_or_app |]; auto.
Qed.

Lemma filter_all (p : A -> bool) l :
  (forall b, In b l -> p b = true) -> filter p l = l.
Proof.
  induction l as [| b l IH]; simpl; intros H; [reflexivity |].
  rewrite (H b) by auto. f_equal. apply IH. auto.
Qed.

Lemma delete_row_split l1 a l2 :
  NoDup (map key (l1 ++ a :: l2)) ->
  filter (fun b => negb (key b =? key a)) (l1 ++ a :: l2) = (l1 ++ l2)%list.
Proof.
  intros H. pose proof (key_not_in_split _ _ _ H) as Hne.
  rewrite filter_app. simpl. rewrite Z.eqb_refl. simpl. f_equal.
  - apply filter_all. intros b Hb. apply negb_true_iff, Z.eqb_neq.
    apply Hne, in_or_app. auto.
  - apply filter_all. intros b Hb. apply negb_true_iff, Z.eqb_neq.
    apply Hne, in_or_app. auto.
Qed.
End Keyed.

(** ** Cancellation *)

(** C10: a successful cancellation removes the one order row with the
    given key and changes, in the one transaction record of that order,
    the status and nothing else; every other row of both tables is where it
    was and as it was, and no settlement call is made. *)
Theorem cancel_order_frame env order_id w resp w' :
  NoDup (map Order.id (orders (committed w))) ->
  NoDup (map Transaction.id (transactions (committed w))) ->
  post_cancel env order_id w = (Ok resp, w') ->
  exists o x os1 os2 xs1 xs2,
    Order.id o = order_id
    /\ Transaction.order_serial x = Order.order_serial o
    /\ orders (committed w) = (os1 ++ o :: os2)%list
    /\ orders (committed w') = (os1 ++ os2)%list
    /\ transactions (committed w) = (xs1 ++ x :: xs2)%list
    /\ transactions (committed w')
       = (xs1
          ++ Transaction.mk (Transaction.id x) (Transaction.order_serial x)
               (Transaction.user_address x) (Transaction.market_address x)
               (Transaction.outcome x) (Transaction.side x)
               (Transaction.deal_amount x) (Transaction.remaining_amount x)
               (Transaction.price x) CANCELLED
               (Transaction.created_at x) (Transaction.dealt_at x)
          :: xs2)%list
    /\ chain w' = chain w.
Proof.
  intros Ho Hx H. apply get_db_inv in H. destruct H as (w1 & H & Hw'). subst w'.
  rewrite cancel_order_eq in H. simpl in H.
  destruct (find _ (orders (committed w))) as [o |] eqn:Efo; [| discriminate].
  destruct (find _ (transactions (committed w))) as [x |] eqn:Efx; [| discriminate].
  destruct (negb (cancellable (Transaction.status x))); [discriminate |].
  destruct (to_checksum_address env (Order.market_address o)) as [a | e]; [| discriminate].
  destruct (getMarketState env a) as [s | e]; [| discriminate].
  destruct (String.eqb s "Active"); [| discriminate].
  inversion H; subst. clear H. simpl.
  apply find_split in Efo. destruct Efo as (os1 & os2 & Eo & Hido).
  apply find_split in Efx. destruct Efx as (xs1 & xs2 & Ex & Hsx).
  apply Z.eqb_eq in Hido. apply String.eqb_eq in Hsx.
  exists o, x, os1, os2, xs1, xs2.
  rewrite Eo in Ho. rewrite Ex in Hx.
  repeat split; auto.
  - rewrite Eo. unfold delete_row. apply (delete_row_split Order.id). assumption.
  - rewrite Ex. unfold set_row_transaction.
    apply (set_row_split Transaction.id (fun y => Transaction.set_status y CANCELLED)).
    assumption.
Qed.

(** The cancellation of the first resting sell. *)
Lemma cancel_order_frame_witness :
  exists o x os1 os2 xs1 xs2,
    Order.id o = 1
    /\ Transaction.order_serial x = Order.order_serial o
    /\ orders Sample.book = (os1 ++ o :: os2)%list
    /\ orders (committed (snd (post_cancel Sample.env_ok 1 Sample.w0)))
       = (os1 ++ os2)%list
    /\ transactions Sample.book = (xs1 ++ x :: xs2)%list
    /\ transactions (committed (snd (post_cancel Sample.env_ok 1 Sample.w0)))
       = (xs1
          ++ Transaction.mk (Transaction.id x) (Transaction.order_serial x)
               (Transaction.user_address x) (Transaction.market_address x)
               (Transaction.outcome x) (Transaction.side x)
               (Transaction.deal_amount x) (Transaction.remaining_amount x)
               (Transaction.price x) CANCELLED
               (Transaction.created_at x) (Transaction.dealt_at x)
          :: xs2)%list
    /\ chain (snd (post_cancel Sample.env_ok 1 Sample.w0)) = chain Sample.w0.
Proof.
  refine (cancel_order_frame Sample.env_ok 1 Sample.w0
            (OrderResponse_of Sample.sell1 5) _ _ _ _).
  - vm_compute. repeat constructor; simpl; intuition discriminate.
  - vm_compute. repeat constructor; simpl; intuition discriminate.
  - vm_compute. reflexivity.
Defined.

(** ** Fill accounting *)

Lemma Forall2_same_total_refl l : Forall2 same_total l l.
Proof. induction l; constructor; auto. split; reflexivity. Qed.

Lemma Forall2_same_total_trans l1 l2 l3 :
  Forall2 same_total l1 l2 -> Forall2 same_total l2 l3 -> Forall2 same_total l1 l3.
Proof.
  intros H. revert l3. induction H as [| x y l1 l2 Hxy _ IH]; intros l3 H3.
  - inversion H3. constructor.
  - inversion H3 as [| y' z l2' l3' Hyz H3']; subst. constructor; auto.
    destruct Hxy, Hyz. split; congruence.
Qed.

Lemma fill_same_total m p now x : same_total x (fill m p now x).
Proof. unfold same_total, total, fill. simpl. split; [reflexivity | lia]. Qed.

Lemma set_row_fill_same_total k m p now l :
  Forall2 same_total l (set_row_transaction k (fill m p now) l).
Proof.
  induction l as [| x l IH]; simpl; constructor; auto.
  destruct (Transaction.id x =? k).
  - apply fill_same_total.
  - split; reflexivity.
Qed.

Lemma transactions_filled_tables i j m k rem now t :
  transactions (filled_tables i j m k rem now t)
  = set_row_transaction k
      (fill (Z.min rem (Order.amount m)) (Order.price m)
         (second_reading j (Z.min rem (Order.amount m)) now t))
      (set_row_transaction j
         (fill (Z.min rem (Order.amount m)) (Order.price m) now) (transactions t)).
Proof. reflexivity. Qed.

Lemma transactions_finished o rem t :
  transactions (finished o rem t) = transactions t.
Proof. unfold finished. destruct (0 <? rem); reflexivity. Qed.

(** Every record of the committed table keeps its sum through a
    submission, whatever its result, and the record a submission adds has
    the amount of the order as its sum. *)
Lemma post_orders_same_total env order w r w' :
  post_orders env order w = (r, w') ->
  Forall2 same_total (transactions (committed w)) (transactions (committed w'))
  \/ exists xs' x',
      transactions (committed w') = (xs' ++ [x'])%list
      /\ Forall2 same_total (transactions (committed w)) xs'
      /\ total x' = OrderCreate.amount order.
Proof.
  intros H. apply get_db_inv in H. destruct H as (w1 & H & Hw').
  subst w'. simpl. apply create_order_inv in H.
  destruct H as [(Hw & _) | (a & ua & _ & _ & _ & H)].
  { subst w1. left. apply Forall2_same_total_refl. }
  cbv zeta in H. destruct H as [(_ & Hw & _) | (_ & r1 & w2 & Hloop & H)].
  { subst w1. left. apply Forall2_same_total_refl. }
  destruct r1 as [rem | e].
  2:{ destruct H as (_ & Hw). subst w1. simpl.
      apply matching_loop_trace in Hloop. destruct Hloop as (Hc & _).
      rewrite Hc. left. apply Forall2_same_total_refl. }
  destruct H as (_ & Hw). subst w1. simpl. right.
  set (w1 := started env order ua _) in *.
  assert (HI : Forall2 same_total (transactions (working w1))
                 (transactions (working w2))).
  { eapply (matching_loop_rule env order _ _
              (fun _ _ w => Forall2 same_total (transactions (working w1))
                              (transactions (working w)))) in Hloop.
    - destruct Hloop as (l' & HI & _). exact HI.
    - intros m rest rem0 mt w0 rem' w0' HI0 _ _ Hs.
      apply settle_pair_inv in Hs. destruct Hs as (_ & Hs).
      destruct Hs as [(_ & _ & _ & e & He) | (c & _ & _ & Hs)]; [discriminate |].
      destruct Hs as [(_ & _ & _ & e & He) | (_ & _ & _ & Hwk)]; [discriminate |].
      rewrite Hwk, transactions_filled_tables.
      eapply Forall2_same_total_trans; [exact HI0 |].
      eapply Forall2_same_total_trans; apply set_row_fill_same_total.
    - apply Forall2_same_total_refl. }
  rewrite transactions_finished.
  unfold w1 in HI. simpl in HI.
  apply Forall2_app_inv_l in HI. destruct HI as (xs' & l2 & Hxs & Hnew & Heq).
  inversion Hnew as [| x0 x' l0 l0' Hx' Hnil]; subst. inversion Hnil; subst.
  exists xs', x'. repeat split; auto.
  destruct Hx' as (_ & Ht). rewrite Ht. unfold total. simpl. lia.
Qed.

(** A cancellation, whatever its result, changes neither field of any
    record. *)
Lemma post_cancel_same_amounts env order_id w r w' :
  post_cancel env order_id w = (r, w') ->
  Forall2 (fun x x' =>
             Transaction.id x' = Transaction.id x
             /\ Transaction.deal_amount x' = Transaction.deal_amount x
             /\ Transaction.remaining_amount x' = Transaction.remaining_amount x)
    (transactions (committed w)) (transactions (committed w')).
Proof.
  intros H. apply get_db_inv in H. destruct H as (w1 & H & Hw').
  subst w'. rewrite cancel_order_eq in H. simpl in H.
  assert (Hrefl : forall l : list Transaction.t,
             Forall2 (fun x x' =>
                  Transaction.id x' = Transaction.id x
                  /\ Transaction.deal_amount x' = Transaction.deal_amount x
                  /\ Transaction.remaining_amount x' = Transaction.remaining_amount x)
               l l).
  { induction l; constructor; auto. }
  destruct (find _ (orders (committed w))) as [o |];
    [| inversion H; subst; apply Hrefl].
  destruct (find _ (transactions (committed w))) as [x |];
    [| inversion H; subst; apply Hrefl].
  destruct (negb (cancellable (Transaction.status x)));
    [inversion H; subst; apply Hrefl |].
  destruct (to_checksum_address env (Order.market_address o)) as [a | e];
    [| inversion H; subst; apply Hrefl].
  destruct (getMarketState env a) as [s | e];
    [| inversion H; subst; apply Hrefl].
  destruct (String.eqb s "Active");
    [| inversion H; subst; apply Hrefl].
  inversion H; subst. simpl. clear.
  induction (transactions (committed w)) as [| y l IH]; simpl; constructor; auto.
  destruct (Transaction.id y =? Transaction.id x); simpl; auto.
Qed.

(** ** The order on prices *)

Lemma float_le_finite_pos m1 e1 m2 e2 :
  float_le (S754_finite false m1 e1) (S754_finite false m2 e2) = true
  <-> e1 < e2 \/ (e1 = e2 /\ (m1 <= m2)%positive).
Proof.
  unfold float_le, SFleb, SFcompare.
  change (Pos.compare_cont Eq m1 m2) with (Pos.compare m1 m2).
  destruct (Z.compare_spec e1 e2); destruct (Pos.compare_spec m1 m2);
    split; intros; try discriminate; try reflexivity; try lia.
Qed.

Lemma float_le_finite_neg m1 e1 m2 e2 :
  float_le (S754_finite true m1 e1) (S754_finite true m2 e2) = true
  <-> e2 < e1 \/ (e1 = e2 /\ (m2 <= m1)%positive).
Proof.
  unfold float_le, SFleb, SFcompare.
  change (Pos.compare_cont Eq m1 m2) with (Pos.compare m1 m2).
  destruct (Z.compare_spec e1 e2); destruct (Pos.compare_spec m1 m2);
    simpl; split; intros; try discriminate; try reflexivity; try lia.
Qed.

Lemma float_le_trans a b c :
  float_le a b = true -> float_le b c = true -> float_le a c = true.
Proof.
  destruct a as [sa | sa | | sa ma ea], b as [sb | sb | | sb mb eb],
    c as [sc | sc | | sc mc ec];
    try destruct sa; try destruct sb; try destruct sc;
    try (intros; reflexivity); try (intros; discriminate).
  - rewrite !float_le_finite_neg. lia.
  - rewrite !float_le_finite_pos. lia.
Qed.

Lemma float_le_ordered_l a b : float_le a b = true -> ordered a = true.
Proof.
  unfold ordered.
  destruct a as [sa | sa | | sa ma ea], b as [sb | sb | | sb mb eb];
    try destruct sa; try destruct sb;
    try (intros; reflexivity); try (intros; discriminate); intros _;
    first [apply float_le_finite_neg; lia | apply float_le_finite_pos; lia].
Qed.

Lemma float_le_ordered_r a b : float_le a b = true -> ordered b = true.
Proof.
  unfold ordered.
  destruct a as [sa | sa | | sa ma ea], b as [sb | sb | | sb mb eb];
    try destruct sa; try destruct sb;
    try (intros; reflexivity); try (intros; discriminate); intros _;
    first [apply float_le_finite_neg; lia | apply float_le_finite_pos; lia].
Qed.

Lemma float_le_total a b :
  ordered a = true -> ordered b = true ->
  float_le a b = true \/ float_le b a = true.
Proof.
  unfold ordered.
  destruct a as [sa | sa | | sa ma ea], b as [sb | sb | | sb mb eb];
    try destruct sa; try destruct sb;
    try (intros; left; reflexivity); try (intros; right; reflexivity);
    try (intros; discriminate); intros _ _.
  - rewrite !float_le_finite_neg. lia.
  - rewrite !float_le_finite_pos. lia.
Qed.

(** ** The rows [match_order] returns *)

Section OrderBy.
Variable le : Order.t -> Order.t -> bool.

Lemma insert_by_perm x l : Permutation (insert_by le x l) (x :: l).
Proof.
  induction l as [| y l IH]; simpl; [apply Permutation_refl |].
  destruct (le x y); [apply Permutation_refl |].
  eapply perm_trans; [apply perm_skip, IH | apply perm_swap].
Qed.

Lemma order_by_perm l : Permutation (order_by le l) l.
Proof.
  induction l as [| x l IH]; simpl; [constructor |].
  eapply perm_trans; [apply insert_by_perm | apply perm_skip, IH].
Qed.

Hypothesis le_trans : forall a b c, le a b = true -> le b c = true -> le a c = true.

Lemma insert_by_sorted x l :
  (forall y, In y l -> le x y = true \/ le y x = true) ->
  StronglySorted (fun a b => le a b = true) l ->
  StronglySorted (fun a b => le a b = true) (insert_by le x l).
Proof.
  induction l as [| y l IH]; simpl; intros Htot Hs.
  - constructor; constructor.
  - apply StronglySorted_inv in Hs. destruct Hs as (Hs & Hy).
    destruct (le x y) eqn:E.
    + constructor; [constructor; assumption |].
      constructor; [assumption |].
      eapply Forall_impl; [| exact Hy]. intros z Hz. eapply le_trans; eauto.
    + constructor; [apply IH; auto |].
      assert (Hyx : le y x = true).
      { destruct (Htot y) as [H | H]; auto. congruence. }
      rewrite Forall_forall in *. intros z Hz.
      apply (Permutation_in _ (insert_by_perm x l)) in Hz.
      destruct Hz as [<- | Hz]; auto.
Qed.

Lemma order_by_sorted l :
  (forall a b, In a l -> In b l -> le a b = true \/ le b a = true) ->
  StronglySorted (fun a b => le a b = true) (order_by le l).
Proof.
  induction l as [| x l IH]; simpl; intros Htot; [constructor |].
  apply insert_by_sorted.
  - intros y Hy. apply (Permutation_in _ (order_by_perm l)) in Hy. auto.
  - apply IH. auto.
Qed.
End OrderBy.

Lemma eligible_iff new_order opposite_side o :
  eligible new_order opposite_side o = true
  <-> resting_match new_order opposite_side o.
Proof.
  unfold eligible, resting_match.
  rewrite !andb_true_iff, !String.eqb_eq, Z.ltb_lt. tauto.
Qed.

Lemma match_order_buy db new_order :
  0 < Order.amount new_order -> Order.side new_order = "buy" ->
  match_order db new_order
  = order_by price_asc
      (filter (fun o => float_le (Order.price o) (Order.price new_order))
         (filter (eligible new_order "sell") (orders db))).
Proof.
  intros Ha Hs. unfold match_order.
  destruct (Order.amount new_order <=? 0) eqn:E; [lia |].
  rewrite Hs. reflexivity.
Qed.

Lemma match_order_sell db new_order :
  0 < Order.amount new_order -> Order.side new_order = "sell" ->
  match_order db new_order
  = order_by price_desc
      (filter (fun o => float_le (Order.price new_order) (Order.price o))
         (filter (eligible new_order "buy") (orders db))).
Proof.
  intros Ha Hs. unfold match_order.
  destruct (Order.amount new_order <=? 0) eqn:E; [lia |].
  rewrite Hs. reflexivity.
Qed.

Lemma filter_filter {A} (p q : A -> bool) l :
  filter q (filter p l) = filter (fun a => p a && q a) l.
Proof.
  induction l as [| a l IH]; simpl; [reflexivity |].
  destruct (p a); simpl; [destruct (q a) |]; rewrite IH; reflexivity.
Qed.

(** Whatever the incoming order, a candidate is a row of the table, on the
    other side, within the price bound. *)
Lemma match_order_In db new_order m :
  In m (match_order db new_order) ->
  In m (orders db)
  /\ 0 < Order.amount new_order
  /\ if String.eqb (Order.side new_order) "buy"
     then resting_match new_order "sell" m
          /\ float_le (Order.price m) (Order.price new_order) = true
     else resting_match new_order "buy" m
          /\ float_le (Order.price new_order) (Order.price m) = true.
Proof.
  unfold match_order.
  destruct (Order.amount new_order <=? 0) eqn:E; [intros [] |].
  apply Z.leb_gt in E.
  destruct (String.eqb (Order.side new_order) "buy"); intros H;
    apply (Permutation_in _ (order_by_perm _ _)) in H;
    apply filter_In in H; destruct H as (H & Hp);
    apply filter_In in H; destruct H as (H & He);
    apply eligible_iff in He; auto.
Qed.

(** ** The settlement calls of a submission *)

Lemma no_new_calls {A} (l calls : list A) : l = (l ++ calls)%list -> calls = [].
Proof.
  intros H. rewrite <- (app_nil_r l) in H at 1. apply app_inv_head in H. auto.
Qed.

(** Every call a submission logs was built by [settle_pair] for a row of
    the committed [orders] table that is on the other side and within the
    price bound of the incoming order. *)
Lemma post_orders_calls env order w r w' calls :
  post_orders env order w = (r, w') ->
  chain w' = (chain w ++ calls)%list ->
  Forall (fun co =>
            exists m db_order rem,
              In m (orders (committed w))
              /\ Order.side db_order = OrderCreate.side order
              /\ call_for env order db_order m rem (fst co)
              /\ if String.eqb (OrderCreate.side order) "buy"
                 then Order.side m = "sell"
                      /\ float_le (Order.price m) (OrderCreate.price order) = true
                 else Order.side m = "buy"
                      /\ float_le (OrderCreate.price order) (Order.price m) = true)
    calls.
Proof.
  intros H Hch. apply get_db_inv in H. destruct H as (w1 & H & Hw'). subst w'.
  simpl in Hch. apply create_order_inv in H.
  destruct H as [(Hw & _) | (a & ua & _ & _ & _ & H)].
  { subst w1. simpl in Hch. apply no_new_calls in Hch. subst. constructor. }
  cbv zeta in H. destruct H as [(_ & Hw & _) | (_ & r1 & w2 & Hloop & H)].
  { subst w1. simpl in Hch. apply no_new_calls in Hch. subst. constructor. }
  apply matching_loop_trace in Hloop.
  destruct Hloop as (_ & calls' & Hch' & Hfor & _). simpl in Hch'.
  assert (calls' = calls).
  { destruct r1; destruct H as (_ & Hw); subst w1; simpl in Hch;
      rewrite Hch' in Hch; apply app_inv_head in Hch; assumption. }
  subst calls'. clear H Hch Hch'.
  eapply Forall_impl; [| exact Hfor]. simpl.
  intros co (m & rem0 & Hin & Hcall).
  exists m, (new_order env order ua
               (mkWorld (committed w) (committed w) (chain w) (clock w))), rem0.
  apply match_order_In in Hin. simpl in Hin. destruct Hin as (Hin & _ & Hm).
  assert (Hside : if String.eqb (OrderCreate.side order) "buy"
                  then Order.side m = "sell"
                       /\ float_le (Order.price m) (OrderCreate.price order) = true
                  else Order.side m = "buy"
                       /\ float_le (OrderCreate.price order) (Order.price m) = true).
  { destruct (String.eqb (OrderCreate.side order) "buy");
      destruct Hm as ((_ & _ & Hs & _) & Hp); auto. }
  split; [| split; [reflexivity | split; [exact Hcall | exact Hside]]].
  apply in_app_or in Hin. destruct Hin as [Hin | [<- | []]]; [assumption |].
  exfalso. simpl in Hside.
  destruct (String.eqb (OrderCreate.side order) "buy") eqn:E; destruct Hside as (Hs & _).
  - apply String.eqb_eq in E. congruence.
  - rewrite Hs in E. discriminate.
Qed.

(** The same, with the incoming order the calls were built for. *)
Lemma post_orders_calls_for env order w r w' calls :
  post_orders env order w = (r, w') ->
  chain w' = (chain w ++ calls)%list ->
  Forall (fun co =>
            exists m ua rem,
              to_checksum_address env (OrderCreate.user_address order) = Ok ua
              /\ In m (orders (committed w))
              /\ call_for env order (new_order env order ua (session w)) m rem (fst co)
              /\ if String.eqb (OrderCreate.side order) "buy"
                 then Order.side m = "sell"
                      /\ float_le (Order.price m) (OrderCreate.price order) = true
                 else Order.side m = "buy"
                      /\ float_le (OrderCreate.price order) (Order.price m) = true)
    calls.
Proof.
  intros H Hch. apply get_db_inv in H. destruct H as (w1 & H & Hw'). subst w'.
  simpl in Hch. apply create_order_inv in H.
  destruct H as [(Hw & _) | (a & ua & _ & _ & Hua & H)].
  { subst w1. simpl in Hch. apply no_new_calls in Hch. subst. constructor. }
  cbv zeta in H. destruct H as [(_ & Hw & _) | (_ & r1 & w2 & Hloop & H)].
  { subst w1. simpl in Hch. apply no_new_calls in Hch. subst. constructor. }
  apply matching_loop_trace in Hloop.
  destruct Hloop as (_ & calls' & Hch' & Hfor & _). simpl in Hch'.
  assert (calls' = calls).
  { destruct r1; destruct H as (_ & Hw); subst w1; simpl in Hch;
      rewrite Hch' in Hch; apply app_inv_head in Hch; assumption. }
  subst calls'. clear H Hch Hch'.
  eapply Forall_impl; [| exact Hfor]. simpl.
  intros co (m & rem0 & Hin & Hcall).
  exists m, ua, rem0.
  apply match_order_In in Hin. simpl in Hin. destruct Hin as (Hin & _ & Hm).
  assert (Hside : if String.eqb (OrderCreate.side order) "buy"
                  then Order.side m = "sell"
                       /\ float_le (Order.price m) (OrderCreate.price order) = true
                  else Order.side m = "buy"
                       /\ float_le (OrderCreate.price order) (Order.price m) = true).
  { destruct (String.eqb (OrderCreate.side order) "buy");
      destruct Hm as ((_ & _ & Hs & _) & Hp); auto. }
  split; [exact Hua |]. split; [| split; [exact Hcall | exact Hside]].
  apply in_app_or in Hin. destruct Hin as [Hin | [<- | []]]; [assumption |].
  exfalso. simpl in Hside.
  destruct (String.eqb (OrderCreate.side order) "buy") eqn:E; destruct Hside as (Hs & _).
  - apply String.eqb_eq in E. congruence.
  - rewrite Hs in E. discriminate.
Qed.

(** C3, as stated for every incoming order, fails on the guard of
    [match_order]: for an incoming buy of amount 0 both resting sells
    satisfy every condition of the query and nothing is returned. *)
Lemma match_order_zero_amount_returns_nothing :
  let new_order :=
    Order.mk 3 "serial-3" "bob" "market" "yes" Sample.p060 0 "buy" "Active" 100 in
  match_order Sample.book new_order = []
  /\ filter (fun o => eligible new_order "sell" o
                      && float_le (Order.price o) (Order.price new_order))
       (orders Sample.book)
     = [Sample.sell1; Sample.sell2].
Proof. split; vm_compute; reflexivity. Qed.

(** For an incoming order with [amount > 0], the rows [match_order]
    returns: the query, in the order of the price. *)
Lemma match_order_exact db new_order :
  0 < Order.amount new_order ->
  (Order.side new_order = "buy" ->
   Permutation (match_order db new_order)
     (filter (fun o => eligible new_order "sell" o
                       && float_le (Order.price o) (Order.price new_order))
        (orders db))
   /\ (forall o, In o (match_order db new_order)
                 <-> In o (orders db) /\ resting_match new_order "sell" o
                     /\ float_le (Order.price o) (Order.price new_order) = true)
   /\ StronglySorted
        (fun a b => float_le (Order.price a) (Order.price b) = true)
        (match_order db new_order))
  /\ (Order.side new_order = "sell" ->
      Permutation (match_order db new_order)
        (filter (fun o => eligible new_order "buy" o
                          && float_le (Order.price new_order) (Order.price o))
           (orders db))
      /\ (forall o, In o (match_order db new_order)
                    <-> In o (orders db) /\ resting_match new_order "buy" o
                        /\ float_le (Order.price new_order) (Order.price o) = true)
      /\ StronglySorted
           (fun a b => float_le (Order.price b) (Order.price a) = true)
           (match_order db new_order)).
Proof.
  intros Ha. split; intros Hs.
  - rewrite (match_order_buy db new_order Ha Hs), filter_filter.
    split; [apply order_by_perm | split].
    + intros o. split.
      * intros H. apply (Permutation_in _ (order_by_perm _ _)) in H.
         apply filter_In in H. destruct H as (H & Hp).
         apply andb_true_iff in Hp. destruct Hp as (He & Hp).
         apply eligible_iff in He. auto.
      * intros (H & He & Hp).
         apply (Permutation_in _ (Permutation_sym (order_by_perm _ _))).
         apply filter_In. split; [assumption |].
         apply andb_true_iff. split; [apply eligible_iff |]; assumption.
    + apply (order_by_sorted price_asc).
      * unfold price_asc. intros a b c. apply float_le_trans.
      * intros a b Hin Hin'. unfold price_asc.
         apply filter_In in Hin, Hin'.
         destruct Hin as (_ & Hp), Hin' as (_ & Hp').
         apply andb_true_iff in Hp, Hp'.
         apply float_le_total; eapply float_le_ordered_l;
           [apply (proj2 Hp) | apply (proj2 Hp')].
  - rewrite (match_order_sell db new_order Ha Hs), filter_filter.
    split; [apply order_by_perm | split].
    + intros o. split.
      * intros H. apply (Permutation_in _ (order_by_perm _ _)) in H.
         apply filter_In in H. destruct H as (H & Hp).
         apply andb_true_iff in Hp. destruct Hp as (He & Hp).
         apply eligible_iff in He. auto.
      * intros (H & He & Hp).
         apply (Permutation_in _ (Permutation_sym (order_by_perm _ _))).
         apply filter_In. split; [assumption |].
         apply andb_true_iff. split; [apply eligible_iff |]; assumption.
    + apply (order_by_sorted price_desc).
      * unfold price_desc. intros a b c H1 H2. eapply float_le_trans; eauto.
      * intros a b Hin Hin'. unfold price_desc.
         apply filter_In in Hin, Hin'.
         destruct Hin as (_ & Hp), Hin' as (_ & Hp').
         apply andb_true_iff in Hp, Hp'.
         apply float_le_total; eapply float_le_ordered_r;
           [apply (proj2 Hp') | apply (proj2 Hp)].
Qed.

(** ** The fill price *)

Lemma settle_pair_ok env order db_order db_transaction matched_order
      matched_transaction rem w rem' w' :
  settle_pair env order db_order db_transaction matched_order
    matched_transaction rem w = (Ok rem', w') ->
  exists c,
    chain w' = (chain w ++ [(c, transferShares env (List.length (chain w)) c)])%list
    /\ call_for env order db_order matched_order rem c
    /\ settled (transferShares env (List.length (chain w)) c) = true
    /\ rem' = rem - Z.min rem (Order.amount matched_order)
    /\ committed w' = committed w
    /\ working w' =
       filled_tables (Order.id db_order) (Transaction.id db_transaction)
         matched_order (Transaction.id matched_transaction) rem (clock w) (working w).
Proof.
  intros H. apply settle_pair_inv in H. destruct H as (Hc & H).
  destruct H as [(_ & _ & _ & e & He) | (c & Hch & Hcall & H)]; [discriminate |].
  destruct H as [(_ & _ & _ & e & He) | (Hs & Hr & _ & Hwk)]; [discriminate |].
  exists c. inversion Hr; subst. auto 10.
Qed.

(** C2: an allocation calls the contract with the fixed-point form of the
    candidate's price and leaves that price on the record of the incoming
    order and on the record of the candidate, the other records being as
    they were; and every call a submission logs carries the price of a
    committed row of the other side, never one read from the incoming
    order. *)
Theorem settlement_at_maker_price env order :
  (forall db_order db_transaction matched_order matched_transaction rem w rem' w',
      settle_pair env order db_order db_transaction matched_order
        matched_transaction rem w = (Ok rem', w') ->
      (exists c,
          chain w' = (chain w ++ [(c, transferShares env (List.length (chain w)) c)])%list
          /\ price_fixed_point (Order.price matched_order) = Ok (price_fixed c))
      /\ Forall2
           (fun x x' =>
              Transaction.id x' = Transaction.id x
              /\ if (Transaction.id x =? Transaction.id db_transaction)
                    || (Transaction.id x =? Transaction.id matched_transaction)
                 then Transaction.price x' = Order.price matched_order
                 else x' = x)
           (transactions (working w)) (transactions (working w')))
  /\ (forall w r w' calls,
         post_orders env order w = (r, w') ->
         chain w' = (chain w ++ calls)%list ->
         Forall (fun co =>
                   exists m,
                     In m (orders (committed w))
                     /\ Order.side m <> OrderCreate.side order
                     /\ price_fixed_point (Order.price m) = Ok (price_fixed (fst co)))
           calls).
Proof.
  split.
  - intros db_order db_transaction matched_order matched_transaction rem w rem' w' H.
    apply settle_pair_ok in H.
    destruct H as (c & Hch & Hcall & _ & _ & _ & Hwk). split.
    + exists c. split; [assumption |]. apply Hcall.
    + rewrite Hwk, transactions_filled_tables. unfold set_row_transaction.
      induction (transactions (working w)) as [| x l IH]; simpl; constructor; auto.
      destruct (Transaction.id x =? Transaction.id db_transaction) eqn:Ej; simpl.
      * destruct (Transaction.id x =? Transaction.id matched_transaction);
          simpl; auto.
      * destruct (Transaction.id x =? Transaction.id matched_transaction);
          simpl; auto.
  - intros w r w' calls H Hch.
    eapply Forall_impl; [| exact (post_orders_calls env order w r w' calls H Hch)].
    simpl. intros co (m & db_order & rem & Hin & _ & Hcall & Hb).
    exists m. split; [assumption |]. split; [| apply Hcall].
    destruct (String.eqb (OrderCreate.side order) "buy") eqn:E;
      destruct Hb as (Hs & _); intros Heq; rewrite <- Heq, Hs in E; discriminate.
Qed.

(** ** The fixed-point form of a price *)

Lemma iter_pos_nat {A} (f : A -> A) p :
  forall x, iter_pos f p x = Nat.iter (Pos.to_nat p) f x.
Proof.
  induction p as [p IH | p IH |]; intros x; simpl iter_pos.
  - rewrite !IH, Pos2Nat.inj_xI, Nat.iter_succ_r.
    replace (2 * Pos.to_nat p)%nat with (Pos.to_nat p + Pos.to_nat p)%nat by lia.
    rewrite Nat.iter_add. reflexivity.
  - rewrite !IH, Pos2Nat.inj_xO.
    replace (2 * Pos.to_nat p)%nat with (Pos.to_nat p + Pos.to_nat p)%nat by lia.
    rewrite Nat.iter_add. reflexivity.
  - reflexivity.
Qed.

Lemma shr_1_zeros n m :
  Nat.iter n shr_1 (Build_shr_record (Zpos (Nat.iter n xO m)) false false)
  = Build_shr_record (Zpos m) false false.
Proof.
  induction n as [| n IH]; [reflexivity |].
  rewrite Nat.iter_succ_r. simpl. exact IH.
Qed.

Lemma digits2_zeros n m :
  Zpos (digits2_pos (Nat.iter n xO m)) = Zpos (digits2_pos m) + Z.of_nat n.
Proof.
  induction n as [| n IH]; [simpl; lia |].
  change (Nat.iter (S n) xO m) with (xO (Nat.iter n xO m)).
  simpl digits2_pos. rewrite Pos2Z.inj_succ, IH. lia.
Qed.

(** The right shift of the rounding drops zero bits only. *)
Lemma shr_fexp_zeros m p E :
  Zpos (digits2_pos m) = 53 -> -1074 <= E + Zpos p ->
  shr_fexp prec emax (Zpos (Pos.iter xO m p)) E loc_Exact
  = (Build_shr_record (Zpos m) false false, E + Zpos p).
Proof.
  intros Hd HE. unfold shr_fexp, Zdigits2, fexp, emin, shr_record_of_loc.
  rewrite Pos2Nat.inj_iter. change (nat_rect _ m (fun _ => xO) (Pos.to_nat p))
    with (Nat.iter (Pos.to_nat p) xO m).
  rewrite digits2_zeros, Hd, positive_nat_Z.
  replace (Z.max (53 + Zpos p + E - prec) (3 - emax - prec) - E) with (Zpos p)
    by (unfold prec, emax; lia).
  unfold shr. rewrite iter_pos_nat, shr_1_zeros. reflexivity.
Qed.

Lemma shr_fexp_none m E :
  Zpos (digits2_pos m) = 53 -> -1074 <= E ->
  shr_fexp prec emax (Zpos m) E loc_Exact
  = (Build_shr_record (Zpos m) false false, E).
Proof.
  intros Hd HE. unfold shr_fexp, Zdigits2, fexp, emin, shr_record_of_loc.
  rewrite Hd.
  replace (Z.max (53 + E - prec) (3 - emax - prec) - E) with 0
    by (unfold prec, emax; lia).
  reflexivity.
Qed.

Lemma float_of_int_ten18 :
  float_of_int (10 ^ 18) = S754_finite false 7812500000000000 7.
Proof. vm_compute. reflexivity. Qed.

(** When the product of the mantissas is a 53-bit number followed by zero
    bits, the multiplication by [10**18] rounds nothing away. *)
Lemma float_mul_ten18_exact m e m' p :
  (m * 7812500000000000)%positive = Pos.iter xO m' p ->
  Zpos (digits2_pos m') = 53 ->
  -1074 <= e + 7 + Zpos p <= 971 ->
  float_mul (S754_finite false m e) (float_of_int (10 ^ 18))
  = S754_finite false m' (e + 7 + Zpos p).
Proof.
  intros Hm Hd He. rewrite float_of_int_ten18.
  unfold float_mul, SFmul. simpl xorb. rewrite Hm.
  unfold binary_round_aux.
  rewrite shr_fexp_zeros by (assumption || lia).
  simpl loc_of_shr_record. simpl round_nearest_even.
  rewrite shr_fexp_none by (assumption || lia).
  simpl shr_m.
  replace (e + 7 + Zpos p <=? emax - prec) with true
    by (symmetry; apply Z.leb_le; unfold prec, emax; lia).
  reflexivity.
Qed.

Lemma Zpos_iter_xO m p : Zpos (Pos.iter xO m p) = Zpos m * 2 ^ Zpos p.
Proof.
  rewrite <- Z.shiftl_mul_pow2 by lia. simpl Z.shiftl.
  apply (Pos.iter_swap_gen _ _ Zpos xO (Z.mul 2)). reflexivity.
Qed.

(** C9, as stated, fails: the sell resting at 0.55, the binary64 value
    4953959590107546 * 2^-53, is settled with the price argument
    550000000000000064, which is neither that value times 10^18 nor
    55 * 10^16. *)
Lemma settlement_price_055_is_inexact :
  map (fun co => price_fixed (fst co))
    (chain (snd (post_orders Sample.env_ok Sample.buy10 Sample.w0)))
  = [500000000000000000; 550000000000000064]
  /\ Order.price Sample.sell2 = S754_finite false 4953959590107546 (-53)
  /\ 550000000000000064 * 2 ^ 53 <> 4953959590107546 * 10 ^ 18
  /\ 550000000000000064 <> 55 * 10 ^ 16.
Proof.
  split; [vm_compute; reflexivity |]. split; [reflexivity |].
  split; vm_compute; discriminate.
Qed.

(** The truncation can lose a half: [2^-19 * 10^18] is 1907348632812.5,
    which the multiplication does not round, and the argument is
    1907348632812. *)
Lemma settlement_price_half_is_truncated :
  price_fixed_point (S754_finite false 4503599627370496 (-71)) = Ok 1907348632812
  /\ float_mul (S754_finite false 4503599627370496 (-71)) (float_of_int (10 ^ 18))
     = S754_finite false 7812500000000000 (-12)
  /\ 7812500000000000 = 1907348632812 * 2 ^ 12 + 2 ^ 11.
Proof. split; [| split]; vm_compute; reflexivity. Qed.

(** C9, amended: the price argument of every settlement call is
    [int(price * 10**18)] evaluated in binary64 on the price of the maker
    order the call is built for: the product rounded to nearest even to 53
    bits, then truncated toward zero. It is the integer equal to the price
    times 10^18 when neither step loses anything: for a positive price
    [m * 2^e] with [e <= 0], when [m * 7812500000000000], the product of
    the mantissas ([10^18] is [7812500000000000 * 2^7]), is a 53-bit number
    followed by [p] zero bits and [0 <= e + 7 + p <= 971]. *)
Theorem settlement_price_fixed_point :
  (forall env order w r w' calls,
      post_orders env order w = (r, w') ->
      chain w' = (chain w ++ calls)%list ->
      Forall (fun co =>
                exists m ua rem,
                  to_checksum_address env (OrderCreate.user_address order) = Ok ua
                  /\ In m (orders (committed w))
                  /\ call_for env order (new_order env order ua (session w)) m rem
                       (fst co)
                  /\ int_of_float (float_mul (Order.price m) (float_of_int (10 ^ 18)))
                     = Ok (price_fixed (fst co)))
        calls)
  /\ (forall m e m' p,
         (m * 7812500000000000)%positive = Pos.iter xO m' p ->
         Zpos (digits2_pos m') = 53 ->
         e <= 0 -> 0 <= e + 7 + Zpos p <= 971 ->
         exists n,
           price_fixed_point (S754_finite false m e) = Ok n
           /\ n * 2 ^ (- e) = Zpos m * 10 ^ 18).
Proof.
  split.
  - intros env order w r w' calls H Hch.
    eapply Forall_impl; [| exact (post_orders_calls_for env order w r w' calls H Hch)].
    cbv beta. intros co (m & ua & rem & Hua & Hin & Hcall & _).
    exists m, ua, rem. split; [assumption |]. split; [assumption |].
    split; [assumption |]. apply Hcall.
  - intros m e m' p Hm Hd He Hb.
    exists (Zpos m' * 2 ^ (e + 7 + Zpos p)). split.
    + unfold price_fixed_point.
      rewrite (float_mul_ten18_exact m e m' p) by (assumption || lia).
      unfold int_of_float, cond_Zopp. rewrite Z.shiftl_mul_pow2 by lia. reflexivity.
    + rewrite <- Z.mul_assoc, <- Z.pow_add_r by lia.
      replace (e + 7 + Zpos p + - e) with (Zpos p + 7) by lia.
      rewrite Z.pow_add_r by lia.
      change (10 ^ 18) with (7812500000000000 * 2 ^ 7).
      rewrite !Z.mul_assoc. f_equal.
      change (Z.pos m * 7812500000000000) with (Zpos (m * 7812500000000000)).
      rewrite Hm, Zpos_iter_xO. reflexivity.
Qed.

(** The price 0.5 is sent as 5 * 10^17. *)
Lemma settlement_price_fixed_point_witness :
  exists n, price_fixed_point Sample.p050 = Ok n
            /\ n * 2 ^ 53 = 4503599627370496 * 10 ^ 18.
Proof.
  refine (proj2 settlement_price_fixed_point 4503599627370496%positive (-53)
            7812500000000000%positive 52%positive _ _ _ _).
  - vm_compute. reflexivity.
  - reflexivity.
  - lia.
  - lia.
Defined.

(** ** Amounts of the orders in the book *)

Lemma fresh_id_gt ids i : In i ids -> i < fresh_id ids.
Proof.
  unfold fresh_id. induction ids as [| j ids IH]; cbn [fold_right In]; [intros [] |].
  intros [-> | H]; [lia |]. specialize (IH H). lia.
Qed.

Lemma In_set_row_order k f l o' :
  In o' (set_row_order k f l)
  <-> exists o, In o l /\ o' = if Order.id o =? k then f o else o.
Proof.
  unfold set_row_order. rewrite in_map_iff. split; intros (o & H1 & H2); eauto.
Qed.

Lemma In_delete_row k l o :
  In o (delete_row k l) <-> In o l /\ Order.id o <> k.
Proof.
  unfold delete_row. rewrite filter_In, negb_true_iff, Z.eqb_neq. tauto.
Qed.

(** Where a row of the [orders] table comes from after a fill. *)
Lemma In_orders_filled i j m k rem now t o' :
  In o' (orders (filled_tables i j m k rem now t)) ->
  exists o,
    In o (orders t) /\ Order.id o' = Order.id o
    /\ ((Order.id o = i
         /\ Order.amount o' = rem - Z.min rem (Order.amount m)
         /\ rem - Z.min rem (Order.amount m) <> 0)
        \/ (Order.id o <> i /\ Order.id o = Order.id m
            /\ Order.amount o' = Order.amount m - Z.min rem (Order.amount m)
            /\ Order.amount m - Z.min rem (Order.amount m) <> 0)
        \/ (Order.id o <> i /\ Order.id o <> Order.id m /\ o' = o)).
Proof.
  unfold filled_tables. simpl. set (ma := Z.min rem (Order.amount m)).
  set (os := set_row_order i _ (set_row_order (Order.id m) _ (orders t))).
  intros H.
  assert (Hos : In o' os
                /\ (Order.amount m - ma = 0 -> Order.id o' <> Order.id m)
                /\ (rem - ma = 0 -> Order.id o' <> i)).
  { destruct (Order.amount m - ma =? 0) eqn:E1; destruct (rem - ma =? 0) eqn:E2;
      repeat match goal with
             | H : In _ (delete_row _ _) |- _ =>
                 apply In_delete_row in H; destruct H
             end;
      try apply Z.eqb_neq in E1; try apply Z.eqb_neq in E2;
      repeat split; auto; intros; try lia. }
  destruct Hos as (Hin & Hd1 & Hd2). unfold os in Hin.
  apply In_set_row_order in Hin. destruct Hin as (o1 & Hin & Ho').
  apply In_set_row_order in Hin. destruct Hin as (o & Hin & Ho1).
  exists o. split; [assumption |].
  assert (Hid1 : Order.id o1 = Order.id o).
  { subst o1. destruct (Order.id o =? Order.id m); reflexivity. }
  assert (Hid : Order.id o' = Order.id o).
  { subst o'. destruct (Order.id o1 =? i); simpl; assumption. }
  split; [assumption |].
  destruct (Z.eq_dec (Order.id o) i) as [Hi | Hi].
  - left. split; [assumption |].
    rewrite <- Hid1 in Hi. apply Z.eqb_eq in Hi. rewrite Hi in Ho'. subst o'.
    simpl. split; [reflexivity |]. intros Hz. apply (Hd2 Hz). simpl.
    apply Z.eqb_eq in Hi. assumption.
  - right. rewrite <- Hid1 in Hi. apply Z.eqb_neq in Hi. rewrite Hi in Ho'.
    apply Z.eqb_neq in Hi. subst o'.
    destruct (Order.id o =? Order.id m) eqn:Em.
    + left. apply Z.eqb_eq in Em. subst o1. simpl in *.
      repeat split; auto. intros Hz. apply (Hd1 Hz). assumption.
    + right. apply Z.eqb_neq in Em. subst o1. auto.
Qed.

(** The incoming order stays in the table as long as something remains. *)
Lemma incoming_stays_filled i j m k rem now t :
  Order.id m <> i ->
  rem - Z.min rem (Order.amount m) <> 0 ->
  (exists o, In o (orders t) /\ Order.id o = i) ->
  exists o', In o' (orders (filled_tables i j m k rem now t)) /\ Order.id o' = i.
Proof.
  intros Hm Hrem (o & Hin & Hi). unfold filled_tables. simpl.
  set (ma := Z.min rem (Order.amount m)) in *.
  exists (Order.set_amount o (rem - ma)). split; [| exact Hi].
  assert (Hos : In (Order.set_amount o (rem - ma))
                  (set_row_order i (fun o => Order.set_amount o (rem - ma))
                     (set_row_order (Order.id m)
                        (fun o => Order.set_amount o (Order.amount m - ma))
                        (orders t)))).
  { apply In_set_row_order.
    exists o. split.
    - apply In_set_row_order. exists o. split; [assumption |].
      destruct (Order.id o =? Order.id m) eqn:E; [| reflexivity].
      apply Z.eqb_eq in E. congruence.
    - apply Z.eqb_eq in Hi. rewrite Hi. reflexivity. }
  apply Z.eqb_neq in Hrem. rewrite Hrem.
  destruct (Order.amount m - ma =? 0); [| assumption].
  apply In_delete_row. split; [assumption |]. simpl. congruence.
Qed.

(** The candidates of the incoming order are rows that were in the table
    before it was added, with a positive amount and an older key. *)
Lemma match_order_started env order ua w m :
  In m (match_order (working (started env order ua w)) (new_order env order ua w)) ->
  In m (orders (working w))
  /\ 0 < Order.amount m
  /\ Order.id m <> Order.id (new_order env order ua w).
Proof.
  intros H. apply match_order_In in H. destruct H as (Hin & _ & Hm).
  assert (Hamt : 0 < Order.amount m).
  { destruct (String.eqb _ "buy"); destruct Hm as ((_ & _ & _ & Ha & _) & _); exact Ha. }
  assert (Hold : In m (orders (working w))).
  { simpl in Hin. apply in_app_or in Hin. destruct Hin as [Hin | [<- | []]];
      [assumption |]. exfalso. simpl in Hm.
    destruct (String.eqb (OrderCreate.side order) "buy") eqn:E;
      destruct Hm as ((_ & _ & Hs & _) & _); simpl in Hs.
    - apply String.eqb_eq in E. congruence.
    - rewrite Hs in E. discriminate. }
  repeat split; auto.
  simpl. intros Heq.
  pose proof (fresh_id_gt (map Order.id (orders (working w))) (Order.id m)
                (in_map Order.id _ _ Hold)). lia.
Qed.

(** C6: when every order of the committed table has a positive amount, so
    has every order of the table after a submission, whatever its result,
    and after a cancellation; and when a submission succeeds the incoming
    order is in the committed table exactly when what is left of it is
    positive, with that amount. *)
Theorem orders_amount_positive env :
  (forall order w r w',
      Forall (fun o => 0 < Order.amount o) (orders (committed w)) ->
      post_orders env order w = (r, w') ->
      Forall (fun o => 0 < Order.amount o) (orders (committed w'))
      /\ forall resp,
          r = Ok resp ->
          ((exists o, In o (orders (committed w'))
                      /\ Order.id o = OrderResponse.id resp)
           <-> 0 < OrderResponse.amount resp)
          /\ (forall o, In o (orders (committed w')) ->
                        Order.id o = OrderResponse.id resp ->
                        Order.amount o = OrderResponse.amount resp))
  /\ (forall order_id w r w',
         Forall (fun o => 0 < Order.amount o) (orders (committed w)) ->
         post_cancel env order_id w = (r, w') ->
         Forall (fun o => 0 < Order.amount o) (orders (committed w'))).
Proof.
  split.
  - intros order w r w' Hpos H. apply get_db_inv in H.
    destruct H as (w1 & H & Hw'). subst w'. simpl.
    apply create_order_inv in H.
    destruct H as [(Hw & e & Hr & _) | (a & ua & _ & _ & _ & H)].
    { subst w1 r. simpl. split; [assumption | discriminate]. }
    cbv zeta in H. destruct H as [(_ & Hw & e & Hr & _) | (_ & r1 & w2 & Hloop & H)].
    { subst w1 r. simpl. split; [assumption | discriminate]. }
    set (w0 := mkWorld (committed w) (committed w) (chain w) (clock w)) in *.
    set (db_order := new_order env order ua w0) in *.
    destruct r1 as [rem | e].
    2:{ destruct H as (Hr & Hw). subst w1 r. simpl.
        apply matching_loop_trace in Hloop. destruct Hloop as (Hc & _).
        rewrite Hc. simpl. split; [assumption | discriminate]. }
    destruct H as (Hr & Hw). subst w1. simpl.
    assert (Hresp_eq : forall resp,
               r = Ok resp ->
               Ok (OrderResponse_of db_order (if 0 <? rem then rem else 0)) = Ok resp).
    { intros resp ->. destruct Hr as [(_ & Hr) | (_ & _ & msg & Hr)];
        [symmetry; exact Hr | discriminate]. }
    clear Hr.
    eapply (matching_loop_rule env order _ _
              (fun l rem w2 =>
                 (forall m, In m l -> 0 < Order.amount m
                                      /\ Order.id m <> Order.id db_order)
                 /\ (forall o, In o (orders (working w2)) ->
                               Order.id o <> Order.id db_order -> 0 < Order.amount o)
                 /\ (rem <> 0 -> exists o, In o (orders (working w2))
                                           /\ Order.id o = Order.id db_order)))
      in Hloop.
    + destruct Hloop as (l' & (_ & Hother & Hinc) & _).
      unfold finished. destruct (0 <? rem) eqn:Er; cbn [committed orders].
      * apply Z.ltb_lt in Er. split.
        -- apply Forall_forall. intros o' Ho'. apply In_set_row_order in Ho'.
           destruct Ho' as (o & Ho & ->).
           destruct (Order.id o =? Order.id db_order) eqn:E; simpl; [lia |].
           apply Z.eqb_neq in E. auto.
        -- intros resp Hresp. apply Hresp_eq in Hresp. inversion Hresp; subst resp.
           unfold OrderResponse_of; cbn [OrderResponse.id OrderResponse.amount]. split.
           ++ split; [intros _; assumption | intros _].
              destruct Hinc as (o & Ho & Hid); [lia |].
              exists (Order.set_amount o rem). split; [| exact Hid].
              apply In_set_row_order. exists o. split; [assumption |].
              apply Z.eqb_eq in Hid. rewrite Hid. reflexivity.
           ++ intros o' Ho' Hid. apply In_set_row_order in Ho'.
              destruct Ho' as (o & Ho & ->).
              destruct (Order.id o =? Order.id db_order) eqn:E; [reflexivity |].
              apply Z.eqb_neq in E. contradiction.
      * apply Z.ltb_ge in Er. split.
        -- apply Forall_forall. intros o Ho. apply In_delete_row in Ho.
           destruct Ho. auto.
        -- intros resp Hresp. apply Hresp_eq in Hresp. inversion Hresp; subst resp.
           unfold OrderResponse_of; cbn [OrderResponse.id OrderResponse.amount]. split.
           ++ split; [| lia]. intros (o & Ho & Hid).
              apply In_delete_row in Ho. destruct Ho. contradiction.
           ++ intros o Ho Hid. apply In_delete_row in Ho. destruct Ho. contradiction.
    + intros m rest rem0 mt w3 rem' w3' (Hrest & Hother & Hinc) Hrem0 _ Hs.
      apply settle_pair_ok in Hs.
      destruct Hs as (c & _ & _ & _ & Hrem' & _ & Hwk).
      destruct (Hrest m (or_introl eq_refl)) as (Hm & Hmi).
      split; [intros m' Hm'; apply Hrest; right; assumption |]. split.
      * intros o' Ho' Hid. rewrite Hwk in Ho'. apply In_orders_filled in Ho'.
        destruct Ho' as (o & Ho & Hido & [(Hi & _) | [(_ & _ & Ha & Hnz) | (_ & _ & ->)]]).
        -- congruence.
        -- lia.
        -- apply Hother; [assumption | congruence].
      * intros Hnz. rewrite Hwk. apply incoming_stays_filled; auto. lia.
    + split; [| split].
      * intros m Hm. apply match_order_started in Hm. tauto.
      * intros o Ho Hid. simpl in Ho. apply in_app_or in Ho.
        destruct Ho as [Ho | [<- | []]]; [| contradiction].
        rewrite Forall_forall in Hpos. auto.
      * intros _. exists db_order. split; [| reflexivity].
        simpl. apply in_or_app. right. left. reflexivity.
  - intros order_id w r w' Hpos H. apply get_db_inv in H.
    destruct H as (w1 & H & Hw'). subst w'. rewrite cancel_order_eq in H. simpl in H.
    destruct (find _ (orders (committed w))) as [o |];
      [| inversion H; subst; assumption].
    destruct (find _ (transactions (committed w))) as [x |];
      [| inversion H; subst; assumption].
    destruct (negb (cancellable (Transaction.status x)));
      [inversion H; subst; assumption |].
    destruct (to_checksum_address env (Order.market_address o)) as [a | e];
      [| inversion H; subst; assumption].
    destruct (getMarketState env a) as [s | e];
      [| inversion H; subst; assumption].
    destruct (String.eqb s "Active");
      [| inversion H; subst; assumption].
    inversion H; subst. simpl.
    rewrite Forall_forall in *. intros o' Ho'. apply In_delete_row in Ho'.
    destruct Ho'. auto.
Qed.

(** ** Well-formed stores *)

Section Unique.
Context {A K : Type} (key : A -> K).

Lemma NoDup_key_inj l a b :
  NoDup (map key l) -> In a l -> In b l -> key a = key b -> a = b.
Proof.
  induction l as [| c l IH]; simpl; intros Hnd Ha Hb Hk; [contradiction |].
  inversion Hnd as [| k ks Hnotin Hnd']; subst.
  destruct Ha as [-> | Ha], Hb as [-> | Hb]; auto.
  - exfalso. apply Hnotin. rewrite Hk. apply in_map. assumption.
  - exfalso. apply Hnotin. rewrite <- Hk. apply in_map. assumption.
Qed.

Lemma NoDup_map_filter (p : A -> bool) l :
  NoDup (map key l) -> NoDup (map key (filter p l)).
Proof.
  induction l as [| c l IH]; simpl; intros Hnd; [constructor |].
  inversion Hnd as [| k ks Hnotin Hnd']; subst.
  destruct (p c); simpl; auto.
  constructor; auto. intros Hin. apply Hnotin.
  apply in_map_iff in Hin. destruct Hin as (d & Hd & Hin).
  apply filter_In in Hin. rewrite <- Hd. apply in_map. tauto.
Qed.

Lemma map_key_map (f : A -> A) l :
  (forall a, key (f a) = key a) -> map key (map f l) = map key l.
Proof.
  intros Hf. rewrite map_map. apply map_ext. assumption.
Qed.

Lemma NoDup_map_snoc l a :
  NoDup (map key l) -> ~ In (key a) (map key l) -> NoDup (map key (l ++ [a])).
Proof.
  intros Hnd Hnotin. rewrite map_app. simpl.
  apply (Permutation_NoDup (l := key a :: map key l)).
  - apply Permutation_cons_append.
  - constructor; assumption.
Qed.
End Unique.

(** *** The tables after a fill, row by row *)

Lemma set_amount_id o a : Order.id (Order.set_amount o a) = Order.id o.
Proof. reflexivity. Qed.

Lemma set_amount_same o : Order.set_amount o (Order.amount o) = o.
Proof. destruct o; reflexivity. Qed.

Lemma In_if_delete_row (c : bool) k l o :
  In o (if c then delete_row k l else l)
  <-> In o l /\ (c = true -> Order.id o <> k).
Proof.
  destruct c.
  - rewrite In_delete_row. intuition.
  - intuition discriminate.
Qed.

Lemma In_orders_filled_iff i j m k rem now t o' :
  Order.id m <> i ->
  In o' (orders (filled_tables i j m k rem now t))
  <-> exists o,
      In o (orders t)
      /\ ((Order.id o = i /\ rem - Z.min rem (Order.amount m) <> 0
           /\ o' = Order.set_amount o (rem - Z.min rem (Order.amount m)))
          \/ (Order.id o = Order.id m
              /\ Order.amount m - Z.min rem (Order.amount m) <> 0
              /\ o' = Order.set_amount o (Order.amount m - Z.min rem (Order.amount m)))
          \/ (Order.id o <> i /\ Order.id o <> Order.id m /\ o' = o)).
Proof.
  intros Hmi. unfold filled_tables. cbn [orders].
  set (ma := Z.min rem (Order.amount m)).
  rewrite !In_if_delete_row, !Z.eqb_eq, In_set_row_order.
  split.
  - intros (((o1 & Ho1 & Ho') & Hd1) & Hd2).
    apply In_set_row_order in Ho1. destruct Ho1 as (o & Ho & Ho1).
    exists o. split; [assumption |].
    destruct (Z.eq_dec (Order.id o) (Order.id m)) as [Em | Em].
    + right; left. apply Z.eqb_eq in Em. rewrite Em in Ho1. subst o1.
      simpl in Ho'. apply Z.eqb_eq in Em.
      assert (Ei : (Order.id o =? i) = false) by (apply Z.eqb_neq; congruence).
      rewrite Ei in Ho'. subst o'. simpl in Hd1.
      split; [assumption |]. split; [| reflexivity]. intros Hz. apply (Hd1 Hz Em).
    + apply Z.eqb_neq in Em. rewrite Em in Ho1. subst o1. apply Z.eqb_neq in Em.
      destruct (Z.eq_dec (Order.id o) i) as [Ei | Ei].
      * left. apply Z.eqb_eq in Ei. rewrite Ei in Ho'. subst o'.
        apply Z.eqb_eq in Ei. simpl in Hd2.
        split; [assumption |]. split; [| reflexivity]. intros Hz. apply (Hd2 Hz Ei).
      * right; right. apply Z.eqb_neq in Ei. rewrite Ei in Ho'. subst o'.
        apply Z.eqb_neq in Ei. auto.
  - intros (o & Ho & [(Ei & Hnz & ->) | [(Em & Hnz & ->) | (Ei & Em & ->)]]).
    + assert (Em : Order.id o <> Order.id m) by congruence.
      split; [split |]; simpl.
      * exists o. split.
        -- apply In_set_row_order. exists o. split; [assumption |].
           apply Z.eqb_neq in Em. rewrite Em. reflexivity.
        -- apply Z.eqb_eq in Ei. rewrite Ei. reflexivity.
      * intros _. assumption.
      * intros Hz. contradiction.
    + assert (Ei : Order.id o <> i) by congruence.
      split; [split |]; simpl.
      * exists (Order.set_amount o (Order.amount m - ma)). split.
        -- apply In_set_row_order. exists o. split; [assumption |].
           apply Z.eqb_eq in Em. rewrite Em. reflexivity.
        -- simpl. apply Z.eqb_neq in Ei. rewrite Ei. reflexivity.
      * intros Hz. contradiction.
      * intros _. assumption.
    + split; [split |]; simpl.
      * exists o. split.
        -- apply In_set_row_order. exists o. split; [assumption |].
           apply Z.eqb_neq in Em. rewrite Em. reflexivity.
        -- apply Z.eqb_neq in Ei. rewrite Ei. reflexivity.
      * intros _. assumption.
      * intros _. assumption.
Qed.

Lemma fill_id ma p now x : Transaction.id (fill ma p now x) = Transaction.id x.
Proof. reflexivity. Qed.

Lemma fill_serial ma p now x :
  Transaction.order_serial (fill ma p now x) = Transaction.order_serial x.
Proof. reflexivity. Qed.

Lemma In_transactions_filled_iff i j m k rem now t x' :
  j <> k ->
  In x' (transactions (filled_tables i j m k rem now t))
  <-> exists x,
      In x (transactions t)
      /\ ((Transaction.id x = j
           /\ x' = fill (Z.min rem (Order.amount m)) (Order.price m) now x)
          \/ (Transaction.id x = k
              /\ x' = fill (Z.min rem (Order.amount m)) (Order.price m)
                        (second_reading j (Z.min rem (Order.amount m)) now t) x)
          \/ (Transaction.id x <> j /\ Transaction.id x <> k /\ x' = x)).
Proof.
  intros Hjk. rewrite transactions_filled_tables. unfold set_row_transaction.
  rewrite in_map_iff. split.
  - intros (x1 & Hx' & Hx1). apply in_map_iff in Hx1.
    destruct Hx1 as (x & Hx1 & Hx). exists x. split; [assumption |].
    destruct (Transaction.id x =? j) eqn:Ej.
    + left. apply Z.eqb_eq in Ej. subst x1. rewrite fill_id in Hx'.
      assert (Ek : (Transaction.id x =? k) = false) by (apply Z.eqb_neq; congruence).
      rewrite Ek in Hx'. auto.
    + subst x1. apply Z.eqb_neq in Ej.
      destruct (Transaction.id x =? k) eqn:Ek.
      * right; left. apply Z.eqb_eq in Ek. auto.
      * right; right. apply Z.eqb_neq in Ek. auto.
  - intros (x & Hx & [(Ej & ->) | [(Ek & ->) | (Ej & Ek & ->)]]).
    + exists (fill (Z.min rem (Order.amount m)) (Order.price m) now x).
      rewrite fill_id.
      assert (Ek : (Transaction.id x =? k) = false) by (apply Z.eqb_neq; congruence).
      rewrite Ek. split; [reflexivity |].
      apply in_map_iff. exists x. apply Z.eqb_eq in Ej. rewrite Ej. auto.
    + exists x. apply Z.eqb_eq in Ek. rewrite Ek. split; [reflexivity |].
      apply in_map_iff. exists x. apply Z.eqb_eq in Ek.
      assert (Ej : (Transaction.id x =? j) = false) by (apply Z.eqb_neq; congruence).
      rewrite Ej. auto.
    + exists x. apply Z.eqb_neq in Ek. rewrite Ek. split; [reflexivity |].
      apply in_map_iff. exists x. apply Z.eqb_neq in Ej. rewrite Ej. auto.
Qed.

Lemma NoDup_orders_filled {K} (key : Order.t -> K) i j m k rem now t :
  (forall o a, key (Order.set_amount o a) = key o) ->
  NoDup (map key (orders t)) ->
  NoDup (map key (orders (filled_tables i j m k rem now t))).
Proof.
  intros Hkey Hnd. unfold filled_tables. cbn [orders].
  assert (Hset : NoDup (map key
            (set_row_order i
               (fun o => Order.set_amount o (rem - Z.min rem (Order.amount m)))
               (set_row_order (Order.id m)
                  (fun o => Order.set_amount o
                              (Order.amount m - Z.min rem (Order.amount m)))
                  (orders t))))).
  { unfold set_row_order. rewrite !(map_key_map key); [assumption | |];
      intros o; match goal with |- context [if ?c then _ else _] => destruct c end;
      auto. }
  destruct (_ =? 0); destruct (_ =? 0); unfold delete_row;
    repeat apply NoDup_map_filter; assumption.
Qed.

Lemma NoDup_transactions_filled {K} (key : Transaction.t -> K) i j m k rem now t :
  (forall ma p now x, key (fill ma p now x) = key x) ->
  NoDup (map key (transactions t)) ->
  NoDup (map key (transactions (filled_tables i j m k rem now t))).
Proof.
  intros Hkey Hnd. rewrite transactions_filled_tables. unfold set_row_transaction.
  rewrite !(map_key_map key); [assumption | |];
    intros x; match goal with |- context [if ?c then _ else _] => destruct c end;
    auto.
Qed.

(** A fill of a live record by a part of what remains of it. *)
Lemma fill_ok ma p now x :
  transaction_ok x -> cancellable (Transaction.status x) = true ->
  0 < ma <= Transaction.remaining_amount x ->
  transaction_ok (fill ma p now x)
  /\ (0 < Transaction.remaining_amount x - ma ->
      cancellable (Transaction.status (fill ma p now x)) = true).
Proof.
  intros (Hdeal & Hst & Hat) Hc Hma. unfold transaction_ok, total, fill.
  cbn [Transaction.deal_amount Transaction.remaining_amount Transaction.status
       Transaction.dealt_at].
  assert (Hnone : Transaction.dealt_at x = None).
  { destruct (Transaction.dealt_at x) eqn:E; [| reflexivity].
    assert (Hd : Transaction.status x = DEALT) by (apply Hat; discriminate).
    rewrite Hd in Hc. discriminate. }
  destruct (0 <? Transaction.remaining_amount x - ma) eqn:E.
  - apply Z.ltb_lt in E. simpl. rewrite Hnone.
    repeat split; try lia; try discriminate; try congruence.
    right. apply status_partially_dealt. lia.
  - apply Z.ltb_ge in E. simpl.
    repeat split; try lia; try discriminate; try congruence.
    right. apply status_dealt. lia.
Qed.

(** The invariant of the loop goes through a fill. *)
Lemma loop_ok_step i j s old m rest rem t mt now :
  loop_ok i j s old (m :: rest) rem t ->
  rem <> 0 ->
  find (fun x => String.eqb (Transaction.order_serial x) (Order.order_serial m))
       (transactions t) = Some mt ->
  loop_ok i j s old rest (rem - Z.min rem (Order.amount m))
    (filled_tables i j m (Transaction.id mt) rem now t).
Proof.
  intros (Hbook & Hrem & (xj & Hxj & Hxjid & Hxjs) & Hinc & _ & Hcand & Hnd & Hold)
         Hnz Hfind.
  destruct Hbook as (B1 & B2 & B3 & B4 & B5 & B6).
  destruct (Hinc Hnz) as (oi & Hoi & Hoiid & Hois & Hoia).
  destruct (Hcand m (or_introl eq_refl)) as (Hm & Hmi).
  destruct (B5 oi Hoi) as (_ & xi & Hxi & Hxis & Hxir & Hxic).
  assert (xi = xj).
  { apply (NoDup_key_inj Transaction.order_serial (transactions t)); auto. congruence. }
  subst xi.
  apply find_some in Hfind. destruct Hfind as (Hmt & Hmts).
  apply String.eqb_eq in Hmts.
  destruct (B5 m Hm) as (Hma & xm & Hxm & Hxms & Hxmr & Hxmc).
  assert (xm = mt).
  { apply (NoDup_key_inj Transaction.order_serial (transactions t)); auto. congruence. }
  subst xm.
  assert (Hsm : Order.order_serial m <> s).
  { intros E. apply Hmi. rewrite <- Hoiid. f_equal.
    apply (NoDup_key_inj Order.order_serial (orders t)); auto. congruence. }
  assert (Hjk : j <> Transaction.id mt).
  { intros E. apply Hsm.
    assert (mt = xj).
    { apply (NoDup_key_inj Transaction.id (transactions t)); auto. congruence. }
    subst mt. congruence. }
  pose proof (In_orders_filled_iff i j m (Transaction.id mt) rem now t) as HO.
  pose proof (In_transactions_filled_iff i j m (Transaction.id mt) rem now t) as HT.
  set (now' := second_reading j (Z.min rem (Order.amount m)) now t) in *.
  set (ma := Z.min rem (Order.amount m)) in *.
  set (t' := filled_tables i j m (Transaction.id mt) rem now t) in *.
  assert (Hmab : 0 < ma <= rem /\ ma <= Order.amount m) by (unfold ma; lia).
  assert (Hfj : transaction_ok (fill ma (Order.price m) now xj)
                /\ (0 < Transaction.remaining_amount xj - ma ->
                    cancellable (Transaction.status (fill ma (Order.price m) now xj))
                    = true)).
  { apply fill_ok; auto. lia. }
  assert (Hfm : transaction_ok (fill ma (Order.price m) now' mt)
                /\ (0 < Transaction.remaining_amount mt - ma ->
                    cancellable
                      (Transaction.status (fill ma (Order.price m) now' mt))
                    = true)).
  { apply fill_ok; auto. lia. }
  assert (Hinj : In (fill ma (Order.price m) now xj) (transactions t')).
  { apply HT; [assumption |]. exists xj. auto. }
  assert (Hinm : In (fill ma (Order.price m) now' mt) (transactions t')).
  { apply HT; [assumption |]. exists mt. auto. }
  assert (Hkeep : forall x, In x (transactions t) ->
                            Transaction.order_serial x <> s ->
                            Transaction.order_serial x <> Order.order_serial m ->
                            In x (transactions t')).
  { intros x Hx Hs1 Hs2. apply HT; [assumption |]. exists x. split; [assumption |].
    right; right. repeat split; auto.
    - intros E. apply Hs1.
      assert (x = xj).
      { apply (NoDup_key_inj Transaction.id (transactions t)); auto. congruence. }
      congruence.
    - intros E. apply Hs2.
      assert (x = mt).
      { apply (NoDup_key_inj Transaction.id (transactions t)); auto. }
      congruence. }
  unfold loop_ok, book_ok.
  split; [split; [| split; [| split; [| split; [| split]]]]
         | split; [| split; [| split; [| split; [| split; [| split]]]]]].
  - apply NoDup_orders_filled; auto.
  - apply NoDup_transactions_filled; auto.
  - apply NoDup_orders_filled; auto.
  - apply NoDup_transactions_filled; auto.
  - intros o' Ho'. apply HO in Ho'; [| assumption].
    destruct Ho' as (o0 & Ho0 & [(Ei & Hnz' & ->) | [(Em & Hnz' & ->) | (Ei & Em & ->)]]).
    + assert (o0 = oi).
      { apply (NoDup_key_inj Order.id (orders t)); auto. congruence. }
      subst o0. split; [simpl; lia |].
      exists (fill ma (Order.price m) now xj).
      split; [assumption |]. split; [simpl; congruence |].
      split; [simpl; lia |]. apply Hfj. lia.
    + assert (o0 = m).
      { apply (NoDup_key_inj Order.id (orders t)); auto. }
      subst o0. split; [simpl; lia |].
      exists (fill ma (Order.price m) now' mt).
      split; [assumption |]. split; [simpl; congruence |].
      split; [simpl; lia |]. apply Hfm. lia.
    + destruct (B5 o0 Ho0) as (Hpos & x & Hx & Hxs & Hxr & Hxc).
      split; [assumption |].
      exists x. split; [| auto].
      apply Hkeep; auto.
      * intros E. apply Ei. rewrite <- Hoiid. f_equal.
        apply (NoDup_key_inj Order.order_serial (orders t)); auto. congruence.
      * intros E. apply Em. f_equal.
        apply (NoDup_key_inj Order.order_serial (orders t)); auto. congruence.
  - intros x' Hx'. apply HT in Hx'; [| assumption].
    destruct Hx' as (x & Hx & [(Ej & ->) | [(Ek & ->) | (Ej & Ek & ->)]]).
    + assert (x = xj).
      { apply (NoDup_key_inj Transaction.id (transactions t)); auto. congruence. }
      subst x. apply Hfj.
    + assert (x = mt).
      { apply (NoDup_key_inj Transaction.id (transactions t)); auto. }
      subst x. apply Hfm.
    + apply B6. assumption.
  - lia.
  - exists (fill ma (Order.price m) now xj). auto.
  - intros Hnz'. exists (Order.set_amount oi (rem - ma)).
    split; [| simpl; auto].
    apply HO; [assumption |]. exists oi. split; [assumption |]. left. auto.
  - intros Hz o' Ho'. apply HO in Ho'; [| assumption].
    destruct Ho' as (o0 & Ho0 & [(Ei & Hnz' & ->) | [(Em & Hnz' & ->) | (Ei & Em & ->)]]);
      simpl; congruence.
  - intros m0 Hm0. destruct (Hcand m0 (or_intror Hm0)) as (Hm0in & Hm0i).
    split; [| assumption].
    apply HO; [assumption |]. exists m0.
    split; [assumption |]. right; right. repeat split; auto.
    intros E. simpl in Hnd. inversion Hnd as [| a l Hnotin _]; subst.
    apply Hnotin. rewrite <- E. apply in_map. assumption.
  - simpl in Hnd. inversion Hnd; assumption.
  - intros x Hx Hc. apply Hkeep; auto.
    + intros E.
      assert (x = xj).
      { apply (NoDup_key_inj Transaction.order_serial (transactions t)); auto.
        congruence. }
      subst x. congruence.
    + intros E.
      assert (x = mt).
      { apply (NoDup_key_inj Transaction.order_serial (transactions t)); auto.
        congruence. }
      subst x. congruence.
Qed.

Lemma NoDup_match_order db new_order :
  NoDup (map Order.id (orders db)) ->
  NoDup (map Order.id (match_order db new_order)).
Proof.
  intros Hnd. unfold match_order.
  destruct (Order.amount new_order <=? 0); [constructor |].
  destruct (String.eqb (Order.side new_order) "buy");
    (eapply Permutation_NoDup;
     [apply Permutation_map, Permutation_sym, order_by_perm |]);
    repeat apply NoDup_map_filter; assumption.
Qed.

Lemma new_transaction_ok env order ua w :
  transaction_ok (new_transaction env order ua w).
Proof.
  unfold transaction_ok, total, new_transaction. simpl.
  split; [lia |]. split.
  - right. apply status_open. lia.
  - split; [intros H; contradiction | discriminate].
Qed.

Lemma fresh_id_not_in ids : ~ In (fresh_id ids) ids.
Proof. intros H. apply fresh_id_gt in H. lia. Qed.

(** The invariant holds when the loop starts for a positive amount. *)
Lemma loop_ok_started env order ua w :
  book_ok (working w) ->
  ~ In (uuid4 env) (map Transaction.order_serial (transactions (working w))) ->
  0 < OrderCreate.amount order ->
  loop_ok (Order.id (new_order env order ua w))
    (Transaction.id (new_transaction env order ua w)) (uuid4 env)
    (transactions (working w))
    (match_order (working (started env order ua w)) (new_order env order ua w))
    (OrderCreate.amount order) (working (started env order ua w)).
Proof.
  intros (B1 & B2 & B3 & B4 & B5 & B6) Hfresh Hpos.
  assert (Hfresh_o : ~ In (uuid4 env) (map Order.order_serial (orders (working w)))).
  { intros H. apply in_map_iff in H. destruct H as (o & Hs & Ho).
    destruct (B5 o Ho) as (_ & x & Hx & Hxs & _).
    apply Hfresh. apply in_map_iff. exists x. split; [congruence | assumption]. }
  assert (Hbook : book_ok (working (started env order ua w))).
  { unfold book_ok, started. cbn [working orders transactions].
    split; [| split; [| split; [| split; [| split]]]].
    - apply NoDup_map_snoc; [assumption | apply fresh_id_not_in].
    - apply NoDup_map_snoc; [assumption | apply fresh_id_not_in].
    - apply NoDup_map_snoc; assumption.
    - apply NoDup_map_snoc; assumption.
    - intros o Ho. apply in_app_or in Ho. destruct Ho as [Ho | [<- | []]].
      + destruct (B5 o Ho) as (Ha & x & Hx & Hrest). split; [assumption |].
        exists x. split; [apply in_or_app; auto | assumption].
      + split; [exact Hpos |]. exists (new_transaction env order ua w).
        split; [apply in_or_app; right; left; reflexivity |]. auto.
    - intros x Hx. apply in_app_or in Hx. destruct Hx as [Hx | [<- | []]]; auto.
      apply new_transaction_ok. }
  unfold loop_ok.
  split; [exact Hbook |]. split; [lia |]. split; [| split; [| split; [| split; [| split]]]].
  - exists (new_transaction env order ua w). split; [| auto].
    simpl. apply in_or_app. right. left. reflexivity.
  - intros _. exists (new_order env order ua w). split; [| auto].
    simpl. apply in_or_app. right. left. reflexivity.
  - intros Hz. lia.
  - intros m Hm. apply match_order_started in Hm. destruct Hm as (Hm & _ & Hid).
    split; [| assumption]. simpl. apply in_or_app. auto.
  - apply NoDup_match_order. apply Hbook.
  - intros x Hx _. simpl. apply in_or_app. auto.
Qed.

(** At the end of the loop the last two statements of [create_order]
    change nothing in the tables. *)
Lemma finished_same db_order j s old l rem t :
  loop_ok (Order.id db_order) j s old l rem t -> finished db_order rem t = t.
Proof.
  intros ((B1 & _) & Hrem & _ & Hinc & Hgone & _).
  unfold finished. destruct (0 <? rem) eqn:E.
  - apply Z.ltb_lt in E. destruct (Hinc ltac:(lia)) as (oi & Hoi & Hid & _ & Ha).
    replace (set_row_order (Order.id db_order)
               (fun o => Order.set_amount o rem) (orders t)) with (orders t);
      [destruct t; reflexivity |].
    unfold set_row_order. rewrite <- (map_id (orders t)) at 1.
    apply map_ext_in. intros o Ho.
    destruct (Order.id o =? Order.id db_order) eqn:Eo; [| reflexivity].
    apply Z.eqb_eq in Eo.
    assert (o = oi).
    { apply (NoDup_key_inj Order.id (orders t)); auto. congruence. }
    subst o. rewrite <- Ha. symmetry. apply set_amount_same.
  - apply Z.ltb_ge in E. assert (rem = 0) by lia.
    replace (delete_row (Order.id db_order) (orders t)) with (orders t);
      [destruct t; reflexivity |].
    symmetry. apply filter_all. intros o Ho.
    apply negb_true_iff, Z.eqb_neq. apply Hgone; assumption.
Qed.

(** An order of amount 0 or less leaves its record and nothing else. *)
Lemma book_ok_unmatched env order ua w :
  book_ok (working w) ->
  ~ In (uuid4 env) (map Transaction.order_serial (transactions (working w))) ->
  OrderCreate.amount order <= 0 ->
  book_ok (finished (new_order env order ua w) (OrderCreate.amount order)
             (working (started env order ua w))).
Proof.
  intros (B1 & B2 & B3 & B4 & B5 & B6) Hfresh Hle.
  unfold finished. destruct (0 <? OrderCreate.amount order) eqn:E;
    [apply Z.ltb_lt in E; lia |].
  cbn [started working orders transactions].
  replace (delete_row (Order.id (new_order env order ua w))
             (orders (working w) ++ [new_order env order ua w]))
    with (orders (working w)).
  2:{ unfold delete_row. rewrite filter_app. simpl. rewrite Z.eqb_refl. simpl.
      rewrite app_nil_r. symmetry. apply filter_all. intros o Ho.
      apply negb_true_iff, Z.eqb_neq. intros Heq.
      apply (fresh_id_not_in (map Order.id (orders (working w)))).
      rewrite <- Heq. apply in_map. assumption. }
  unfold book_ok. cbn [orders transactions].
  split; [assumption |]. split; [| split; [assumption | split; [| split]]].
  - apply NoDup_map_snoc; [assumption | apply fresh_id_not_in].
  - apply NoDup_map_snoc; assumption.
  - intros o Ho. destruct (B5 o Ho) as (Ha & x & Hx & Hrest). split; [assumption |].
    exists x. split; [apply in_or_app; auto | assumption].
  - intros x Hx. apply in_app_or in Hx. destruct Hx as [Hx | [<- | []]]; auto.
    apply new_transaction_ok.
Qed.

Lemma In_set_row_transaction k f l x' :
  In x' (set_row_transaction k f l)
  <-> exists x, In x l /\ x' = if Transaction.id x =? k then f x else x.
Proof.
  unfold set_row_transaction. rewrite in_map_iff.
  split; intros (x & H1 & H2); eauto.
Qed.

(** A cancellation keeps the store well-formed and the closed records. *)
Lemma book_ok_cancel o x t :
  book_ok t -> In o (orders t) -> In x (transactions t) ->
  Transaction.order_serial x = Order.order_serial o ->
  cancellable (Transaction.status x) = true ->
  let t' := mkTables (delete_row (Order.id o) (orders t))
              (set_row_transaction (Transaction.id x)
                 (fun y => Transaction.set_status y CANCELLED) (transactions t)) in
  book_ok t'
  /\ forall z, In z (transactions t) -> cancellable (Transaction.status z) = false ->
               In z (transactions t').
Proof.
  intros (B1 & B2 & B3 & B4 & B5 & B6) Ho Hx Hs Hc. cbv zeta.
  assert (Hkeep : forall z, In z (transactions t) -> z <> x ->
                            In z (set_row_transaction (Transaction.id x)
                                    (fun y => Transaction.set_status y CANCELLED)
                                    (transactions t))).
  { intros z Hz Hne. apply In_set_row_transaction. exists z. split; [assumption |].
    destruct (Transaction.id z =? Transaction.id x) eqn:E; [| reflexivity].
    apply Z.eqb_eq in E. exfalso. apply Hne.
    apply (NoDup_key_inj Transaction.id (transactions t)); auto. }
  split.
  - unfold book_ok. cbn [orders transactions].
    split; [| split; [| split; [| split; [| split]]]].
    + apply NoDup_map_filter. assumption.
    + unfold set_row_transaction. rewrite (map_key_map Transaction.id); [assumption |].
      intros y. destruct (Transaction.id y =? Transaction.id x); reflexivity.
    + apply NoDup_map_filter. assumption.
    + unfold set_row_transaction.
      rewrite (map_key_map Transaction.order_serial); [assumption |].
      intros y. destruct (Transaction.id y =? Transaction.id x); reflexivity.
    + intros o' Ho'. apply In_delete_row in Ho'. destruct Ho' as (Ho' & Hid).
      destruct (B5 o' Ho') as (Ha & x' & Hx' & Hxs & Hrest). split; [assumption |].
      exists x'. split; [| auto]. apply Hkeep; [assumption |].
      intros ->. apply Hid. f_equal.
      apply (NoDup_key_inj Order.order_serial (orders t)); auto. congruence.
    + intros y' Hy'. apply In_set_row_transaction in Hy'.
      destruct Hy' as (y & Hy & ->).
      destruct (Transaction.id y =? Transaction.id x) eqn:E; [| auto].
      apply Z.eqb_eq in E.
      assert (y = x).
      { apply (NoDup_key_inj Transaction.id (transactions t)); auto. }
      subst y. destruct (B6 x Hx) as (Hdeal & _ & Hat).
      unfold transaction_ok. simpl. split; [assumption |]. split; [auto |].
      split; [| discriminate]. intros Hd. apply Hat in Hd.
      rewrite Hd in Hc. discriminate.
  - cbn [transactions]. intros z Hz Hzc. apply Hkeep; [assumption |].
    intros ->. congruence.
Qed.

Lemma book_ok_empty : book_ok (mkTables [] []).
Proof.
  unfold book_ok. simpl. repeat split; try constructor; contradiction.
Qed.

(** C5: in a well-formed store every record that is not CANCELLED has
    the status the mapping gives for what remains of it, OPEN when nothing
    was dealt, PARTIALLY_DEALT in between, DEALT at zero, and [dealt_at] is
    set exactly on the DEALT records. A submission with a fresh serial and
    a cancellation keep the store well-formed, after every fill of the loop
    (the session's tables at each iteration) as in what is committed, for
    the record of the incoming order and the records of the candidates; and
    the DEALT and CANCELLED records are never touched again, so that
    [dealt_at] is the time of the first fill that left nothing. *)
Theorem status_follows_remaining env :
  (forall order w r w',
      book_ok (committed w) ->
      ~ In (uuid4 env) (map Transaction.order_serial (transactions (committed w))) ->
      post_orders env order w = (r, w') ->
      book_ok (committed w')
      /\ forall x, In x (transactions (committed w)) ->
                   cancellable (Transaction.status x) = false ->
                   In x (transactions (committed w')))
  /\ (forall order_id w r w',
         book_ok (committed w) ->
         post_cancel env order_id w = (r, w') ->
         book_ok (committed w')
         /\ forall x, In x (transactions (committed w)) ->
                      cancellable (Transaction.status x) = false ->
                      In x (transactions (committed w')))
  /\ (forall order db_order db_transaction s old m rest mt rem w rem' w',
         loop_ok (Order.id db_order) (Transaction.id db_transaction) s old
           (m :: rest) rem (working w) ->
         rem <> 0 ->
         find (fun x => String.eqb (Transaction.order_serial x) (Order.order_serial m))
              (transactions (working w)) = Some mt ->
         settle_pair env order db_order db_transaction m mt rem w = (Ok rem', w') ->
         loop_ok (Order.id db_order) (Transaction.id db_transaction) s old
           rest rem' (working w')).
Proof.
  split; [| split].
  - intros order w r w' Hbook Hfresh H. apply get_db_inv in H.
    destruct H as (w1 & H & Hw'). subst w'. cbn [committed].
    apply create_order_inv in H.
    destruct H as [(Hw & _) | (a & ua & _ & _ & _ & H)].
    { subst w1. auto. }
    cbv zeta in H. destruct H as [(_ & Hw & _) | (_ & r1 & w2 & Hloop & H)].
    { subst w1. auto. }
    set (w0 := mkWorld (committed w) (committed w) (chain w) (clock w)) in *.
    destruct r1 as [rem | e].
    2:{ destruct H as (_ & Hw). subst w1. cbn [committed].
        apply matching_loop_trace in Hloop. destruct Hloop as (Hc & _).
        rewrite Hc. auto. }
    destruct H as (_ & Hw). subst w1. cbn [committed].
    destruct (Z_lt_le_dec 0 (OrderCreate.amount order)) as [Hpos | Hle].
    + eapply (matching_loop_rule env order _ _
                (fun l rem w2 =>
                   loop_ok (Order.id (new_order env order ua w0))
                     (Transaction.id (new_transaction env order ua w0)) (uuid4 env)
                     (transactions (committed w)) l rem (working w2)))
        in Hloop.
      * destruct Hloop as (l' & HI & _).
        rewrite (finished_same _ _ _ _ _ _ _ HI).
        destruct HI as (Hb & _ & _ & _ & _ & _ & _ & Hold). auto.
      * intros m rest rem0 mt w3 rem' w3' HI Hnz Hfind Hs.
        apply settle_pair_ok in Hs.
        destruct Hs as (c & _ & _ & _ & -> & _ & ->).
        apply loop_ok_step; assumption.
      * apply (loop_ok_started env order ua w0); assumption.
    + assert (Hnil : match_order (working (started env order ua w0))
                       (new_order env order ua w0) = []).
      { unfold match_order. simpl.
        destruct (OrderCreate.amount order <=? 0) eqn:E; [reflexivity |].
        apply Z.leb_gt in E. lia. }
      rewrite Hnil in Hloop. simpl in Hloop. unfold ret in Hloop.
      inversion Hloop; subst rem w2. split.
      * apply (book_ok_unmatched env order ua w0); assumption.
      * intros x Hx _. rewrite transactions_finished. simpl.
        apply in_or_app. auto.
  - intros order_id w r w' Hbook H. apply get_db_inv in H.
    destruct H as (w1 & H & Hw'). subst w'. rewrite cancel_order_eq in H.
    cbn [working] in H.
    destruct (find _ (orders (committed w))) as [o |] eqn:Efo;
      [| inversion H; subst; auto].
    destruct (find _ (transactions (committed w))) as [x |] eqn:Efx;
      [| inversion H; subst; auto].
    destruct (cancellable (Transaction.status x)) eqn:Ec;
      [| inversion H; subst; auto].
    cbn [negb] in H.
    destruct (to_checksum_address env (Order.market_address o)) as [a | e];
      [| inversion H; subst; auto].
    destruct (getMarketState env a) as [s | e];
      [| inversion H; subst; auto].
    destruct (String.eqb s "Active");
      [| inversion H; subst; auto].
    inversion H; subst. cbn [committed].
    apply find_some in Efo, Efx. destruct Efo as (Ho & _), Efx as (Hx & Hs).
    apply String.eqb_eq in Hs.
    apply (book_ok_cancel o x (committed w)); assumption.
  - intros order db_order db_transaction s old m rest mt rem w rem' w' HI Hnz Hf Hs.
    apply settle_pair_ok in Hs. destruct Hs as (c & _ & _ & _ & -> & _ & ->).
    apply loop_ok_step; assumption.
Qed.

(** The sample book is well-formed and stays so after a buy of 7. *)
Lemma status_follows_remaining_witness :
  book_ok (committed (snd (post_orders Sample.env_ok Sample.buy7 Sample.w0))).
Proof.
  refine (proj1 (proj1 (status_follows_remaining Sample.env_ok)
                   Sample.buy7 Sample.w0 _ _ _ _ (surjective_pairing _))).
  - unfold book_ok. simpl.
    split; [| split; [| split; [| split; [| split]]]];
      try (repeat constructor; simpl; intuition discriminate).
    + intros o [<- | [<- | []]]; (split; [reflexivity |]).
      * exists Sample.tsell1. simpl. auto.
      * exists Sample.tsell2. simpl. auto.
    + intros x [<- | [<- | []]]; unfold transaction_ok, total; simpl;
        (split; [lia |]); (split; [right; apply status_open; reflexivity |]);
        (split; [intros H; contradiction | discriminate]).
  - simpl. intuition discriminate.
Defined.

(** After a buy of 7 in the sample book. *)
Lemma orders_amount_positive_witness :
  Forall (fun o => 0 < Order.amount o)
    (orders (committed (snd (post_orders Sample.env_ok Sample.buy7 Sample.w0)))).
Proof.
  refine (proj1 (proj1 (orders_amount_positive Sample.env_ok)
                   Sample.buy7 Sample.w0 _ _ _ (surjective_pairing _))).
  simpl. repeat constructor.
Defined.

(** The two calls of a buy of 10 in the sample book. *)
Lemma settlement_at_maker_price_witness :
  Forall (fun co =>
            exists m,
              In m (orders Sample.book)
              /\ Order.side m <> "buy"
              /\ price_fixed_point (Order.price m) = Ok (price_fixed (fst co)))
    (chain (snd (post_orders Sample.env_ok Sample.buy10 Sample.w0))).
Proof.
  refine (proj2 (settlement_at_maker_price Sample.env_ok Sample.buy10)
            Sample.w0 _ _ _ (surjective_pairing _) _).
  vm_compute. reflexivity.
Defined.

(** * Further properties of the handlers *)

(** ** The two queries *)

Lemma get_orders_eq market_address outcome w :
  get_orders market_address outcome w
  = (Ok (map (fun o => OrderResponse_of o (Order.amount o))
           (filter (listed market_address outcome) (orders (committed w)))),
     mkWorld (committed w) (committed w) (chain w) (clock w)).
Proof. reflexivity. Qed.





Lemma set_amount_twice o a b :
  Order.set_amount (Order.set_amount o a) b = Order.set_amount o b.
Proof. reflexivity. Qed.




(** ** After a cancellation *)

Lemma find_none_all {A} (p : A -> bool) l :
  (forall a, In a l -> p a = false) -> find p l = None.
Proof.
  induction l as [| a l IH]; simpl; intros H; [reflexivity |].
  rewrite (H a) by auto. apply IH. auto.
Qed.

(** The world after a successful cancellation. *)
Lemma post_cancel_ok env order_id w resp w1 :
  post_cancel env order_id w = (Ok resp, w1) ->
  exists o x,
    In o (orders (committed w)) /\ Order.id o = order_id
    /\ In x (transactions (committed w))
    /\ Transaction.order_serial x = Order.order_serial o
    /\ cancellable (Transaction.status x) = true
    /\ resp = OrderResponse_of o (Order.amount o)
    /\ w1 = (let t := mkTables (delete_row order_id (orders (committed w)))
                        (set_row_transaction (Transaction.id x)
                           (fun y => Transaction.set_status y CANCELLED)
                           (transactions (committed w))) in
             mkWorld t t (chain w) (clock w)).
Proof.
  intros H. apply get_db_inv in H. destruct H as (w' & H & ->).
  rewrite cancel_order_eq in H. cbn [working] in H.
  destruct (find _ (orders (committed w))) as [o |] eqn:Efo; [| discriminate].
  destruct (find _ (transactions (committed w))) as [x |] eqn:Efx; [| discriminate].
  destruct (cancellable (Transaction.status x)) eqn:Ec; [| discriminate].
  cbn [negb] in H.
  destruct (to_checksum_address env (Order.market_address o)) as [a | e]; [| discriminate].
  destruct (getMarketState env a) as [s | e]; [| discriminate].
  destruct (String.eqb s "Active"); [| discriminate].
  apply find_some in Efo, Efx. destruct Efo as (Ho & Hid), Efx as (Hx & Hs).
  apply Z.eqb_eq in Hid. apply String.eqb_eq in Hs.
  inversion H; subst. exists o, x. cbn [committed chain clock]. auto 10.
Qed.

(** X3: after a successful cancellation no answer of [get_orderbook]
    shows an order with the cancelled key, and a second cancellation of the
    same key is refused, with the [AttributeError] of the missing order,
    whatever the market says, leaving the world as it is. *)
Theorem cancelled_order_is_gone env order_id w resp w1 :
  post_cancel env order_id w = (Ok resp, w1) ->
  (forall market_address outcome l x,
      fst (get_orders market_address outcome w1) = Ok l ->
      In x l -> OrderResponse.id x <> order_id)
  /\ (forall env',
         post_cancel env' order_id w1
         = (Raise (AttributeError "'NoneType' object has no attribute 'order_serial'"),
            w1)).
Proof.
  intros H. apply post_cancel_ok in H.
  destruct H as (o & x & _ & _ & _ & _ & _ & _ & ->). cbv zeta. split.
  - intros market_address outcome l y Hl Hy. rewrite get_orders_eq in Hl.
    cbn [fst committed orders] in Hl. inversion Hl; subst l. clear Hl.
    apply in_map_iff in Hy. destruct Hy as (o' & <- & Ho').
    apply filter_In in Ho'. destruct Ho' as (Ho' & _).
    apply In_delete_row in Ho'. apply Ho'.
  - intros env'. unfold post_cancel, get_db. rewrite cancel_order_eq.
    cbn [working committed orders chain clock].
    rewrite find_none_all; [reflexivity |].
    intros o' Ho'. apply In_delete_row in Ho'. apply Z.eqb_neq. apply Ho'.
Qed.

(** The cancellation of the first sell of the sample book. *)
Lemma cancelled_order_is_gone_witness :
  post_cancel Sample.env_resolved 1 (snd (post_cancel Sample.env_ok 1 Sample.w0))
  = (Raise (AttributeError "'NoneType' object has no attribute 'order_serial'"),
     snd (post_cancel Sample.env_ok 1 Sample.w0)).
Proof.
  refine (proj2 (cancelled_order_is_gone Sample.env_ok 1 Sample.w0
                   (OrderResponse_of Sample.sell1 5)
                   (snd (post_cancel Sample.env_ok 1 Sample.w0)) _)
            Sample.env_resolved).
  vm_compute. reflexivity.
Defined.



(** ** Requests that fail *)

(** ** What a submission settles *)

Lemma allocations_zero l : allocations 0 l = [].
Proof. destruct l; reflexivity. Qed.

Lemma sum_amount_nonneg l :
  Forall (fun m => 0 < Order.amount m) l -> 0 <= sum (map Order.amount l).
Proof.
  induction 1 as [| m l Hm _ IH]; cbn [map sum fold_right]; [lia |].
  fold (sum (map Order.amount l)). lia.
Qed.

(** The greedy allocation takes the smaller of what is asked and what the
    candidates hold. *)
Lemma allocations_sum l :
  forall rem,
    0 <= rem -> Forall (fun m => 0 < Order.amount m) l ->
    sum (map snd (allocations rem l)) = Z.min rem (sum (map Order.amount l)).
Proof.
  induction l as [| m l IH]; intros rem Hrem Hpos.
  - cbn. lia.
  - inversion Hpos as [| m' l' Hm Hl]; subst.
    pose proof (sum_amount_nonneg l Hl) as Hs.
    cbn [allocations]. destruct (rem =? 0) eqn:E.
    + apply Z.eqb_eq in E. subst rem. cbn [map sum fold_right].
      fold (sum (map Order.amount l)). lia.
    + apply Z.eqb_neq in E. cbn [map sum fold_right snd].
      fold (sum (map snd (allocations (rem - Z.min rem (Order.amount m)) l))).
      fold (sum (map Order.amount l)).
      rewrite IH by (assumption || lia). lia.
Qed.

Lemma allocations_prefix l :
  forall rem, exists rest, l = (map fst (allocations rem l) ++ rest)%list.
Proof.
  induction l as [| m l IH]; intros rem; [exists []; reflexivity |].
  cbn [allocations]. destruct (rem =? 0).
  - exists (m :: l). reflexivity.
  - destruct (IH (rem - Z.min rem (Order.amount m))) as (rest & Hrest).
    exists rest. cbn [map fst app]. f_equal. exact Hrest.
Qed.

Lemma allocations_bounds l :
  forall rem,
    0 <= rem -> Forall (fun m => 0 < Order.amount m) l ->
    Forall (fun a => 0 < snd a <= Order.amount (fst a)) (allocations rem l).
Proof.
  induction l as [| m l IH]; intros rem Hrem Hpos; [constructor |].
  inversion Hpos as [| m' l' Hm Hl]; subst.
  cbn [allocations]. destruct (rem =? 0) eqn:E; [constructor |].
  apply Z.eqb_neq in E. constructor.
  - cbn [fst snd]. lia.
  - apply IH; [lia | assumption].
Qed.

(** Only the last candidate reached can be left with something. *)
Lemma allocations_full_but_last l :
  forall rem al a,
    allocations rem l = (al ++ [a])%list ->
    Forall (fun b => snd b = Order.amount (fst b)) al.
Proof.
  induction l as [| m l IH]; intros rem al a H.
  - destruct al; discriminate.
  - cbn [allocations] in H. destruct (rem =? 0) eqn:E.
    + destruct al; discriminate.
    + destruct al as [| b al]; [constructor |].
      cbn [app] in H. inversion H as [[Hb Hrest]]. constructor.
      * cbn [fst snd].
        destruct (Z.eq_dec (rem - Z.min rem (Order.amount m)) 0) as [Hz | Hz].
        -- rewrite Hz, allocations_zero in Hrest. destruct al; discriminate.
        -- lia.
      * eapply IH. exact Hrest.
Qed.

(** When something is left of the incoming order, every candidate was
    reached and taken entirely. *)
Lemma allocations_exhaust l :
  forall rem,
    0 <= rem -> Forall (fun m => 0 < Order.amount m) l ->
    rem - sum (map snd (allocations rem l)) <> 0 ->
    map fst (allocations rem l) = l
    /\ Forall (fun b => snd b = Order.amount (fst b)) (allocations rem l).
Proof.
  induction l as [| m l IH]; intros rem Hrem Hpos Hleft; [split; constructor |].
  inversion Hpos as [| m' l' Hm Hl]; subst.
  cbn [allocations] in *. destruct (rem =? 0) eqn:E.
  - apply Z.eqb_eq in E. subst rem. cbn in Hleft. lia.
  - apply Z.eqb_neq in E. cbn [map sum fold_right snd fst] in *.
    fold (sum (map snd (allocations (rem - Z.min rem (Order.amount m)) l))) in Hleft.
    pose proof (allocations_sum l (rem - Z.min rem (Order.amount m))
                  ltac:(lia) Hl) as Hs.
    pose proof (sum_amount_nonneg l Hl) as Hn.
    destruct (IH (rem - Z.min rem (Order.amount m))) as (Hfst & Hfull);
      [lia | assumption | lia |].
    split; [f_equal; assumption |].
    constructor; [| assumption]. cbn [fst snd]. lia.
Qed.

(** The loop and the allocation: a loop that ends normally has logged one
    settled call for each allocation, in order, with its candidate and its
    quantity, and returns what the allocations leave. *)
Lemma matching_loop_allocations env order db_order db_transaction l :
  forall rem w r w',
    matching_loop env order db_order db_transaction l rem w = (Ok r, w') ->
    exists calls,
      chain w' = (chain w ++ calls)%list
      /\ Forall2 (fun a co =>
                    (exists rem0, call_for env order db_order (fst a) rem0 (fst co))
                    /\ quantity (fst co) = snd a
                    /\ settled (snd co) = true)
           (allocations rem l) calls
      /\ r = rem - sum (map snd (allocations rem l)).
Proof.
  induction l as [| m rest IH]; intros rem w r w' H; cbn [matching_loop] in H.
  - inversion H; subst. exists []. rewrite app_nil_r. cbn. repeat split; [constructor | lia].
  - cbn [allocations]. destruct (rem =? 0) eqn:E0.
    { inversion H; subst. exists []. rewrite app_nil_r. cbn.
      repeat split; [constructor | lia]. }
    apply bind_inv in H. destruct H as [(found & w1 & H1 & H) | (e & _ & He)];
      [| discriminate].
    rewrite first_transaction_eq in H1. inversion H1; subst w1 found. clear H1.
    destruct (find _ _) as [mt |]; [| discriminate].
    apply bind_inv in H. destruct H as [(rem' & w2 & H2 & H) | (e & _ & He)];
      [| discriminate].
    apply try_except_inv in H2.
    destruct H2 as [(a & H2 & Ha) | (e & w3 & _ & H2)]; [| discriminate].
    inversion Ha; subst a. clear Ha.
    apply settle_pair_ok in H2.
    destruct H2 as (c & Hch & Hcall & Hset & -> & _ & _).
    apply IH in H. destruct H as (calls & Hch' & Hall & ->).
    exists ((c, transferShares env (List.length (chain w)) c) :: calls).
    split; [rewrite Hch', Hch, <- app_assoc; reflexivity |]. split.
    + constructor; [| exact Hall]. cbn [fst snd].
      split; [exists rem; exact Hcall |]. split; [apply Hcall | exact Hset].
    + cbn [map sum fold_right snd].
      fold (sum (map snd (allocations (rem - Z.min rem (Order.amount m)) rest))).
      lia.
Qed.

(** The row the incoming order adds does not change what it matches. *)
Lemma match_order_without_incoming os xs xs' n :
  match_order (mkTables (os ++ [n]) xs) n = match_order (mkTables os xs') n.
Proof.
  unfold match_order. cbn [orders].
  assert (Hself : forall opp,
             (if String.eqb (Order.side n) "buy" then "sell" else "buy") = opp ->
             filter (eligible n opp) (os ++ [n]) = filter (eligible n opp) os).
  { intros opp Hopp. rewrite filter_app. cbn [filter].
    replace (eligible n opp n) with false; [apply app_nil_r |].
    unfold eligible. subst opp.
    destruct (String.eqb (Order.side n) "buy") eqn:E.
    - apply String.eqb_eq in E. rewrite E. cbn. rewrite !andb_false_r. reflexivity.
    - rewrite E. rewrite !andb_false_r. reflexivity. }
  rewrite (Hself _ eq_refl). reflexivity.
Qed.

(** The shape of a successful submission. *)
Lemma post_orders_ok env order w resp w' :
  post_orders env order w = (Ok resp, w') ->
  exists ua rem w2,
    let w0 := mkWorld (committed w) (committed w) (chain w) (clock w) in
    let db_order := new_order env order ua w0 in
    to_checksum_address env (OrderCreate.user_address order) = Ok ua
    /\ matching_loop env order db_order (new_transaction env order ua w0)
         (match_order (committed w) db_order) (OrderCreate.amount order)
         (started env order ua w0) = (Ok rem, w2)
    /\ incoming order resp = db_order
    /\ OrderResponse.amount resp = (if 0 <? rem then rem else 0)
    /\ w' = mkWorld (finished db_order rem (working w2))
              (finished db_order rem (working w2)) (chain w2) (clock w2).
Proof.
  intros H. apply get_db_inv in H. destruct H as (w1 & H & ->).
  apply create_order_inv in H.
  destruct H as [(_ & e & Hr & _) | (a & ua & _ & _ & Hua & H)]; [discriminate |].
  cbv zeta in H.
  destruct H as [(_ & _ & e & Hr & _) | (_ & r1 & w2 & Hloop & H)]; [discriminate |].
  destruct r1 as [rem | e]; [| destruct H; discriminate].
  destruct H as ([(_ & Hr) | (_ & _ & msg & Hr)] & ->); [| discriminate].
  inversion Hr; subst resp. clear Hr.
  exists ua, rem, w2. cbv zeta. split; [assumption |]. split.
  - rewrite <- Hloop. f_equal. symmetry.
    destruct (committed w) as [os xs]. apply match_order_without_incoming.
  - repeat split; reflexivity.
Qed.

Lemma Forall2_map_fst {A B C} (P : A -> C -> Prop) (l : list (A * B)) l' :
  Forall2 (fun a c => P (fst a) c) l l' -> Forall2 P (map fst l) l'.
Proof. induction 1; cbn; constructor; auto. Qed.

Lemma Forall2_impl {A B} (P Q : A -> B -> Prop) l l' :
  (forall a b, P a b -> Q a b) -> Forall2 P l l' -> Forall2 Q l l'.
Proof. intros H. induction 1; constructor; auto. Qed.

(** The candidates of a submission have a positive amount. *)
Lemma match_order_positive db n :
  Forall (fun m => 0 < Order.amount m) (match_order db n).
Proof.
  apply Forall_forall. intros m Hm. apply match_order_In in Hm.
  destruct Hm as (_ & _ & Hm).
  destruct (String.eqb (Order.side n) "buy");
    destruct Hm as ((_ & _ & _ & Ha & _) & _); exact Ha.
Qed.

(** X6: the calls of a successful submission are the greedy allocation
    over the candidates, in the order of [match_order]: the k-th call is
    built for the k-th candidate, with the smaller of what is still to fill
    and the amount of that candidate as quantity, and it is settled; the
    loop stops at the first candidate that leaves nothing to fill. *)
Theorem calls_are_allocations env order w resp w' calls :
  post_orders env order w = (Ok resp, w') ->
  chain w' = (chain w ++ calls)%list ->
  Forall2 (fun a co =>
             (exists rem0,
                 call_for env order (incoming order resp) (fst a) rem0 (fst co))
             /\ quantity (fst co) = snd a
             /\ settled (snd co) = true)
    (allocations (OrderCreate.amount order)
       (match_order (committed w) (incoming order resp)))
    calls.
Proof.
  intros H Hch. apply post_orders_ok in H.
  destruct H as (ua & rem & w2 & _ & Hloop & -> & _ & ->). cbv zeta in *.
  apply matching_loop_allocations in Hloop.
  destruct Hloop as (calls' & Hch' & Hall & _).
  cbn [chain started] in Hch, Hch'. rewrite Hch' in Hch.
  apply app_inv_head in Hch. subst calls'. exact Hall.
Qed.

(** The two calls of a buy of 7 in the sample book. *)
Lemma calls_are_allocations_witness :
  Forall2 (fun a co =>
             (exists rem0,
                 call_for Sample.env_ok Sample.buy7
                   (Order.mk 3 "serial-3" "bob" "market" "yes" Sample.p060 7 "buy"
                      "Active" 100)
                   (fst a) rem0 (fst co))
             /\ quantity (fst co) = snd a
             /\ settled (snd co) = true)
    [(Sample.sell1, 5); (Sample.sell2, 2)]
    (chain (snd (post_orders Sample.env_ok Sample.buy7 Sample.w0))).
Proof.
  refine (calls_are_allocations Sample.env_ok Sample.buy7 Sample.w0
            (OrderResponse.mk 3 "serial-3" "bob" "market" "yes" Sample.p060 0
               "buy" "Active" 100)
            (snd (post_orders Sample.env_ok Sample.buy7 Sample.w0)) _ _ _).
  - vm_compute. reflexivity.
  - vm_compute. reflexivity.
Defined.

Lemma quantities_of_allocations env order db_order al calls :
  Forall2 (fun a co =>
             (exists rem0, call_for env order db_order (fst a) rem0 (fst co))
             /\ quantity (fst co) = snd a
             /\ settled (snd co) = true) al calls ->
  map (fun co => quantity (fst co)) calls = map snd al.
Proof.
  induction 1 as [| a co al cs (_ & Hq & _) _ IH]; cbn; [reflexivity |].
  rewrite Hq, IH. reflexivity.
Qed.

(** X7: in a successful submission of a non-negative amount the
    quantities settled add up to the smaller of the amount submitted and
    the total amount of the candidates, and the response shows what is
    left: the amount submitted less that sum. *)
Theorem settled_quantity_is_min env order w resp w' calls :
  0 <= OrderCreate.amount order ->
  post_orders env order w = (Ok resp, w') ->
  chain w' = (chain w ++ calls)%list ->
  sum (map (fun co => quantity (fst co)) calls)
  = Z.min (OrderCreate.amount order)
      (sum (map Order.amount (match_order (committed w) (incoming order resp))))
  /\ OrderResponse.amount resp
     = OrderCreate.amount order - sum (map (fun co => quantity (fst co)) calls).
Proof.
  intros Hamt H Hch.
  pose proof (calls_are_allocations_aux := post_orders_ok env order w resp w' H).
  destruct calls_are_allocations_aux as (ua & rem & w2 & _ & Hloop & Hinc & Hresp & Hw).
  cbv zeta in *. rewrite Hinc. subst w'.
  apply matching_loop_allocations in Hloop.
  destruct Hloop as (calls' & Hch' & Hall & Hrem).
  cbn [chain started] in Hch, Hch'. rewrite Hch' in Hch.
  apply app_inv_head in Hch. subst calls'.
  set (l := match_order (committed w) _) in *.
  assert (Hq : map (fun co => quantity (fst co)) calls
               = map snd (allocations (OrderCreate.amount order) l)).
  { apply (quantities_of_allocations _ _ _ _ _ Hall). }
  rewrite Hq.
  pose proof (allocations_sum l (OrderCreate.amount order) Hamt
                (match_order_positive _ _)) as Hs.
  pose proof (sum_amount_nonneg l (match_order_positive _ _)) as Hn.
  split; [exact Hs |].
  rewrite Hresp, Hrem.
  destruct (0 <? OrderCreate.amount order
                 - sum (map snd (allocations (OrderCreate.amount order) l))) eqn:E;
    [reflexivity |].
  apply Z.ltb_ge in E. lia.
Qed.

(** A buy of 7 in the sample book, where the sells hold 10. *)
Lemma settled_quantity_is_min_witness :
  sum (map (fun co => quantity (fst co))
         (chain (snd (post_orders Sample.env_ok Sample.buy7 Sample.w0))))
  = 7.
Proof.
  refine (proj1 (settled_quantity_is_min Sample.env_ok Sample.buy7 Sample.w0
                   (OrderResponse.mk 3 "serial-3" "bob" "market" "yes" Sample.p060 0
                      "buy" "Active" 100)
                   (snd (post_orders Sample.env_ok Sample.buy7 Sample.w0))
                   _ _ _ _)).
  - simpl. lia.
  - vm_compute. reflexivity.
  - vm_compute. reflexivity.
Defined.

Lemma Forall2_Forall_l {A B} (P : A -> Prop) (R Q : A -> B -> Prop) l l' :
  (forall a b, P a -> R a b -> Q a b) ->
  Forall P l -> Forall2 R l l' -> Forall2 Q l l'.
Proof.
  intros H HP HR. induction HR as [| a b l l' Hab _ IH]; constructor.
  - inversion HP; subst. auto.
  - inversion HP; subst. auto.
Qed.

Lemma match_order_nonpositive db n :
  Order.amount n <= 0 -> match_order db n = [].
Proof.
  intros H. unfold match_order.
  destruct (Order.amount n <=? 0) eqn:E; [reflexivity |].
  apply Z.leb_gt in E. lia.
Qed.

Lemma allocations_nonpositive db n :
  Order.amount n <= 0 -> allocations (Order.amount n) (match_order db n) = [].
Proof. intros H. rewrite match_order_nonpositive by assumption. reflexivity. Qed.

(** X8: the calls of a successful submission go down the list of
    [match_order] from its head, one per candidate, each for a positive
    quantity that the candidate holds; a candidate is left with something
    only if it is the last one reached; and the incoming order is left with
    something only if every candidate was reached and taken entirely. *)
Theorem partial_fill_only_last env order w resp w' calls :
  post_orders env order w = (Ok resp, w') ->
  chain w' = (chain w ++ calls)%list ->
  exists ms rest,
    match_order (committed w) (incoming order resp) = (ms ++ rest)%list
    /\ Forall2 (fun m co => 0 < quantity (fst co) <= Order.amount m) ms calls
    /\ (forall ms1 m cs1 c,
           ms = (ms1 ++ [m])%list -> calls = (cs1 ++ [c])%list ->
           Forall2 (fun m co => quantity (fst co) = Order.amount m) ms1 cs1)
    /\ (0 < OrderResponse.amount resp ->
        rest = []
        /\ Forall2 (fun m co => quantity (fst co) = Order.amount m) ms calls).
Proof.
  intros H Hch.
  pose proof (calls_of := matching_loop_allocations).
  apply post_orders_ok in H.
  destruct H as (ua & rem & w2 & _ & Hloop & Hinc & Hresp & ->). cbv zeta in *.
  rewrite Hinc. clear Hinc.
  apply calls_of in Hloop. clear calls_of.
  destruct Hloop as (calls' & Hch' & Hall & Hrem).
  cbn [chain started] in Hch, Hch'. rewrite Hch' in Hch.
  apply app_inv_head in Hch. subst calls'. clear Hch'.
  set (n := new_order env order ua _) in *.
  set (l := match_order (committed w) n) in *.
  set (al := allocations (OrderCreate.amount order) l) in *.
  assert (Hq : Forall2 (fun a co => quantity (fst co) = snd a) al calls).
  { eapply Forall2_impl; [| exact Hall]. cbv beta. tauto. }
  destruct (Z_lt_le_dec (OrderCreate.amount order) 0) as [Hneg | Hamt].
  { assert (Hnil : al = []).
    { apply (allocations_nonpositive (committed w) n). simpl. lia. }
    rewrite Hnil in *. inversion Hq; subst calls.
    exists [], l. split; [reflexivity |]. split; [constructor |]. split.
    - intros ms1 m cs1 c Hms. destruct ms1; discriminate.
    - intros Hpos. rewrite Hresp, Hrem in Hpos. cbn in Hpos.
      destruct (0 <? OrderCreate.amount order - 0) eqn:E; [| lia].
      apply Z.ltb_lt in E. lia. }
  pose proof (match_order_positive (committed w) n) as Hpos. fold l in Hpos.
  destruct (allocations_prefix l (OrderCreate.amount order)) as (rest & Hrest).
  fold al in Hrest.
  exists (map fst al), rest. split; [exact Hrest |]. split; [| split].
  - apply Forall2_map_fst.
    eapply Forall2_Forall_l; [| apply (allocations_bounds l _ Hamt Hpos) | exact Hq].
    cbv beta. intros a co Hb Hqa. rewrite Hqa. exact Hb.
  - intros ms1 m cs1 c Hms Hcs.
    apply map_eq_app in Hms. destruct Hms as (al1 & al2 & Hal & Hms1 & Hm).
    destruct al2 as [| a [| a' al2]]; try discriminate. subst ms1.
    pose proof (allocations_full_but_last l _ al1 a Hal) as Hfull.
    fold al in Hal. rewrite Hal, Hcs in Hq.
    apply Forall2_app_inv_l in Hq.
    destruct Hq as (cs1' & cs2' & Hq1 & Hq2 & Heq).
    inversion Hq2 as [| a0 c0 l0 l0' _ Hnil]; subst. inversion Hnil; subst.
    apply app_inj_tail in Heq. destruct Heq as (-> & _).
    apply Forall2_map_fst.
    eapply Forall2_Forall_l; [| exact Hfull | exact Hq1].
    cbv beta. intros a1 co Hf Hqa. congruence.
  - intros Hleft. rewrite Hresp, Hrem in Hleft.
    destruct (allocations_exhaust l (OrderCreate.amount order) Hamt Hpos)
      as (Hfst & Hfull).
    { fold al. destruct (0 <? OrderCreate.amount order - sum (map snd al)) eqn:E;
        lia. }
    fold al in Hfst, Hfull. split.
    + rewrite Hfst in Hrest. rewrite <- (app_nil_r l) in Hrest at 1.
      apply app_inv_head in Hrest. auto.
    + apply Forall2_map_fst.
      eapply Forall2_Forall_l; [| exact Hfull | exact Hq].
      cbv beta. intros a1 co Hf Hqa. congruence.
Qed.

(** A buy of 7 in the sample book: the first sell entirely, the second
    for 2 of its 5. *)
Lemma partial_fill_only_last_witness :
  exists ms rest,
    [Sample.sell1; Sample.sell2] = (ms ++ rest)%list
    /\ Forall2 (fun m co => 0 < quantity (fst co) <= Order.amount m) ms
         (chain (snd (post_orders Sample.env_ok Sample.buy7 Sample.w0)))
    /\ (forall ms1 m cs1 c,
           ms = (ms1 ++ [m])%list ->
           chain (snd (post_orders Sample.env_ok Sample.buy7 Sample.w0))
           = (cs1 ++ [c])%list ->
           Forall2 (fun m co => quantity (fst co) = Order.amount m) ms1 cs1)
    /\ (0 < 0 ->
        rest = []
        /\ Forall2 (fun m co => quantity (fst co) = Order.amount m) ms
             (chain (snd (post_orders Sample.env_ok Sample.buy7 Sample.w0)))).
Proof.
  refine (partial_fill_only_last Sample.env_ok Sample.buy7 Sample.w0
            (OrderResponse.mk 3 "serial-3" "bob" "market" "yes" Sample.p060 0
               "buy" "Active" 100)
            (snd (post_orders Sample.env_ok Sample.buy7 Sample.w0)) _ _ _).
  - vm_compute. reflexivity.
  - vm_compute. reflexivity.
Defined.

(** ** The book after a submission *)

Lemma match_order_In_conv db n o :
  In o (orders db) -> 0 < Order.amount n ->
  (if String.eqb (Order.side n) "buy"
   then resting_match n "sell" o
        /\ float_le (Order.price o) (Order.price n) = true
   else resting_match n "buy" o
        /\ float_le (Order.price n) (Order.price o) = true) ->
  In o (match_order db n).
Proof.
  intros Hin Hpos Hm. unfold match_order.
  destruct (Order.amount n <=? 0) eqn:E; [apply Z.leb_le in E; lia |].
  destruct (String.eqb (Order.side n) "buy"); destruct Hm as (Hm & Hp);
    apply (Permutation_in _ (Permutation_sym (order_by_perm _ _)));
    apply filter_In; (split; [| exact Hp]);
    apply filter_In; (split; [exact Hin |]); apply eligible_iff; exact Hm.
Qed.

Lemma match_order_started_eq env order ua w :
  match_order (working (started env order ua w)) (new_order env order ua w)
  = match_order (working w) (new_order env order ua w).
Proof.
  unfold started, new_order. cbn [working].
  destruct (working w) as [os xs]. cbn [orders transactions].
  apply match_order_without_incoming.
Qed.

(** An order is not on the side it matches. *)
Lemma opposite_side_differs n :
  Order.side n <> (if String.eqb (Order.side n) "buy" then "sell" else "buy").
Proof.
  destruct (String.eqb (Order.side n) "buy") eqn:E.
  - apply String.eqb_eq in E. rewrite E. discriminate.
  - intros H. rewrite H in E. discriminate.
Qed.

(** X9: a submission that leaves the incoming order in the book leaves
    the book uncrossed: on the committed tables [match_order] returns
    nothing for that order, so no order of the other side within its price
    bound is left. *)
Theorem resting_order_leaves_book_uncrossed env order w resp w' :
  post_orders env order w = (Ok resp, w') ->
  0 < OrderResponse.amount resp ->
  match_order (committed w') (incoming order resp) = [].
Proof.
  intros H Hleft. apply post_orders_ok in H.
  destruct H as (ua & rem & w2 & _ & Hloop & -> & Hresp & ->). cbv zeta in *.
  set (w0 := mkWorld (committed w) (committed w) (chain w) (clock w)) in *.
  set (n := new_order env order ua w0) in *.
  assert (Hrem : 0 < rem).
  { rewrite Hresp in Hleft. destruct (0 <? rem) eqn:E; [apply Z.ltb_lt in E |]; lia. }
  eapply (matching_loop_rule env order _ _
            (fun l rem w2 =>
               (forall m, In m l -> Order.id m <> Order.id n)
               /\ (forall o, In o (orders (working w2)) ->
                             Order.id o = Order.id n -> Order.side o = Order.side n)
               /\ (rem <> 0 ->
                   forall o, In o (orders (working w2)) ->
                             Order.id o <> Order.id n ->
                             In o (orders (committed w))
                             /\ (In o (match_order (committed w) n) -> In o l))))
    in Hloop.
  - destruct Hloop as (l' & (_ & Hside & Hother) & Hend).
    destruct Hend as [-> | Hz]; [| lia].
    specialize (Hother ltac:(lia)).
    cbn [committed].
    destruct (match_order (finished n rem (working w2)) n) as [| o l] eqn:Em;
      [reflexivity |]. exfalso.
    assert (Ho : In o (match_order (finished n rem (working w2)) n))
      by (rewrite Em; left; reflexivity).
    apply match_order_In in Ho. destruct Ho as (Hin & Hpos & Hm).
    unfold finished in Hin.
    apply Z.ltb_lt in Hrem. rewrite Hrem in Hin. cbn [orders] in Hin.
    apply In_set_row_order in Hin. destruct Hin as (o0 & Ho0 & Heq).
    destruct (Order.id o0 =? Order.id n) eqn:Ei.
    + apply Z.eqb_eq in Ei. pose proof (Hside o0 Ho0 Ei) as Hs. subst o.
      assert (Hso : Order.side o0
                    = if String.eqb (Order.side n) "buy" then "sell" else "buy").
      { destruct (String.eqb (Order.side n) "buy");
          destruct Hm as ((_ & _ & Hso & _) & _); exact Hso. }
      apply (opposite_side_differs n). congruence.
    + apply Z.eqb_neq in Ei. subst o0.
      destruct (Hother o Ho0 Ei) as (Hold & Hnot).
      apply Hnot. apply match_order_In_conv; assumption.
  - intros m rest rem0 mt w3 rem' w3' (Hrest & Hside & Hother) Hnz _ Hs.
    apply settle_pair_ok in Hs. destruct Hs as (c & _ & _ & _ & -> & _ & ->).
    pose proof (Hrest m (or_introl eq_refl)) as Hmi.
    split; [intros m' Hm'; apply Hrest; right; assumption |]. split.
    + intros o' Ho' Hid. apply In_orders_filled_iff in Ho'; [| assumption].
      destruct Ho' as (o & Ho & [(Ei & _ & ->) | [(Em & _ & ->) | (_ & _ & ->)]]);
        cbn [Order.side Order.set_amount]; apply Hside; auto.
    + intros Hnz' o' Ho' Hid. apply In_orders_filled_iff in Ho'; [| assumption].
      destruct Ho' as (o & Ho & [(Ei & _ & ->) | [(Em & Hnzm & ->) | (Ei & Em & ->)]]).
      * exfalso. apply Hid. exact Ei.
      * exfalso. lia.
      * destruct (Hother Hnz o Ho Ei) as (Hold & Hcand). split; [assumption |].
        intros Hc. destruct (Hcand Hc) as [<- | Hr]; [contradiction | exact Hr].
  - split; [| split].
    + intros m Hm. change (committed w) with (working w0) in Hm.
      unfold n in Hm. rewrite <- match_order_started_eq in Hm.
      apply match_order_started in Hm. tauto.
    + intros o Ho Hid. cbn [working started orders] in Ho.
      apply in_app_or in Ho. destruct Ho as [Ho | [<- | []]]; [| reflexivity].
      exfalso.
      pose proof (fresh_id_gt (map Order.id (orders (committed w))) (Order.id o)
                    (in_map Order.id _ _ Ho)) as Hlt.
      rewrite Hid in Hlt. simpl in Hlt. lia.
    + intros _ o Ho Hid. cbn [working started orders] in Ho.
      apply in_app_or in Ho. destruct Ho as [Ho | [<- | []]]; [| contradiction].
      auto.
Qed.

(** A buy of 15 that rests with 5 in the sample book. *)
Lemma resting_order_leaves_book_uncrossed_witness :
  match_order
    (committed (snd (post_orders Sample.env_ok
                       (OrderCreate.mk "bob" "market" "yes" Sample.p060 15 "buy")
                       Sample.w0)))
    (Order.mk 3 "serial-3" "bob" "market" "yes" Sample.p060 15 "buy" "Active" 100)
  = [].
Proof.
  refine (resting_order_leaves_book_uncrossed Sample.env_ok
            (OrderCreate.mk "bob" "market" "yes" Sample.p060 15 "buy") Sample.w0
            (OrderResponse.mk 3 "serial-3" "bob" "market" "yes" Sample.p060 5
               "buy" "Active" 100) _ _ _).
  - vm_compute. reflexivity.
  - simpl. lia.
Defined.

(** ** Sides and prices that are not checked *)

(** X10: the side of a submission is not validated: when it is neither
    "buy" nor "sell" the order is matched as a sell would be, against the
    resting buys, and every settlement call is made with one and the same
    address, the candidate's, as seller and as buyer. *)
Theorem unknown_side_settles_with_itself env order w r w' calls :
  OrderCreate.side order <> "buy" ->
  OrderCreate.side order <> "sell" ->
  post_orders env order w = (r, w') ->
  chain w' = (chain w ++ calls)%list ->
  Forall (fun co =>
            seller (fst co) = buyer (fst co)
            /\ exists m,
                In m (orders (committed w))
                /\ Order.side m = "buy"
                /\ float_le (OrderCreate.price order) (Order.price m) = true
                /\ to_checksum_address env (Order.user_address m)
                   = Ok (seller (fst co)))
    calls.
Proof.
  intros Hb Hs H Hch.
  eapply Forall_impl; [| exact (post_orders_calls env order w r w' calls H Hch)].
  cbv beta. intros co (m & db_order & rem & Hin & Hside & Hcall & Hm).
  destruct Hcall as (Hsel & Hbuy & _). rewrite Hside in Hsel, Hbuy.
  assert (Eb : String.eqb (OrderCreate.side order) "buy" = false)
    by (apply String.eqb_neq; assumption).
  assert (Es : String.eqb (OrderCreate.side order) "sell" = false)
    by (apply String.eqb_neq; assumption).
  rewrite Eb in Hbuy, Hm. rewrite Es in Hsel. destruct Hm as (Hms & Hp).
  split; [congruence |]. exists m. auto.
Qed.

(** A submission with the side "hold" against one resting buy. *)
Lemma unknown_side_settles_with_itself_witness :
  Forall (fun co =>
            seller (fst co) = buyer (fst co)
            /\ exists m,
                In m [Order.mk 1 "serial-1" "alice" "market" "yes" Sample.p060 5
                        "buy" "Active" 10]
                /\ Order.side m = "buy"
                /\ float_le Sample.p050 (Order.price m) = true
                /\ to_checksum_address Sample.env_ok (Order.user_address m)
                   = Ok (seller (fst co)))
    (chain
       (snd (post_orders Sample.env_ok
               (OrderCreate.mk "bob" "market" "yes" Sample.p050 5 "hold")
               (mkWorld
                  (mkTables
                     [Order.mk 1 "serial-1" "alice" "market" "yes" Sample.p060 5
                        "buy" "Active" 10]
                     [Transaction.mk 1 "serial-1" "alice" "market" "yes" "buy" 0 5
                        Sample.p060 OPEN 11 None])
                  (mkTables [] []) [] 100)))).
Proof.
  refine (unknown_side_settles_with_itself Sample.env_ok
            (OrderCreate.mk "bob" "market" "yes" Sample.p050 5 "hold")
            (mkWorld
               (mkTables
                  [Order.mk 1 "serial-1" "alice" "market" "yes" Sample.p060 5
                     "buy" "Active" 10]
                  [Transaction.mk 1 "serial-1" "alice" "market" "yes" "buy" 0 5
                     Sample.p060 OPEN 11 None])
               (mkTables [] []) [] 100)
            _ _ _ _ _ (surjective_pairing _) _).
  - discriminate.
  - discriminate.
  - vm_compute. reflexivity.
Defined.

Lemma binary_round_aux_sign sx mx ex lx :
  match binary_round_aux prec emax sx mx ex lx with
  | S754_zero s | S754_infinity s | S754_finite s _ _ => s = sx
  | S754_nan => True
  end.
Proof.
  unfold binary_round_aux.
  destruct (shr_fexp prec emax mx ex lx) as [mrs' e'].
  destruct (shr_fexp prec emax _ e' loc_Exact) as [mrs'' e''].
  destruct (shr_m mrs''); [reflexivity | | exact I].
  destruct (e'' <=? emax - prec); reflexivity.
Qed.

(** X11: the fixed-point form of a price keeps its sign and needs a
    finite price: a zero is sent as 0, a positive price never as a negative
    integer nor a negative price as a positive one, and for an infinite
    price or a NaN the conversion raises, [OverflowError] or [ValueError],
    before any call is built. *)
Theorem price_fixed_point_sign :
  (forall s, price_fixed_point (S754_zero s) = Ok 0)
  /\ (forall s, exists msg, price_fixed_point (S754_infinity s) = Raise (OverflowError msg))
  /\ (exists msg, price_fixed_point S754_nan = Raise (ValueError msg))
  /\ (forall m e n, price_fixed_point (S754_finite false m e) = Ok n -> 0 <= n)
  /\ (forall m e n, price_fixed_point (S754_finite true m e) = Ok n -> n <= 0).
Proof.
  unfold price_fixed_point. rewrite float_of_int_ten18.
  split; [| split; [| split; [| split]]].
  - intros s. destruct s; reflexivity.
  - intros s. destruct s; eexists; reflexivity.
  - eexists. reflexivity.
  - intros m e n. unfold float_mul, SFmul. cbn [xorb].
    pose proof (binary_round_aux_sign false (Zpos (m * 7812500000000000)) (e + 7)
                  loc_Exact) as Hs.
    destruct (binary_round_aux _ _ _ _ _ _) as [s | s | | s m' e'];
      cbn [int_of_float]; intros H; inversion H; subst; [lia |].
    cbn [cond_Zopp]. apply Z.shiftl_nonneg. lia.
  - intros m e n. unfold float_mul, SFmul. cbn [xorb].
    pose proof (binary_round_aux_sign true (Zpos (m * 7812500000000000)) (e + 7)
                  loc_Exact) as Hs.
    destruct (binary_round_aux _ _ _ _ _ _) as [s | s | | s m' e'];
      cbn [int_of_float]; intros H; inversion H; subst; [lia |].
    cbn [cond_Zopp].
    assert (0 <= Z.shiftl (Zpos m') e') by (apply Z.shiftl_nonneg; lia). lia.
Qed.

(** The price 0.55. *)
Lemma price_fixed_point_sign_witness : 0 <= 550000000000000064.
Proof.
  refine (proj1 (proj2 (proj2 (proj2 price_fixed_point_sign)))
            4953959590107546%positive (-53) 550000000000000064 _).
  vm_compute. reflexivity.
Defined.

(** ** The history of records *)

Section Records.
Variable R : Transaction.t -> Transaction.t -> Prop.
Hypothesis R_refl : forall x, R x x.
Hypothesis R_trans : forall x y z, R x y -> R y z -> R x z.
Hypothesis R_fill : forall ma p now x, R x (fill ma p now x).




End Records.








(** ** The record of the incoming order *)

(** At an iteration that fills, the record of the candidate is not the
    record of the incoming order, and both have something to give. *)
Lemma loop_ok_head i j s old m rest rem t mt :
  loop_ok i j s old (m :: rest) rem t ->
  rem <> 0 ->
  find (fun x => String.eqb (Transaction.order_serial x) (Order.order_serial m))
       (transactions t) = Some mt ->
  j <> Transaction.id mt /\ 0 < rem /\ 0 < Order.amount m.
Proof.
  intros (Hbook & Hrem & (xj & Hxj & Hxjid & Hxjs) & Hinc & _ & Hcand & _) Hnz Hfind.
  destruct Hbook as (B1 & B2 & B3 & B4 & B5 & B6).
  destruct (Hinc Hnz) as (oi & Hoi & Hoiid & Hois & Hoia).
  destruct (Hcand m (or_introl eq_refl)) as (Hm & Hmi).
  apply find_some in Hfind. destruct Hfind as (Hmt & Hmts).
  apply String.eqb_eq in Hmts.
  destruct (B5 m Hm) as (Hma & _).
  split; [| split; [lia | assumption]].
  intros E. apply Hmi. rewrite <- Hoiid. f_equal.
  apply (NoDup_key_inj Order.order_serial (orders t)); auto.
  assert (mt = xj).
  { apply (NoDup_key_inj Transaction.id (transactions t)); auto. congruence. }
  subst mt. congruence.
Qed.



(** ** How a submission fails on a well-formed store *)

Lemma distinct_NoDup l : NoDup l -> distinct l = true.
Proof.
  induction 1 as [| s l Hnotin _ IH]; cbn; [reflexivity |].
  rewrite IH, andb_true_r. apply negb_true_iff.
  destruct (existsb (String.eqb s) l) eqn:E; [| reflexivity].
  apply existsb_exists in E. destruct E as (s' & Hin & Heq).
  apply String.eqb_eq in Heq. subst s'. contradiction.
Qed.




(** ** Orders a submission leaves alone *)

(** X15: a submission touches no order that it cannot match: with
    unique keys, an order of another market or outcome, of the side of the
    incoming order, or not Active, is in the committed table after the
    submission as it was before, whatever the result. *)
Theorem other_orders_untouched env order w r w' o :
  NoDup (map Order.id (orders (committed w))) ->
  post_orders env order w = (r, w') ->
  In o (orders (committed w)) ->
  Order.market_address o <> OrderCreate.market_address order
  \/ Order.outcome o <> OrderCreate.outcome order
  \/ Order.side o = OrderCreate.side order
  \/ Order.market_state o <> "Active" ->
  In o (orders (committed w')).
Proof.
  intros Hnd H Ho Hother. apply get_db_inv in H. destruct H as (w1 & H & ->).
  cbn [committed]. apply create_order_inv in H.
  destruct H as [(-> & _) | (a & ua & _ & _ & _ & H)]; [assumption |].
  cbv zeta in H. destruct H as [(_ & -> & _) | (_ & r1 & w2 & Hloop & H)];
    [assumption |].
  set (w0 := mkWorld (committed w) (committed w) (chain w) (clock w)) in *.
  set (n := new_order env order ua w0) in *.
  destruct r1 as [rem | e].
  2:{ destruct H as (_ & ->). cbn [committed].
      apply matching_loop_trace in Hloop. destruct Hloop as (Hc & _).
      rewrite Hc. assumption. }
  destruct H as (_ & ->). cbn [committed].
  assert (Hid : Order.id o <> Order.id n).
  { pose proof (fresh_id_gt (map Order.id (orders (committed w))) (Order.id o)
                  (in_map Order.id _ _ Ho)) as Hlt.
    change (Order.id n) with (fresh_id (map Order.id (orders (committed w)))).
    lia. }
  assert (Hnot : forall m,
             In m (match_order (working (started env order ua w0)) n) ->
             In m (orders (committed w)) /\ Order.id m <> Order.id n
             /\ Order.id m <> Order.id o).
  { intros m Hm. pose proof (match_order_started env order ua w0 m Hm) as (Hin & _ & Hmi).
    split; [exact Hin |]. split; [exact Hmi |]. intros Heq.
    assert (m = o) by (apply (NoDup_key_inj Order.id (orders (committed w))); auto).
    subst m. apply match_order_In in Hm. destruct Hm as (_ & _ & Hm).
    assert (Hrm : resting_match n
                    (if String.eqb (Order.side n) "buy" then "sell" else "buy") o).
    { destruct (String.eqb (Order.side n) "buy"); apply Hm. }
    destruct Hrm as (Hma & Hou & Hsi & _ & Hst).
    destruct Hother as [Hx | [Hx | [Hx | Hx]]]; try (cbn in *; contradiction).
    apply (opposite_side_differs n). cbn in *. congruence. }
  eapply (matching_loop_rule env order _ _
            (fun l rem w2 =>
               (forall m, In m l -> Order.id m <> Order.id n
                                    /\ Order.id m <> Order.id o)
               /\ In o (orders (working w2))))
    in Hloop.
  - destruct Hloop as (l' & (_ & Hin) & _).
    unfold finished. destruct (0 <? rem); cbn [orders].
    + apply In_set_row_order. exists o. split; [assumption |].
      apply Z.eqb_neq in Hid. rewrite Hid. reflexivity.
    + apply In_delete_row. auto.
  - intros m rest rem0 mt w3 rem' w3' (Hrest & Hin) _ _ Hs.
    apply settle_pair_ok in Hs. destruct Hs as (c & _ & _ & _ & -> & _ & ->).
    destruct (Hrest m (or_introl eq_refl)) as (Hmi & Hmo).
    split; [intros m' Hm'; apply Hrest; right; assumption |].
    apply In_orders_filled_iff; [assumption |].
    exists o. split; [assumption |]. right; right. auto.
  - split.
    + intros m Hm. apply Hnot in Hm. tauto.
    + cbn. apply in_or_app. auto.
Qed.

(** The sells of the sample book after a sell is submitted. *)
Lemma other_orders_untouched_witness :
  In Sample.sell1
    (orders (committed
               (snd (post_orders Sample.env_ok
                       (OrderCreate.mk "dave" "market" "yes" Sample.p050 4 "sell")
                       Sample.w0)))).
Proof.
  refine (other_orders_untouched Sample.env_ok
            (OrderCreate.mk "dave" "market" "yes" Sample.p050 4 "sell")
            Sample.w0 _ _ Sample.sell1 _ (surjective_pairing _) _ _).
  - simpl. repeat constructor; simpl; intuition discriminate.
  - simpl. auto.
  - right; right; left. reflexivity.
Defined.

(** ** Refused cancellations *)

(** X16: a cancellation of an order that is in the table is refused
    without any change to the world when the record of the order is missing
    (404 "Order not found"), when the status of the record is neither OPEN
    nor PARTIALLY_DEALT (400 "Order cannot be cancelled"), and when the
    market is read as anything but "Active" (400 "Market not in active
    phase"). *)
Theorem cancel_order_rejections env order_id w o :
  find (fun o => Order.id o =? order_id) (orders (working w)) = Some o ->
  (find (fun x => String.eqb (Transaction.order_serial x) (Order.order_serial o))
        (transactions (working w)) = None ->
   cancel_order env order_id w = (Raise (HTTPException 404 "Order not found"), w))
  /\ (forall x,
         find (fun x => String.eqb (Transaction.order_serial x) (Order.order_serial o))
              (transactions (working w)) = Some x ->
         cancellable (Transaction.status x) = false ->
         cancel_order env order_id w
         = (Raise (HTTPException 400 "Order cannot be cancelled"), w))
  /\ (forall x a s,
         find (fun x => String.eqb (Transaction.order_serial x) (Order.order_serial o))
              (transactions (working w)) = Some x ->
         cancellable (Transaction.status x) = true ->
         to_checksum_address env (Order.market_address o) = Ok a ->
         getMarketState env a = Ok s -> s <> "Active" ->
         cancel_order env order_id w
         = (Raise (HTTPException 400 "Market not in active phase"), w)).
Proof.
  intros Ho. rewrite cancel_order_eq, Ho. split; [| split].
  - intros ->. reflexivity.
  - intros x -> ->. reflexivity.
  - intros x a s -> -> -> -> Hs. cbn [negb].
    destruct (String.eqb s "Active") eqn:E; [| reflexivity].
    apply String.eqb_eq in E. contradiction.
Qed.

(** The first sell of the sample book when the market is Resolved. *)
Lemma cancel_order_rejections_witness :
  cancel_order Sample.env_resolved 1 Sample.w0
  = (Raise (HTTPException 400 "Market not in active phase"), Sample.w0).
Proof.
  refine (proj2 (proj2 (cancel_order_rejections Sample.env_resolved 1 Sample.w0
                          Sample.sell1 _))
            Sample.tsell1 "market" "Resolved" _ _ _ _ _).
  - reflexivity.
  - reflexivity.
  - reflexivity.
  - reflexivity.
  - reflexivity.
  - discriminate.
Defined.

(** ** What the book shows can be cancelled *)

Lemma find_unique {A K} (key : A -> K) (eqb : K -> K -> bool) l a :
  (forall k k', eqb k k' = true <-> k = k') ->
  NoDup (map key l) -> In a l ->
  find (fun x => eqb (key x) (key a)) l = Some a.
Proof.
  intros Heqb Hnd Ha. destruct (find _ l) as [b |] eqn:E.
  - apply find_some in E. destruct E as (Hb & Hk). apply Heqb in Hk.
    f_equal. apply (NoDup_key_inj key l); assumption.
  - pose proof (find_none _ _ E a Ha) as Hno. cbv beta in Hno.
    assert (Ht : eqb (key a) (key a) = true) by (apply Heqb; reflexivity).
    congruence.
Qed.

(** X17: on a well-formed store every order that [get_orderbook] shows
    can be cancelled while its market is read as "Active": the
    cancellation of the key shown succeeds, answers with the order as the
    book showed it, and neither "Order not found" nor "Order cannot be
    cancelled" occurs. *)
Theorem listed_order_can_be_cancelled env w market_address outcome l x a :
  book_ok (committed w) ->
  fst (get_orders market_address outcome w) = Ok l ->
  In x l ->
  to_checksum_address env market_address = Ok a ->
  getMarketState env a = Ok "Active" ->
  exists w', post_cancel env (OrderResponse.id x) w = (Ok x, w').
Proof.
  intros (B1 & _ & _ & B4 & B5 & _) Hl Hx Ha Hs.
  unfold get_orders, get_db, get_orderbook, bind, get_working, ret in Hl.
  cbn [fst working] in Hl. inversion Hl; subst l. clear Hl.
  apply in_map_iff in Hx. destruct Hx as (o & <- & Ho).
  apply filter_In in Ho. destruct Ho as (Ho & Hlisted).
  unfold listed in Hlisted. rewrite !andb_true_iff in Hlisted.
  destruct Hlisted as (((Hm & _) & _) & _). apply String.eqb_eq in Hm.
  destruct (B5 o Ho) as (_ & y & Hy & Hys & _ & Hyc).
  unfold post_cancel, get_db. rewrite cancel_order_eq. cbn [working].
  change (OrderResponse.id (OrderResponse_of o (Order.amount o))) with (Order.id o).
  rewrite (find_unique Order.id Z.eqb (orders (committed w)) o Z.eqb_eq B1 Ho).
  rewrite <- Hys.
  rewrite (find_unique Transaction.order_serial String.eqb
             (transactions (committed w)) y String.eqb_eq B4 Hy).
  rewrite Hyc, Hm, Ha, Hs. cbn [negb]. rewrite String.eqb_refl.
  eexists. reflexivity.
Qed.

(** The first sell of the sample book, as the book shows it. *)
Lemma listed_order_can_be_cancelled_witness :
  exists w',
    post_cancel Sample.env_ok 1 Sample.w0
    = (Ok (OrderResponse_of Sample.sell1 (Order.amount Sample.sell1)), w').
Proof.
  refine (listed_order_can_be_cancelled Sample.env_ok Sample.w0 "market" "yes"
            _ (OrderResponse_of Sample.sell1 (Order.amount Sample.sell1)) "market"
            _ eq_refl _ _ _).
  - unfold book_ok. simpl.
    split; [| split; [| split; [| split; [| split]]]];
      try (repeat constructor; simpl; intuition discriminate).
    + intros o [<- | [<- | []]]; (split; [reflexivity |]).
      * exists Sample.tsell1. simpl. auto.
      * exists Sample.tsell2. simpl. auto.
    + intros x [<- | [<- | []]]; unfold transaction_ok, total; simpl;
        (split; [lia |]); (split; [right; apply status_open; reflexivity |]);
        (split; [intros H; contradiction | discriminate]).
  - left. reflexivity.
  - reflexivity.
  - reflexivity.
Defined.

(** * The claims on matching and on the counters, on the whole loop *)

(** ** What the incoming order is matched against *)

(** An order that is no candidate of the incoming order is in the committed
    table after the submission as it was before, whatever the result. *)
Lemma non_candidates_untouched env order w r w' o :
  NoDup (map Order.id (orders (committed w))) ->
  post_orders env order w = (r, w') ->
  In o (orders (committed w)) ->
  (forall ua,
      ~ In o (match_order (working (started env order ua (session w)))
                (new_order env order ua (session w)))) ->
  In o (orders (committed w')).
Proof.
  intros Hnd H Ho Hother. apply get_db_inv in H. destruct H as (w1 & H & ->).
  cbn [committed]. apply create_order_inv in H.
  destruct H as [(-> & _) | (a & ua & _ & _ & _ & H)]; [assumption |].
  cbv zeta in H. destruct H as [(_ & -> & _) | (_ & r1 & w2 & Hloop & H)];
    [assumption |].
  specialize (Hother ua). unfold session in Hother.
  set (w0 := mkWorld (committed w) (committed w) (chain w) (clock w)) in *.
  set (n := new_order env order ua w0) in *.
  destruct r1 as [rem | e].
  2:{ destruct H as (_ & ->). cbn [committed].
      apply matching_loop_trace in Hloop. destruct Hloop as (Hc & _).
      rewrite Hc. assumption. }
  destruct H as (_ & ->). cbn [committed].
  assert (Hid : Order.id o <> Order.id n).
  { pose proof (fresh_id_gt (map Order.id (orders (committed w))) (Order.id o)
                  (in_map Order.id _ _ Ho)) as Hlt.
    change (Order.id n) with (fresh_id (map Order.id (orders (committed w)))).
    lia. }
  assert (Hnot : forall m,
             In m (match_order (working (started env order ua w0)) n) ->
             Order.id m <> Order.id n /\ Order.id m <> Order.id o).
  { intros m Hm.
    pose proof (match_order_started env order ua w0 m Hm) as (Hin & _ & Hmi).
    split; [exact Hmi |]. intros Heq.
    assert (m = o) by (apply (NoDup_key_inj Order.id (orders (committed w))); auto).
    subst m. contradiction. }
  eapply (matching_loop_rule env order _ _
            (fun l rem w2 =>
               (forall m, In m l -> Order.id m <> Order.id n
                                    /\ Order.id m <> Order.id o)
               /\ In o (orders (working w2))))
    in Hloop.
  - destruct Hloop as (l' & (_ & Hin) & _).
    unfold finished. destruct (0 <? rem); cbn [orders].
    + apply In_set_row_order. exists o. split; [assumption |].
      apply Z.eqb_neq in Hid. rewrite Hid. reflexivity.
    + apply In_delete_row. auto.
  - intros m rest rem0 mt w3 rem' w3' (Hrest & Hin) _ _ Hs.
    apply settle_pair_ok in Hs. destruct Hs as (c & _ & _ & _ & -> & _ & ->).
    destruct (Hrest m (or_introl eq_refl)) as (Hmi & Hmo).
    split; [intros m' Hm'; apply Hrest; right; assumption |].
    apply In_orders_filled_iff; [assumption |].
    exists o. split; [assumption |]. right; right. auto.
  - split.
    + exact Hnot.
    + cbn. apply in_or_app. auto.
Qed.

(** C3, amended: for an incoming order with [amount <= 0] [match_order]
    returns nothing; for one with [amount > 0] it returns exactly the rows
    on the other side with the same market and outcome, [amount > 0] and
    [market_state] Active within the price bound: for a buy the sells with
    [price <=] the incoming price by ascending price, for a sell the buys
    with [price >=] the incoming price by descending price. Every
    settlement call of a submission, whatever its result, is the call
    [settle_pair] builds for a committed row on the other side within that
    bound, with the owner, the price and at most the amount of that row;
    and a row outside the bound is in the committed table after the
    submission as it was before. *)
Theorem match_order_spec :
  (forall db new_order,
      Order.amount new_order <= 0 -> match_order db new_order = [])
  /\ (forall db new_order,
         0 < Order.amount new_order ->
         (Order.side new_order = "buy" ->
          Permutation (match_order db new_order)
            (filter (fun o => eligible new_order "sell" o
                              && float_le (Order.price o) (Order.price new_order))
               (orders db))
          /\ (forall o, In o (match_order db new_order)
                        <-> In o (orders db) /\ resting_match new_order "sell" o
                            /\ float_le (Order.price o) (Order.price new_order) = true)
          /\ StronglySorted
               (fun a b => float_le (Order.price a) (Order.price b) = true)
               (match_order db new_order))
         /\ (Order.side new_order = "sell" ->
             Permutation (match_order db new_order)
               (filter (fun o => eligible new_order "buy" o
                                 && float_le (Order.price new_order) (Order.price o))
                  (orders db))
             /\ (forall o, In o (match_order db new_order)
                           <-> In o (orders db) /\ resting_match new_order "buy" o
                               /\ float_le (Order.price new_order) (Order.price o)
                                  = true)
             /\ StronglySorted
                  (fun a b => float_le (Order.price b) (Order.price a) = true)
                  (match_order db new_order)))
  /\ (forall env order w r w' calls,
         post_orders env order w = (r, w') ->
         chain w' = (chain w ++ calls)%list ->
         Forall (fun co =>
                   exists m ua rem,
                     to_checksum_address env (OrderCreate.user_address order) = Ok ua
                     /\ In m (orders (committed w))
                     /\ call_for env order (new_order env order ua (session w)) m rem
                          (fst co)
                     /\ if String.eqb (OrderCreate.side order) "buy"
                        then Order.side m = "sell"
                             /\ float_le (Order.price m) (OrderCreate.price order)
                                = true
                        else Order.side m = "buy"
                             /\ float_le (OrderCreate.price order) (Order.price m)
                                = true)
           calls)
  /\ (forall env order w r w' o,
         NoDup (map Order.id (orders (committed w))) ->
         post_orders env order w = (r, w') ->
         In o (orders (committed w)) ->
         (if String.eqb (OrderCreate.side order) "buy"
          then float_le (Order.price o) (OrderCreate.price order) = false
          else float_le (OrderCreate.price order) (Order.price o) = false) ->
         In o (orders (committed w'))).
Proof.
  split; [| split; [| split]].
  - intros db new_order. apply match_order_nonpositive.
  - intros db new_order. apply match_order_exact.
  - intros env order w r w' calls. apply post_orders_calls_for.
  - intros env order w r w' o Hnd H Ho Hout.
    apply (non_candidates_untouched env order w r w' o Hnd H Ho).
    intros ua Hm. apply match_order_In in Hm. destruct Hm as (_ & _ & Hm).
    cbn [new_order Order.side Order.price] in Hm.
    destruct (String.eqb (OrderCreate.side order) "buy");
      destruct Hm as (_ & Hp); congruence.
Qed.

(** The candidates of a buy of 10 at 0.6 in the sample book. *)
Lemma match_order_spec_witness :
  Permutation
    (match_order Sample.book
       (Order.mk 3 "serial-3" "bob" "market" "yes" Sample.p060 10 "buy" "Active" 100))
    [Sample.sell1; Sample.sell2].
Proof.
  refine (proj1 (proj1 (proj1 (proj2 match_order_spec) Sample.book
                          (Order.mk 3 "serial-3" "bob" "market" "yes" Sample.p060 10
                             "buy" "Active" 100) _) _)).
  - reflexivity.
  - reflexivity.
Defined.

(** ** What a fill does to the two records *)

Lemma Forall2_map_r {A B} (P : A -> B -> Prop) (f : A -> B) l :
  (forall x, P x (f x)) -> Forall2 P l (map f l).
Proof. intros H. induction l; cbn; constructor; auto. Qed.

(** The two counters of every record after the success path of
    [settle_pair]. *)
Lemma settle_pair_debits env order db_order db_transaction m mt rem w rem' w' :
  settle_pair env order db_order db_transaction m mt rem w = (Ok rem', w') ->
  Forall2
    (fun x x' =>
       Transaction.id x' = Transaction.id x
       /\ Transaction.deal_amount x'
          = Transaction.deal_amount x
            + fills_of (Transaction.id db_transaction) (Transaction.id mt) x
              * Z.min rem (Order.amount m)
       /\ Transaction.remaining_amount x'
          = Transaction.remaining_amount x
            - fills_of (Transaction.id db_transaction) (Transaction.id mt) x
              * Z.min rem (Order.amount m))
    (transactions (working w)) (transactions (working w')).
Proof.
  intros H. apply settle_pair_ok in H. destruct H as (c & _ & _ & _ & _ & _ & ->).
  rewrite transactions_filled_tables. unfold set_row_transaction.
  rewrite map_map. apply Forall2_map_r. intros x. unfold fills_of.
  destruct (Transaction.id x =? Transaction.id db_transaction) eqn:Ej;
    rewrite ?fill_id;
    destruct (Transaction.id x =? Transaction.id mt) eqn:Ek;
    cbn [fill Transaction.id Transaction.deal_amount Transaction.remaining_amount];
    (split; [reflexivity |]); split; lia.
Qed.

(** At the head of an iteration the record of the incoming order and the
    record of the candidate are two rows of the table, each showing as
    remaining what is left of its order. *)
Lemma loop_ok_records i j s old m rest rem t mt :
  loop_ok i j s old (m :: rest) rem t ->
  rem <> 0 ->
  find (fun x => String.eqb (Transaction.order_serial x) (Order.order_serial m))
       (transactions t) = Some mt ->
  0 < Z.min rem (Order.amount m)
  /\ Transaction.id mt <> j
  /\ In mt (transactions t)
  /\ Transaction.remaining_amount mt = Order.amount m
  /\ exists xj,
      In xj (transactions t) /\ Transaction.id xj = j
      /\ Transaction.remaining_amount xj = rem.
Proof.
  intros (Hbook & Hrem & (xj & Hxj & Hxjid & Hxjs) & Hinc & _ & Hcand & Hnd & Hold)
         Hnz Hfind.
  destruct Hbook as (B1 & B2 & B3 & B4 & B5 & B6).
  destruct (Hinc Hnz) as (oi & Hoi & Hoiid & Hois & Hoia).
  destruct (Hcand m (or_introl eq_refl)) as (Hm & Hmi).
  destruct (B5 oi Hoi) as (_ & xi & Hxi & Hxis & Hxir & Hxic).
  assert (xi = xj).
  { apply (NoDup_key_inj Transaction.order_serial (transactions t)); auto. congruence. }
  subst xi.
  apply find_some in Hfind. destruct Hfind as (Hmt & Hmts).
  apply String.eqb_eq in Hmts.
  destruct (B5 m Hm) as (Hma & xm & Hxm & Hxms & Hxmr & Hxmc).
  assert (xm = mt).
  { apply (NoDup_key_inj Transaction.order_serial (transactions t)); auto. congruence. }
  subst xm.
  assert (Hsm : Order.order_serial m <> s).
  { intros E. apply Hmi. rewrite <- Hoiid. f_equal.
    apply (NoDup_key_inj Order.order_serial (orders t)); auto. congruence. }
  split; [lia |]. split.
  { intros E. apply Hsm.
    assert (mt = xj).
    { apply (NoDup_key_inj Transaction.id (transactions t)); auto. congruence. }
    subst mt. congruence. }
  split; [assumption |]. split; [assumption |].
  exists xj. split; [assumption |]. split; [assumption |]. congruence.
Qed.

Lemma allocations_In l :
  forall rem a, In a (allocations rem l) -> In (fst a) l.
Proof.
  induction l as [| m l IH]; intros rem a H; cbn [allocations] in H; [contradiction |].
  destruct (rem =? 0); [contradiction |].
  destruct H as [<- | H]; [left; reflexivity | right; eapply IH; eauto].
Qed.

(** The serials at the head of an iteration: the candidates have serials of
    their own, and none has the serial of the incoming order. *)
Lemma loop_ok_serials i j s old m rest rem t :
  loop_ok i j s old (m :: rest) rem t ->
  rem <> 0 ->
  Order.order_serial m <> s
  /\ forall m', In m' rest ->
                Order.order_serial m' <> s
                /\ Order.order_serial m' <> Order.order_serial m.
Proof.
  intros (Hbook & Hrem & _ & Hinc & _ & Hcand & Hnd & _) Hnz.
  destruct Hbook as (B1 & B2 & B3 & B4 & B5 & B6).
  destruct (Hinc Hnz) as (oi & Hoi & Hoiid & Hois & Hoia).
  assert (Hs : forall m', In m' (m :: rest) -> Order.order_serial m' <> s).
  { intros m' Hm' E. destruct (Hcand m' Hm') as (Hin & Hid). apply Hid.
    rewrite <- Hoiid. f_equal.
    apply (NoDup_key_inj Order.order_serial (orders t)); auto. congruence. }
  split; [apply Hs; left; reflexivity |].
  intros m' Hm'. split; [apply Hs; right; assumption |].
  intros E. cbn [map] in Hnd. inversion Hnd as [| a l Hnotin _]; subst.
  apply Hnotin.
  assert (m' = m).
  { apply (NoDup_key_inj Order.order_serial (orders t)); auto.
    - apply Hcand. right. assumption.
    - apply Hcand. left. reflexivity. }
  subst m'. apply in_map. assumption.
Qed.

(** The loop and the records of the candidates: when the loop ends
    normally the record of every candidate it reached shows the quantity
    taken from it, and the records of the orders it did not reach are as
    they were. *)
Lemma matching_loop_debits env order db_order db_transaction s old l :
  forall rem w r w',
    loop_ok (Order.id db_order) (Transaction.id db_transaction) s old l rem
      (working w) ->
    matching_loop env order db_order db_transaction l rem w = (Ok r, w') ->
    Forall (fun a =>
              exists x x',
                In x (transactions (working w))
                /\ Transaction.order_serial x = Order.order_serial (fst a)
                /\ In x' (transactions (working w'))
                /\ Transaction.id x' = Transaction.id x
                /\ Transaction.deal_amount x' = Transaction.deal_amount x + snd a
                /\ Transaction.remaining_amount x'
                   = Transaction.remaining_amount x - snd a)
      (allocations rem l)
    /\ (forall x, In x (transactions (working w)) ->
                  Transaction.order_serial x <> s ->
                  (forall m, In m l ->
                             Transaction.order_serial x <> Order.order_serial m) ->
                  In x (transactions (working w'))).
Proof.
  induction l as [| m rest IH]; intros rem w r w' Hok H; cbn [matching_loop] in H.
  - inversion H; subst. split; [constructor | auto].
  - cbn [allocations]. destruct (rem =? 0) eqn:E0.
    { inversion H; subst. split; [constructor | auto]. }
    apply Z.eqb_neq in E0.
    apply bind_inv in H. destruct H as [(found & w1 & H1 & H) | (e & _ & He)];
      [| discriminate].
    rewrite first_transaction_eq in H1. inversion H1; subst w1 found. clear H1.
    destruct (find _ _) as [mt |] eqn:Ef; [| discriminate].
    apply bind_inv in H. destruct H as [(rem' & w2 & H2 & H) | (e & _ & He)];
      [| discriminate].
    apply try_except_inv in H2.
    destruct H2 as [(a & H2 & Ha) | (e & w3 & _ & H2)]; [| discriminate].
    inversion Ha; subst a. clear Ha.
    pose proof (loop_ok_step _ _ _ _ _ _ _ _ _ (clock w) Hok E0 Ef) as Hok2.
    destruct (loop_ok_head _ _ _ _ _ _ _ _ _ Hok E0 Ef) as (Hjk & _ & _).
    destruct (loop_ok_serials _ _ _ _ _ _ _ _ Hok E0) as (Hms & Hrest).
    pose proof (In_transactions_filled_iff (Order.id db_order)
                  (Transaction.id db_transaction) m (Transaction.id mt) rem
                  (clock w) (working w)) as HT.
    destruct Hok as (Hbook & _ & (xj & Hxj & Hxjid & Hxjs) & _).
    destruct Hbook as (_ & B2 & _ & B4 & _ & _).
    pose proof (find_some _ _ Ef) as (Hmt & Hmts). apply String.eqb_eq in Hmts.
    apply settle_pair_ok in H2. destruct H2 as (c & _ & _ & _ & -> & _ & Hwk).
    rewrite <- Hwk in Hok2, HT.
    destruct (IH _ _ _ _ Hok2 H) as (Hall & Hframe).
    assert (Hkeep : forall x, In x (transactions (working w)) ->
                              Transaction.order_serial x <> s ->
                              Transaction.order_serial x <> Order.order_serial m ->
                              In x (transactions (working w2))).
    { intros x Hx Hs1 Hs2. apply HT; [assumption |]. exists x. split; [assumption |].
      right; right. split; [| split; [| reflexivity]].
      - intros E. apply Hs1.
        assert (x = xj).
        { apply (NoDup_key_inj Transaction.id (transactions (working w))); auto.
          congruence. }
        congruence.
      - intros E. apply Hs2.
        assert (x = mt).
        { apply (NoDup_key_inj Transaction.id (transactions (working w))); auto. }
        congruence. }
    split.
    + constructor.
      * cbn [fst snd].
        exists mt,
          (fill (Z.min rem (Order.amount m)) (Order.price m)
             (second_reading (Transaction.id db_transaction)
                (Z.min rem (Order.amount m)) (clock w) (working w)) mt).
        split; [assumption |]. split; [assumption |]. split.
        { apply Hframe.
          - apply HT; [assumption |]. exists mt. split; [assumption |].
            right; left. split; reflexivity.
          - rewrite fill_serial. congruence.
          - intros m' Hm'. rewrite fill_serial, Hmts.
            intros E. apply (proj2 (Hrest m' Hm')). symmetry. exact E. }
        split; [reflexivity |]. split; reflexivity.
      * rewrite Forall_forall in Hall. apply Forall_forall. intros a Ha.
        destruct (Hall a Ha) as (x2 & x' & Hx2 & Hx2s & Hrestx).
        exists x2, x'. split; [| split; [assumption | assumption]].
        pose proof (allocations_In _ _ _ Ha) as Hin.
        destruct (Hrest _ Hin) as (Hn1 & Hn2).
        apply HT in Hx2; [| assumption].
        destruct Hx2 as (x & Hx & [(Ej & ->) | [(Ek & ->) | (Ej & Ek & ->)]]).
        -- exfalso. rewrite fill_serial in Hx2s.
           assert (x = xj).
           { apply (NoDup_key_inj Transaction.id (transactions (working w))); auto.
             congruence. }
           subst x. congruence.
        -- exfalso. rewrite fill_serial in Hx2s.
           assert (x = mt).
           { apply (NoDup_key_inj Transaction.id (transactions (working w))); auto. }
           subst x. congruence.
        -- assumption.
    + intros x Hx Hs1 Hs2. apply Hframe.
      * apply Hkeep; auto. apply Hs2. left. reflexivity.
      * assumption.
      * intros m' Hm'. apply Hs2. right. assumption.
Qed.

Lemma post_orders_debits env order w resp w' :
  book_ok (committed w) ->
  ~ In (uuid4 env) (map Transaction.order_serial (transactions (committed w))) ->
  post_orders env order w = (Ok resp, w') ->
  Forall (fun a =>
            exists x x',
              In x (transactions (committed w))
              /\ Transaction.order_serial x = Order.order_serial (fst a)
              /\ In x' (transactions (committed w'))
              /\ Transaction.id x' = Transaction.id x
              /\ Transaction.deal_amount x' = Transaction.deal_amount x + snd a
              /\ Transaction.remaining_amount x'
                 = Transaction.remaining_amount x - snd a)
    (allocations (OrderCreate.amount order)
       (match_order (committed w) (incoming order resp))).
Proof.
  intros Hbook Hfresh H.
  apply post_orders_ok in H. destruct H as (ua & rem & w2 & H). cbv zeta in H.
  destruct H as (_ & Hloop & -> & _ & ->).
  set (w0 := mkWorld (committed w) (committed w) (chain w) (clock w)) in *.
  destruct (Z_lt_le_dec 0 (OrderCreate.amount order)) as [Hpos | Hle].
  2:{ rewrite match_order_nonpositive by (cbn; lia). constructor. }
  pose proof (loop_ok_started env order ua w0 Hbook Hfresh Hpos) as Hok.
  rewrite match_order_started_eq in Hok. cbn [working] in Hok.
  destruct (matching_loop_debits _ _ _ _ _ _ _ _ _ _ _ Hok Hloop) as (Hall & _).
  rewrite Forall_forall in Hall. apply Forall_forall. intros a Ha.
  destruct (Hall a Ha) as (x & x' & Hx & Hxs & Hx' & Hrest).
  exists x, x'. cbn [committed]. rewrite transactions_finished.
  split; [| split; [assumption | split; assumption]].
  cbn [started working transactions] in Hx. apply in_app_or in Hx.
  destruct Hx as [Hx | [<- | []]]; [assumption |]. exfalso.
  cbn [new_transaction Transaction.order_serial] in Hxs.
  apply allocations_In, match_order_In in Ha. destruct Ha as (Hin & _).
  destruct Hbook as (_ & _ & _ & _ & B5 & _).
  destruct (B5 _ Hin) as (_ & y & Hy & Hys & _).
  apply Hfresh. apply in_map_iff. exists y. split; [congruence | assumption].
Qed.

Lemma post_orders_incoming_debit env order w resp w' :
  book_ok (committed w) ->
  ~ In (uuid4 env) (map Transaction.order_serial (transactions (committed w))) ->
  0 < OrderCreate.amount order ->
  post_orders env order w = (Ok resp, w') ->
  exists x',
    In x' (transactions (committed w'))
    /\ Transaction.order_serial x' = OrderResponse.order_serial resp
    /\ Transaction.deal_amount x'
       = sum (map snd (allocations (OrderCreate.amount order)
                         (match_order (committed w) (incoming order resp))))
    /\ Transaction.remaining_amount x'
       = OrderCreate.amount order
         - sum (map snd (allocations (OrderCreate.amount order)
                           (match_order (committed w) (incoming order resp)))).
Proof.
  intros Hbook Hfresh Hpos H. apply post_orders_ok in H.
  destruct H as (ua & rem & w2 & Hua & Hloop & Hinc & Hresp & ->). cbv zeta in *.
  set (w0 := mkWorld (committed w) (committed w) (chain w) (clock w)) in *.
  assert (Hser : OrderResponse.order_serial resp = uuid4 env).
  { apply (f_equal Order.order_serial) in Hinc. exact Hinc. }
  rewrite Hinc, Hser.
  destruct (matching_loop_allocations _ _ _ _ _ _ _ _ _ Hloop) as (_ & _ & _ & Hrem).
  change (committed w) with (working w0) in Hloop.
  rewrite <- match_order_started_eq in Hloop.
  set (amount := OrderCreate.amount order) in *.
  set (j := Transaction.id (new_transaction env order ua w0)) in *.
  eapply (matching_loop_rule env order _ _
            (fun l rem w2 =>
               loop_ok (Order.id (new_order env order ua w0)) j (uuid4 env)
                 (transactions (committed w)) l rem (working w2)
               /\ exists x,
                   In x (transactions (working w2))
                   /\ Transaction.id x = j
                   /\ Transaction.order_serial x = uuid4 env
                   /\ Transaction.deal_amount x = amount - rem
                   /\ Transaction.remaining_amount x = rem))
    in Hloop.
  - destruct Hloop as (l' & (Hok & x & Hx & _ & Hxs & Hxd & Hxr) & _).
    exists x. cbn [committed]. rewrite transactions_finished.
    split; [assumption |]. split; [assumption |]. split; lia.
  - intros m rest rem0 mt w3 rem' w3' (Hok & x & Hx & Hxid & Hxs & Hxd & Hxr) Hnz Hfind Hs.
    apply settle_pair_ok in Hs. destruct Hs as (c & _ & _ & _ & -> & _ & ->).
    destruct (loop_ok_head _ _ _ _ _ _ _ _ _ Hok Hnz Hfind) as (Hjk & Hr0 & Hm0).
    split; [apply loop_ok_step; assumption |].
    exists (fill (Z.min rem0 (Order.amount m)) (Order.price m) (clock w3) x).
    split.
    { apply In_transactions_filled_iff; [exact Hjk |]. exists x. auto. }
    cbn [fill Transaction.id Transaction.order_serial
         Transaction.deal_amount Transaction.remaining_amount].
    repeat split; try assumption; lia.
  - split; [apply (loop_ok_started env order ua w0); assumption |].
    exists (new_transaction env order ua w0).
    split; [cbn; apply in_or_app; right; left; reflexivity |].
    cbn. repeat split; try reflexivity. unfold amount. lia.
Qed.

(** C4: the sum [deal_amount + remaining_amount] of a record is the amount
    of its order when [create_order] builds it. A successful fill adds the
    matched amount to [deal_amount] and takes it from [remaining_amount] on
    the records with the key of the record of the incoming order and with
    the key of the record of the candidate, and leaves both fields of every
    other record; in the loop these are two records of the table, so each
    is debited once. After a successful submission to a well-formed store
    the record of every candidate reached shows the quantity taken from it
    and the record of the incoming order the sum of the quantities. Every
    record of the committed table keeps its sum through a submission,
    whatever its result, and both fields through a cancellation. *)
Theorem deal_plus_remaining_is_original env :
  (forall order ua w,
      total (new_transaction env order ua w) = OrderCreate.amount order)
  /\ (forall order db_order db_transaction m mt rem w rem' w',
         settle_pair env order db_order db_transaction m mt rem w = (Ok rem', w') ->
         Forall2
           (fun x x' =>
              Transaction.id x' = Transaction.id x
              /\ Transaction.deal_amount x'
                 = Transaction.deal_amount x
                   + fills_of (Transaction.id db_transaction) (Transaction.id mt) x
                     * Z.min rem (Order.amount m)
              /\ Transaction.remaining_amount x'
                 = Transaction.remaining_amount x
                   - fills_of (Transaction.id db_transaction) (Transaction.id mt) x
                     * Z.min rem (Order.amount m))
           (transactions (working w)) (transactions (working w')))
  /\ (forall order db_order db_transaction s old m rest mt rem w rem' w',
         loop_ok (Order.id db_order) (Transaction.id db_transaction) s old
           (m :: rest) rem (working w) ->
         rem <> 0 ->
         find (fun x => String.eqb (Transaction.order_serial x) (Order.order_serial m))
              (transactions (working w)) = Some mt ->
         settle_pair env order db_order db_transaction m mt rem w = (Ok rem', w') ->
         0 < Z.min rem (Order.amount m)
         /\ Transaction.id mt <> Transaction.id db_transaction
         /\ In mt (transactions (working w))
         /\ exists xj xj' mt',
             In xj (transactions (working w))
             /\ Transaction.id xj = Transaction.id db_transaction
             /\ In xj' (transactions (working w'))
             /\ Transaction.id xj' = Transaction.id xj
             /\ Transaction.deal_amount xj'
                = Transaction.deal_amount xj + Z.min rem (Order.amount m)
             /\ Transaction.remaining_amount xj'
                = Transaction.remaining_amount xj - Z.min rem (Order.amount m)
             /\ In mt' (transactions (working w'))
             /\ Transaction.id mt' = Transaction.id mt
             /\ Transaction.deal_amount mt'
                = Transaction.deal_amount mt + Z.min rem (Order.amount m)
             /\ Transaction.remaining_amount mt'
                = Transaction.remaining_amount mt - Z.min rem (Order.amount m))
  /\ (forall order w resp w',
         book_ok (committed w) ->
         ~ In (uuid4 env) (map Transaction.order_serial (transactions (committed w))) ->
         0 < OrderCreate.amount order ->
         post_orders env order w = (Ok resp, w') ->
         Forall (fun a =>
                   exists x x',
                     In x (transactions (committed w))
                     /\ Transaction.order_serial x = Order.order_serial (fst a)
                     /\ In x' (transactions (committed w'))
                     /\ Transaction.id x' = Transaction.id x
                     /\ Transaction.deal_amount x' = Transaction.deal_amount x + snd a
                     /\ Transaction.remaining_amount x'
                        = Transaction.remaining_amount x - snd a)
           (allocations (OrderCreate.amount order)
              (match_order (committed w) (incoming order resp)))
         /\ exists x',
             In x' (transactions (committed w'))
             /\ Transaction.order_serial x' = OrderResponse.order_serial resp
             /\ Transaction.deal_amount x'
                = sum (map snd (allocations (OrderCreate.amount order)
                                  (match_order (committed w) (incoming order resp))))
             /\ Transaction.remaining_amount x'
                = OrderCreate.amount order
                  - sum (map snd (allocations (OrderCreate.amount order)
                                    (match_order (committed w)
                                       (incoming order resp)))))
  /\ (forall order w r w',
         post_orders env order w = (r, w') ->
         Forall2 same_total (transactions (committed w)) (transactions (committed w'))
         \/ exists xs' x',
             transactions (committed w') = (xs' ++ [x'])%list
             /\ Forall2 same_total (transactions (committed w)) xs'
             /\ total x' = OrderCreate.amount order)
  /\ (forall order_id w r w',
         post_cancel env order_id w = (r, w') ->
         Forall2 (fun x x' =>
                    Transaction.id x' = Transaction.id x
                    /\ Transaction.deal_amount x' = Transaction.deal_amount x
                    /\ Transaction.remaining_amount x' = Transaction.remaining_amount x)
           (transactions (committed w)) (transactions (committed w'))).
Proof.
  split; [| split; [| split; [| split; [| split]]]].
  - intros. unfold total, new_transaction. simpl. lia.
  - intros order db_order db_transaction m mt rem w rem' w'.
    apply settle_pair_debits.
  - intros order db_order db_transaction s old m rest mt rem w rem' w' Hok Hnz Hfind Hs.
    destruct (loop_ok_records _ _ _ _ _ _ _ _ _ Hok Hnz Hfind)
      as (Hq & Hne & Hmt & _ & xj & Hxj & Hxjid & _).
    split; [assumption |]. split; [assumption |]. split; [assumption |].
    apply settle_pair_ok in Hs. destruct Hs as (c & _ & _ & _ & _ & _ & Hwk).
    pose proof (In_transactions_filled_iff (Order.id db_order)
                  (Transaction.id db_transaction) m (Transaction.id mt) rem
                  (clock w) (working w)) as HT.
    rewrite <- Hwk in HT.
    exists xj,
      (fill (Z.min rem (Order.amount m)) (Order.price m) (clock w) xj),
      (fill (Z.min rem (Order.amount m)) (Order.price m)
         (second_reading (Transaction.id db_transaction)
            (Z.min rem (Order.amount m)) (clock w) (working w)) mt).
    split; [assumption |]. split; [assumption |].
    split; [apply HT; [congruence |]; exists xj; auto |].
    split; [reflexivity |]. split; [reflexivity |]. split; [reflexivity |].
    split; [apply HT; [congruence |]; exists mt; auto |].
    split; [reflexivity |]. split; reflexivity.
  - intros order w resp w' Hbook Hfresh Hpos H. split.
    + apply (post_orders_debits env order w resp w'); assumption.
    + apply (post_orders_incoming_debit env order w resp w'); assumption.
  - intros order w r w'. apply post_orders_same_total.
  - intros order_id w r w'. apply post_cancel_same_amounts.
Qed.

(** The records after a buy of 10 in the sample book: 5 is taken from
    each of the two sells and 10 is dealt on the record of the buy. *)
Lemma deal_plus_remaining_is_original_witness :
  Forall (fun a =>
            exists x x',
              In x (transactions Sample.book)
              /\ Transaction.order_serial x = Order.order_serial (fst a)
              /\ In x' (transactions
                          (committed
                             (snd (post_orders Sample.env_ok Sample.buy10 Sample.w0))))
              /\ Transaction.id x' = Transaction.id x
              /\ Transaction.deal_amount x' = Transaction.deal_amount x + snd a
              /\ Transaction.remaining_amount x'
                 = Transaction.remaining_amount x - snd a)
    [(Sample.sell1, 5); (Sample.sell2, 5)]
  /\ exists x',
      In x' (transactions
               (committed (snd (post_orders Sample.env_ok Sample.buy10 Sample.w0))))
      /\ Transaction.order_serial x' = "serial-3"
      /\ Transaction.deal_amount x' = 10
      /\ Transaction.remaining_amount x' = 10 - 10.
Proof.
  refine (proj1 (proj2 (proj2 (proj2 (deal_plus_remaining_is_original Sample.env_ok))))
            Sample.buy10 Sample.w0
            (OrderResponse.mk 3 "serial-3" "bob" "market" "yes" Sample.p060 0
               "buy" "Active" 100)
            (snd (post_orders Sample.env_ok Sample.buy10 Sample.w0)) _ _ _ _).
  - unfold book_ok. simpl.
    split; [| split; [| split; [| split; [| split]]]];
      try (repeat constructor; simpl; intuition discriminate).
    + intros o [<- | [<- | []]]; (split; [reflexivity |]).
      * exists Sample.tsell1. simpl. auto.
      * exists Sample.tsell2. simpl. auto.
    + intros x [<- | [<- | []]]; unfold transaction_ok, total; simpl;
        (split; [lia |]); (split; [right; apply status_open; reflexivity |]);
        (split; [intros H; contradiction | discriminate]).
  - simpl. intuition discriminate.
  - simpl. lia.
  - vm_compute. reflexivity.
Defined.

(** ** Requests that fail *)

Lemma float_le_nan_r a : float_le a S754_nan = false.
Proof. destruct a as [[] | [] | | [] ? ?]; reflexivity. Qed.

Lemma float_le_nan_l a : float_le S754_nan a = false.
Proof. destruct a as [[] | [] | | [] ? ?]; reflexivity. Qed.

Lemma filter_none {A} (p : A -> bool) l :
  (forall x, p x = false) -> filter p l = [].
Proof. intros H. induction l as [| x l IH]; cbn; [| rewrite H]; auto. Qed.

(** Nothing is within the bound of a NaN. *)
Lemma match_order_nan db n : Order.price n = S754_nan -> match_order db n = [].
Proof.
  intros Hp. unfold match_order. rewrite Hp.
  destruct (Order.amount n <=? 0); [reflexivity |].
  destruct (String.eqb (Order.side n) "buy").
  - rewrite (filter_none (fun o => float_le (Order.price o) S754_nan));
      [reflexivity | intros x; apply float_le_nan_r].
  - rewrite (filter_none (fun o => float_le S754_nan (Order.price o)));
      [reflexivity | intros x; apply float_le_nan_l].
Qed.

(** X5: a submission at a finite price that ends with an exception has
    committed nothing. At a NaN price it is otherwise: a submission of a
    positive amount that gets through the market gate and the flush
    matches nothing, makes no settlement call, is committed, and fails
    when the response is built on the refreshed order; the request ends
    with an internal server error and the order rests in the book. *)
Theorem failed_request_commits_nothing env :
  (forall order w e w',
      finite (OrderCreate.price order) = true ->
      post_orders env order w = (Raise e, w') -> committed w' = committed w)
  /\ (forall order w a ua,
         to_checksum_address env (OrderCreate.market_address order) = Ok a ->
         getMarketState env a = Ok "Active" ->
         to_checksum_address env (OrderCreate.user_address order) = Ok ua ->
         OrderCreate.price order = S754_nan ->
         0 < OrderCreate.amount order ->
         fits_integer (OrderCreate.amount order) = true ->
         NoDup (map Order.order_serial (orders (committed w))) ->
         ~ In (uuid4 env) (map Order.order_serial (orders (committed w))) ->
         exists msg w',
           post_orders env order w = (Raise (ValidationError msg), w')
           /\ response_status (ValidationError msg) = 500
           /\ chain w' = chain w
           /\ exists o,
               In o (orders (committed w'))
               /\ Order.order_serial o = uuid4 env
               /\ Order.user_address o = ua
               /\ Order.amount o = OrderCreate.amount order).
Proof.
  split.
  - intros order w e w' Hfin H. apply get_db_inv in H. destruct H as (w1 & H & ->).
    cbn [committed]. apply create_order_inv in H.
    destruct H as [(-> & _) | (a & ua & _ & _ & _ & H)]; [reflexivity |].
    cbv zeta in H. destruct H as [(_ & -> & _) | (_ & r1 & w2 & Hloop & H)];
      [reflexivity |].
    destruct r1 as [rem | e1].
    + destruct H as ([(_ & Hr) | (_ & Hnan & _)] & _); [discriminate |].
      rewrite Hnan in Hfin. discriminate.
    + destruct H as (_ & ->). cbn [committed].
      apply matching_loop_trace in Hloop. destruct Hloop as (Hc & _). exact Hc.
  - intros order w a ua Ha Hs Hua Hnan Hpos Hfit Hnd Hfresh.
    unfold post_orders, get_db. fold (session w).
    destruct (create_order env order (session w)) as [r w1] eqn:E.
    apply create_order_inv in E.
    destruct E as [(_ & e & _ & Hrej) | (a' & ua' & Ha' & Hs' & Hua' & H)].
    { exfalso. unfold rejected_early in Hrej.
      destruct Hrej as [Hr | [(a' & Ha' & Hr) | [(a' & s & Ha' & Hs' & Hne & _)
                                                | (a' & Ha' & _ & Hr)]]];
        congruence. }
    assert (ua' = ua) by congruence. subst ua'. clear a' Ha' Hs' Hua'.
    cbv zeta in H.
    destruct H as [(Hfail & _) | (_ & r1 & w2 & Hloop & H)].
    { exfalso. destruct Hfail as [(Hf & _) | (_ & Hd & _)]; [congruence |].
      rewrite distinct_NoDup in Hd; [discriminate |].
      cbn [working started orders session committed].
      apply NoDup_map_snoc; assumption. }
    rewrite match_order_nan in Hloop by exact Hnan.
    cbn [matching_loop] in Hloop. unfold ret in Hloop.
    inversion Hloop; subst r1 w2. clear Hloop.
    destruct H as ([(Hnn & _) | (_ & _ & msg & ->)] & ->).
    { exfalso. apply (Hnn Hpos). exact Hnan. }
    exists msg. eexists. split; [reflexivity |]. split; [reflexivity |].
    split; [reflexivity |]. cbn [committed].
    exists (Order.set_amount (new_order env order ua (session w))
              (OrderCreate.amount order)).
    split; [| split; [reflexivity | split; reflexivity]].
    unfold finished. apply Z.ltb_lt in Hpos. rewrite Hpos. cbn [orders].
    apply In_set_row_order. exists (new_order env order ua (session w)).
    split.
    + cbn [started working orders]. apply in_or_app. right. left. reflexivity.
    + rewrite Z.eqb_refl. reflexivity.
Qed.

(** A buy at a NaN price in the sample book. *)
Lemma failed_request_commits_nothing_witness :
  exists msg w',
    post_orders Sample.env_ok Sample.buy_nan Sample.w0
    = (Raise (ValidationError msg), w')
    /\ response_status (ValidationError msg) = 500
    /\ chain w' = chain Sample.w0
    /\ exists o,
        In o (orders (committed w'))
        /\ Order.order_serial o = "serial-3"
        /\ Order.user_address o = "bob"
        /\ Order.amount o = 3.
Proof.
  refine (proj2 (failed_request_commits_nothing Sample.env_ok)
            Sample.buy_nan Sample.w0 "market" "bob" _ _ _ _ _ _ _ _).
  - reflexivity.
  - reflexivity.
  - reflexivity.
  - reflexivity.
  - reflexivity.
  - reflexivity.
  - simpl. repeat constructor; simpl; intuition discriminate.
  - simpl. intuition discriminate.
Defined.
